(** * VIMER utilities: label conversion, FUNSD annotation parsing, box
    ordering, random-erasing pixels, layer-wise AdamW step, cosine schedule.

    Shallow embedding of
      - StrucTexT/v2/src/tasks/end2end_ie/dataset.py
      - StrucTexT/v2/src/data/transform/ops/random_erasing.py
      - CAE/Segmentation/paddleseg/core/utils.py
    followed by the properties established about them. *)

From Stdlib Require Import ZArith NArith QArith Lia Bool Ascii String.
From stdpp Require Import gmap strings list sorting.

Set Default Proof Using "Type".

(* ===================================================================== *)
(** * Part I: the programs                                               *)
(* ===================================================================== *)

(** ** Python values shared by the three files *)

Module Py.

(** A Python [str] is a sequence of Unicode code points. *)
Abbreviation char := N (only parsing).
Abbreviation pystr := (list N) (only parsing).

(** Literals: the code points of an ASCII string. *)
Definition str (s : string) : pystr :=
  (λ a, N_of_ascii a) <$> list_ascii_of_string s.

(** [list(s)]: the one-character strings of [s]. *)
Definition chars (s : pystr) : list pystr := (λ c, [c]) <$> s.

(** The exceptions the modelled code can raise. *)
Inductive exn : Type :=
| KeyError
| IndexError
| NameError (name : string)
| UnboundLocalError (name : string)
| TypeError (msg : string)
| ValueError (msg : string)
| OverflowError
| AssertionError
| Exception (msg : string).

Inductive result (A : Type) : Type :=
| Ok (a : A)
| Raise (e : exn).
Arguments Ok {A} a.
Arguments Raise {A} e.

Definition bind {A B} (r : result A) (k : A → result B) : result B :=
  match r with
  | Ok a => k a
  | Raise e => Raise e
  end.

Declare Scope py_scope.
Delimit Scope py_scope with py.
Notation "'let*' x ':=' r 'in' k" := (bind r (λ x, k))
  (at level 10, x name, r at level 100, k at level 200) : py_scope.

(** A list comprehension [[f x for x in l]]: the first failing element,
    from the left, aborts it. *)
Fixpoint comprehension {A B} (f : A → result B) (l : list A)
  : result (list B) :=
  match l with
  | [] => Ok []
  | x :: l' =>
      (let* y := f x in let* ys := comprehension f l' in Ok (y :: ys))%py
  end.

(** [d[k]] on a dict. *)
Definition dict_getitem `{Countable K} {V} (d : gmap K V) (k : K)
  : result V :=
  match d !! k with
  | Some v => Ok v
  | None => Raise KeyError
  end.

(** [l[i]] on a list: negative indices count from the end. *)
Definition list_getitem {A} (l : list A) (i : Z) : result A :=
  let n := Z.of_nat (length l) in
  let j := if (i <? 0)%Z then (i + n)%Z else i in
  if (j <? 0)%Z then Raise IndexError
  else match l !! Z.to_nat j with
       | Some x => Ok x
       | None => Raise IndexError
       end.

(** The position a slice bound [k] denotes in a sequence of length [n]. *)
Definition slice_bound (n : nat) (k : Z) : nat :=
  Z.to_nat (if (k <? 0)%Z then (k + Z.of_nat n)%Z else k).

(** [l[:k]] *)
Definition slice_to {A} (l : list A) (k : Z) : list A :=
  take (slice_bound (length l) k) l.

(** [l[:k] = xs] *)
Definition slice_to_assign {A} (l : list A) (k : Z) (xs : list A) : list A :=
  xs ++ drop (slice_bound (length l) k) l.

(** [[x] * n] *)
Definition list_mul {A} (x : A) (n : Z) : list A := replicate (Z.to_nat n) x.

(** [enumerate(l)] *)
Fixpoint enumerate_from {A} (i : Z) (l : list A) : list (Z * A) :=
  match l with
  | [] => []
  | x :: l' => (i, x) :: enumerate_from (i + 1) l'
  end.
Definition enumerate {A} (l : list A) : list (Z * A) := enumerate_from 0 l.

(** [s.startswith(sub)] *)
Fixpoint startswith (s sub : pystr) : bool :=
  match sub, s with
  | [], _ => true
  | _ :: _, [] => false
  | b :: sub', a :: s' => (a =? b)%N && startswith s' sub'
  end.

(** [s.find(sub)]: the lowest index at which [sub] occurs, else -1. *)
Fixpoint find_from (i : Z) (s sub : pystr) : Z :=
  if startswith s sub then i
  else match s with
       | [] => (-1)%Z
       | _ :: s' => find_from (i + 1) s' sub
       end.
Definition find (s sub : pystr) : Z := find_from 0 s sub.

(** [find] as an optional offset. *)
Fixpoint find_opt (s sub : list N) : option nat :=
  if startswith s sub then Some 0%nat
  else match s with
       | [] => None
       | _ :: s' => S <$> find_opt s' sub
       end.

(** [''.join(l)] *)
Definition join (l : list pystr) : pystr := concat l.

End Py.
Import Py.
Local Open Scope py_scope.

(** ** dataset.py *)

Module Dataset.

Definition TEXT_CLASSES : gmap pystr Z :=
  <[str "other" := 3%Z]>
    (<[str "header" := 2%Z]>
       (<[str "answer" := 1%Z]>
          (<[str "question" := 0%Z]> ∅))).

(** The double quote is given by its code point, 34. *)
Definition Lexicon_Table_95 : list pystr :=
  chars (str "!") ++ [[34%N]] ++ chars (str "#$%&'()*+,-./") ++
  chars (str "0123456789:;<=>?@") ++
  chars (str "ABCDEFGHIJKLMNOPQ") ++
  chars (str "RSTUVWXYZ[\]^_`abc") ++
  chars (str "defghijklmnopqrst") ++
  chars (str "uvwxyz{|}~ ").

Section LabelConverter.

(** [str.upper] maps each code point to its full uppercase mapping.  On
    ASCII that is the shift of [a..z] onto [A..Z]; outside ASCII it is
    the interpreter's Unicode table, taken as a parameter. *)
Variable unicode_upper : char → pystr.

Definition upper_char (c : char) : pystr :=
  if ((97 <=? c) && (c <=? 122))%N then [(c - 32)%N]
  else if (c <? 128)%N then [c]
  else unicode_upper c.

Definition upper (s : pystr) : pystr := s ≫= upper_char.

(** [upper] on one ASCII character. *)
Definition ascii_upper (c : N) : N :=
  if ((97 <=? c) && (c <=? 122))%N then (c - 32)%N else c.

(** convert between text and lexicon index *)
Record LabelConverter : Type := {
  recg_loss : pystr;
  idx2char : list pystr;
  seq_len : Z;
  char2idx : gmap pystr Z
}.

Definition tokens : list pystr := [str "[PAD]"; str "[STOP]"].

(** [__init__(self, seq_len=50, lexicon=None, recg_loss='CE')] *)
Definition __init__ (seq_len : Z) (lexicon : option (list pystr))
    (recg_loss : pystr) : LabelConverter :=
  let lexicon := default Lexicon_Table_95 lexicon in
  let idx2char := tokens ++ lexicon in
  {| recg_loss := recg_loss;
     idx2char := idx2char;
     seq_len := seq_len;
     char2idx :=
       foldl (λ d ic, <[ic.2 := ic.1]> d) ∅ (enumerate idx2char) |}.

(** encode character into index *)
Definition encode (self : LabelConverter) (text : pystr)
    (ignore_tag : bool) : result (list Z * list Z) :=
  let text := if ignore_tag then [] else text in
  let text := upper text in
  let text := chars text ++ [str "[STOP]"] in
  let* text_idx := comprehension (dict_getitem (char2idx self)) text in
  let* pad := dict_getitem (char2idx self) (str "[PAD]") in
  let new_text_idx := list_mul pad (seq_len self) in
  let text_len := Z.of_nat (length text) in
  if (text_len >? seq_len self)%Z
  then Ok (slice_to text_idx (seq_len self), text_idx)
  else Ok (slice_to_assign new_text_idx text_len text_idx, text_idx).

(** The keys [encode] looks up: the characters of the uppercased
    transcript, then the stop token. *)
Definition keys (text : pystr) (ignore_tag : bool) : list pystr :=
  chars (upper (if ignore_tag then [] else text))
  ++ [str "[STOP]"].

(** The loop of the CTC branch of [decode]: keep [t] when it is not the
    blank and differs from the element before it. *)
Definition ctc_step (text_idx : list Z) (acc : result (list Z))
    (it : Z * Z) : result (list Z) :=
  let* new_text_idx := acc in
  let '(i, t) := it in
  if negb (t =? 0)%Z then
    if (i =? 0)%Z then Ok (new_text_idx ++ [t])
    else
      let* prev := list_getitem text_idx (i - 1) in
      if negb (t =? prev)%Z then Ok (new_text_idx ++ [t])
      else Ok new_text_idx
  else Ok new_text_idx.

Definition ctc_loop (text_idx : list Z) : result (list Z) :=
  foldl (ctc_step text_idx) (Ok []) (enumerate text_idx).

(** [text[:text.find('[STOP]')]] when the stop token occurs. *)
Definition cut_at_stop (text : pystr) : pystr :=
  if negb (find text (str "[STOP]") =? -1)%Z
  then slice_to text (find text (str "[STOP]"))
  else text.

(** convert text-index into text-label. *)
Definition decode (self : LabelConverter) (text_idx : list Z)
    : result pystr :=
  let* text :=
    (if bool_decide (recg_loss self = str "CE") then
       let* cs := comprehension (list_getitem (idx2char self)) text_idx in
       Ok (join cs)
     else if bool_decide (recg_loss self = str "CTC") then
       let* new_text_idx := ctc_loop text_idx in
       let* cs := comprehension (list_getitem (idx2char self)) new_text_idx in
       Ok (join cs)
     else Raise (UnboundLocalError "text")) in
  Ok (cut_at_stop text).

End LabelConverter.

(** *** The CTC branch as the two phases of its description *)

(** Collapse each run of equal consecutive indices to its first element. *)
Fixpoint collapse (l : list Z) : list Z :=
  match l with
  | [] => []
  | x :: l' =>
      match l' with
      | [] => [x]
      | y :: _ => if (x =? y)%Z then collapse l' else x :: collapse l'
      end
  end.

Definition drop_blanks (l : list Z) : list Z :=
  filter (λ t, t ≠ 0%Z) l.

(** The elements of [l] that differ from the one before them, [prev]
    standing before the first. *)
Fixpoint changes (prev : option Z) (l : list Z) : list Z :=
  match l with
  | [] => []
  | t :: l' =>
      (if decide (prev = Some t) then [] else [t]) ++ changes (Some t) l'
  end.

(** A sequence without two equal neighbours. *)
Fixpoint no_adjacent_repeats (l : list Z) : Prop :=
  match l with
  | [] => True
  | x :: l' =>
      match l' with
      | [] => True
      | y :: _ => x ≠ y ∧ no_adjacent_repeats l'
      end
  end.

(** The symbol an index stands for: its place in the alphabet, counted
    from the start, or from the end when the index is negative; none when
    there is no such place. *)
Definition char_of_index (alphabet : list pystr) (i : Z) : option pystr :=
  if (0 <=? i)%Z then alphabet !! Z.to_nat i
  else reverse alphabet !! Z.to_nat (- i - 1).

(** The text up to the first place where the stop token is read; the
    whole text when it is read nowhere. *)
Fixpoint before_stop (s : pystr) : pystr :=
  match s with
  | [] => []
  | c :: s' =>
      if bool_decide (str "[STOP]" `prefix_of` s) then []
      else c :: before_stop s'
  end.

(** The reference computation: collapse, drop the blanks, map the
    surviving indices to their symbols, write the symbols one after the
    other, cut at the stop token.  An index that stands for no symbol is
    an [IndexError]. *)
Definition decode_ctc_two_phase (self : LabelConverter) (text_idx : list Z)
    : result pystr :=
  let collapsed := collapse text_idx in
  let kept := drop_blanks collapsed in
  match mapM (char_of_index (idx2char self)) kept with
  | Some symbols => Ok (before_stop (concat symbols))
  | None => Raise IndexError
  end.

(** *** Box ordering and annotation parsing *)

(** An annotation entry: (poly, transcript, text_class, ignore_tag). *)
Abbreviation entry := (list Q * pystr * Z * bool)%type (only parsing).

Definition Qltb (x y : Q) : bool := negb (Qle_bool y x).

(** [a < b] on pairs of floats: the first components decide unless they
    are equal. *)
Definition tuple_lt (a b : Q * Q) : bool :=
  if Qeq_bool a.1 b.1 then Qltb a.2 b.2 else Qltb a.1 b.1.

(** [sorted(l, key=key)]: a stable sort that compares keys with [<] only.
    Each element is placed after those already placed whose key is not
    greater. *)
Fixpoint insert_sorted {A} (key : A → Q * Q) (x : A) (l : list A) : list A :=
  match l with
  | [] => [x]
  | y :: l' =>
      if tuple_lt (key x) (key y) then x :: y :: l'
      else y :: insert_sorted key x l'
  end.

Definition sorted {A} (l : list A) (key : A → Q * Q) : list A :=
  foldl (λ acc x, insert_sorted key x acc) [] l.

(** The order of keys that [sorted] realises with [tuple_lt]: first
    components ascending, equal ones ordered by the second. *)
Definition key_le (a b : Q * Q) : Prop :=
  (a.1 < b.1)%Q ∨ ((a.1 == b.1)%Q ∧ (a.2 <= b.2)%Q).

Definition by_key {A} (key : A → Q * Q) (x y : A) : Prop :=
  key_le (key x) (key y).

Section Boxes.

(** [cv2.minAreaRect(np.array(poly, dtype=np.float32).reshape(-1, 2))[0]]:
    the center (x, y) of the minimal-area rectangle around the points of
    [poly].  OpenCV is outside the repository. *)
Variable minAreaRect_center : list Q → Q * Q.

Definition compare_key (left_right_first : bool) (x : entry) : Q * Q :=
  let poly := x.1.1.1 in
  let center := minAreaRect_center poly in
  (* from left to right *)
  if left_right_first then (center.1, center.2)
  (* from top to bottom *)
  else (center.2, center.1).

(** sort bbox *)
Definition _sort_box_with_list (anno : list entry) (left_right_first : bool)
    : list entry :=
  sorted anno (compare_key left_right_first).

Definition center_x (e : entry) : Q := (minAreaRect_center e.1.1.1).1.
Definition center_y (e : entry) : Q := (minAreaRect_center e.1.1.1).2.

(** [e1] may stand before [e2] reading top to bottom. *)
Definition top_to_bottom (e1 e2 : entry) : Prop :=
  (center_y e1 < center_y e2)%Q
  ∨ ((center_y e1 == center_y e2)%Q ∧ (center_x e1 <= center_x e2)%Q).

(** [e1] may stand before [e2] reading left to right. *)
Definition left_to_right (e1 e2 : entry) : Prop :=
  (center_x e1 < center_x e2)%Q
  ∨ ((center_x e1 == center_x e2)%Q ∧ (center_y e1 <= center_y e2)%Q).

End Boxes.

Definition _bbox2poly (bbox : list Q) : result (list Q) :=
  let* b0 := list_getitem bbox 0 in
  let* b1 := list_getitem bbox 1 in
  let* b2 := list_getitem bbox 2 in
  let* b3 := list_getitem bbox 3 in
  Ok [b0; b1; b2; b1; b2; b3; b0; b3].

(** The decoded JSON document of an annotation file, as the FUNSD schema
    has it: [form] is a list of records, each with its [box] (numbers),
    [text], [label] and [words], each word with its [box] and [text].  A
    document in which one of these keys is missing is not of this type;
    reading the missing key is a [KeyError] in the code. *)
Record word_record : Type := {
  word_box : list Q;
  word_text : pystr
}.

Record line_record : Type := {
  box : list Q;
  text : pystr;
  label : pystr;
  words : list word_record
}.

Record annotation : Type := { form : list line_record }.

(** The records of [form] that have a transcript, and the words of those
    records. *)
Fixpoint line_count (l : list line_record) : nat :=
  match l with
  | [] => 0
  | ln :: l' => (if decide (text ln = []) then 0 else 1) + line_count l'
  end.

Fixpoint word_count (l : list line_record) : nat :=
  match l with
  | [] => 0
  | ln :: l' =>
      (if decide (text ln = []) then 0 else length (words ln)) + word_count l'
  end.

(** [res = {'word': [], 'line': []}] *)
Record res : Type := { word : list entry; line : list entry }.

(** [char in Lexicon_Table_95] *)
Definition in_lexicon (c : char) : bool :=
  bool_decide ([c] ∈ Lexicon_Table_95).

(** Every entry of both collections has its ignore flag unset. *)
Definition flags_false (r : res) : Prop :=
  Forall (λ e : entry, e.2 = false) (line r)
  ∧ Forall (λ e : entry, e.2 = false) (word r).

(** A page with one header line of two words. *)
Definition sample_page : annotation :=
  let w := {| word_box := [1; 2; 3; 4]%Q; word_text := str "Total" |} in
  {| form := [ {| box := [1; 2; 9; 4]%Q; text := str "Total Total";
                  label := str "header"; words := [w; w] |} ] |}.

(** A page whose records all have an empty transcript. *)
Definition blank_page : annotation :=
  let w := {| word_box := [1; 2; 3; 4]%Q; word_text := str "x" |} in
  {| form := [ {| box := [1; 2; 9; 4]%Q; text := [];
                  label := str "header"; words := [w] |};
               {| box := []; text := [];
                  label := str "caption"; words := [] |} ] |}.


Section Parse.

(** [float(x)] on a JSON number: the number itself when it is a float, the
    nearest double when it is an integer, and [OverflowError] for an
    integer beyond the range of a double. *)
Variable float : Q → result Q.

(** One round of the inner loop, [for word in line['words']]. *)
Definition parse_word (acc : result res) (w : word_record) : result res :=
  let* r := acc in
  let* nums := comprehension float (word_box w) in
  let* poly := _bbox2poly nums in
  let transcript := filter (λ c, in_lexicon c) (word_text w) in
  Ok {| word := word r ++ [(poly, transcript, (-1)%Z, false)];
        line := line r |}.

(** One round of the outer loop, [for line in data['form']]. *)
Definition parse_line (acc : result res) (ln : line_record) : result res :=
  let* r := acc in
  if (length (text ln) =? 0)%nat then Ok r
  else
    let* nums := comprehension float (box ln) in
    let* poly := _bbox2poly nums in
    let transcript := filter (λ c, in_lexicon c) (text ln) in
    let* text_class := dict_getitem TEXT_CLASSES (label ln) in
    let r := {| word := word r;
                line := line r ++ [(poly, transcript, text_class, false)] |} in
    foldl parse_word (Ok r) (words ln).

Definition parse_form (data : annotation) : result res :=
  foldl parse_line (Ok {| word := []; line := [] |}) (form data).

(** load annos; [data] is what [json.load] returned for [anno_path]. *)
Definition _parse_ann_info_funsd (data : annotation) : result (option res) :=
  let* r := parse_form data in
  if (length (line r) =? 0)%nat || (length (word r) =? 0)%nat
  then Ok None
  else Ok (Some r).

End Parse.

End Dataset.


(** ** random_erasing.py *)

Module RandomErasing.

Definition dquote : string := String "034"%char EmptyString.

(** The text of the exception raised for an unsupported mode. *)
Definition invalid_mode_message : string :=
  "Invalid mode in RandomErasing, only support " +:+
  dquote +:+ "const" +:+ dquote +:+ ", " +:+
  dquote +:+ "rand" +:+ dquote +:+ ", " +:+
  dquote +:+ "pixel" +:+ dquote.



Module Pixels.
Section Pixels.

(** Floats, arrays and the state of numpy's global generator. *)
Variables (F ndarray rng : Type).

(** [np.random.normal(size=size)], numpy's sampler: the array drawn and
    the generator state after the draw, or the exception with which numpy
    refuses the size (a negative dimension, an array too large to
    hold). *)
Variable np_random_normal : list Z → rng → result (ndarray * rng).

Record Pixels : Type := { _mode : pystr; _mean : list F }.

(** [__init__(self, mode="const", mean=[0., 0., 0.])] *)
Definition __init__ (mode : pystr) (mean : list F) : Pixels :=
  {| _mode := mode; _mean := mean |}.

(** What [__call__] returns: a drawn array, or the stored mean. *)
Inductive pixels : Type :=
| Drawn (a : ndarray)
| Mean (m : list F).

(** [__call__(self, h=224, w=224, c=3)] *)
Definition __call__ (self : Pixels) (h w c : Z) (g : rng)
    : result (pixels * rng) :=
  if bool_decide (_mode self = str "rand") then
    let* r := np_random_normal [1; 1; 3]%Z g in Ok (Drawn r.1, r.2)
  else if bool_decide (_mode self = str "pixel") then
    let* r := np_random_normal [h; w; c] g in Ok (Drawn r.1, r.2)
  else if bool_decide (_mode self = str "const") then
    Ok (Mean (_mean self), g)
  else Raise (Exception invalid_mode_message).

End Pixels.
End Pixels.

End RandomErasing.

(** ** utils.py *)

Module Utils.

(** *** Name resolution inside the module *)

Inductive class : Type :=
| object
| paddle_Optimizer
| paddle_Adam
| paddle_AdamW
| AdamWDL.

#[global] Instance class_eq_dec : EqDecision class.
Proof. solve_decision. Defined.

Inductive global : Type :=
| Module_ (name : string)
| Function_ (name : string)
| Class_ (c : class)
| Value_ (name : string).

(** The module namespace once the file is imported, in binding order.
    [AdamW] is first the imported paddle class and is rebound by the
    statement [AdamW = AdamWDL] below the class definition. *)
Definition module_bindings : list (string * global) :=
  [ ("partial", Function_ "functools.partial");
    ("math", Module_ "math");
    ("np", Module_ "numpy");
    ("paddle", Module_ "paddle");
    ("fluid", Module_ "paddle.fluid");
    ("core", Module_ "paddle.fluid.core");
    ("AdamW", Class_ paddle_AdamW);
    ("__all__", Value_ "__all__");
    ("layerwise_lr_decay", Function_ "layerwise_lr_decay");
    ("AdamWDL", Class_ AdamWDL);
    ("AdamW", Class_ AdamWDL);
    ("create_optimizer", Function_ "create_optimizer");
    ("cosine_scheduler", Function_ "cosine_scheduler");
    ("polynomial_scheduler", Function_ "polynomial_scheduler") ]%string.

Definition module_globals : gmap string global :=
  foldl (λ d b, <[b.1 := b.2]> d) ∅ module_bindings.

(** The built-in functions and the built-in exceptions the file uses. *)
Definition builtins : list string :=
  [ "abs"; "aiter"; "all"; "anext"; "any"; "ascii"; "bin"; "bool";
    "breakpoint"; "bytearray"; "bytes"; "callable"; "chr"; "classmethod";
    "compile"; "complex"; "delattr"; "dict"; "dir"; "divmod"; "enumerate";
    "eval"; "exec"; "filter"; "float"; "format"; "frozenset"; "getattr";
    "globals"; "hasattr"; "hash"; "help"; "hex"; "id"; "input"; "int";
    "isinstance"; "issubclass"; "iter"; "len"; "list"; "locals"; "map";
    "max"; "memoryview"; "min"; "next"; "object"; "oct"; "open"; "ord";
    "pow"; "print"; "property"; "range"; "repr"; "reversed"; "round";
    "set"; "setattr"; "slice"; "sorted"; "staticmethod"; "str"; "sum";
    "super"; "tuple"; "type"; "vars"; "zip"; "__import__";
    "None"; "True"; "False"; "TypeError"; "ValueError"; "Exception";
    "AssertionError"; "NameError"; "KeyError"; "IndexError" ]%string.

(** A name that is not local: module namespace first, then built-ins. *)
Definition resolve (name : string) : result global :=
  match module_globals !! name with
  | Some v => Ok v
  | None =>
      if bool_decide (name ∈ builtins) then Ok (Value_ name)
      else Raise (NameError name)
  end.

(** The method resolution order of an [AdamWDL] instance. *)
Definition mro : list class :=
  [AdamWDL; paddle_AdamW; paddle_Adam; paddle_Optimizer; object].

(** [super(c, self)]: the classes after [c] in the order of [self]. *)
Fixpoint after (c : class) (l : list class) : list class :=
  match l with
  | [] => []
  | d :: l' => if bool_decide (c = d) then l' else after c l'
  end.

Section AdamWDL.

(** The framework: program block, parameters with their attributes, the
    state they live in, and what appending an operator returns. *)
Variables (block param grad lr state op : Type).

(** [param.optimize_attr["learning_rate"]], read and written. *)
Variable get_learning_rate : param → state → lr.
Variable set_learning_rate : param → lr → state → state.

(** paddle's [_append_decoupled_weight_decay]. *)
Variable _append_decoupled_weight_decay :
  block → param * grad → state → result state.

(** paddle's [_append_optimize_op] as each framework class defines it;
    [None] where a class does not define the method. *)
Variable class_append_optimize_op :
  class → option (block → param * grad → state → result (op * state)).

Record AdamWDL_obj : Type := {
  layerwise_decay : lr;
  n_layers : Z;
  set_param_lr_fun : option (param → state → result state)
}.

(** [functools.partial(func, ...)] needs a callable. *)
Definition partial {A B} (func : option (A → B)) : result (A → B) :=
  match func with
  | Some f => Ok f
  | None => Raise (TypeError "the first argument must be callable")
  end.

(** [__init__], up to the call of the base initialiser.  [is_float] tells
    whether [layerwise_decay] is a float or a framework variable. *)
Definition __init__ (is_float : bool) (layerwise_decay : lr) (n_layers : Z)
    (set_param_lr_fun : option (param → state → result state))
    : result AdamWDL_obj :=
  if negb is_float then Raise (TypeError "coeff should be float or Tensor.")
  else
    let* f := partial set_param_lr_fun in
    Ok {| layerwise_decay := layerwise_decay;
          n_layers := n_layers;
          set_param_lr_fun := Some f |}.

(** [super(g, self)._append_optimize_op(block, param_and_grad)] *)
Definition super_append_optimize_op (g : global) (b : block)
    (pg : param * grad) (s : state) : result (op * state) :=
  match g with
  | Class_ c =>
      match omap class_append_optimize_op (after c mro) with
      | m :: _ => m b pg s
      | [] => Raise (TypeError "no such method")
      end
  | _ => Raise (TypeError "super() argument 1 must be a type")
  end.

Definition _append_optimize_op (self : AdamWDL_obj) (b : block)
    (param_and_grad : param * grad) (s : state) : result (op * state) :=
  match set_param_lr_fun self with
  | None =>
      let* _super := resolve "super" in
      let* c := resolve "AdamLW" in
      super_append_optimize_op c b param_and_grad s
  | Some f =>
      let* s := _append_decoupled_weight_decay b param_and_grad s in
      let prev_lr := get_learning_rate param_and_grad.1 s in
      let* s := f param_and_grad.1 s in
      (* excute Adam op *)
      let* _super := resolve "super" in
      let* c := resolve "AdamW" in
      let* r := super_append_optimize_op c b param_and_grad s in
      Ok (r.1, set_learning_rate param_and_grad.1 prev_lr r.2)
  end.

End AdamWDL.

(** *** Schedules *)

Section Schedulers.

(** Floats and the operations the schedule uses on them. *)
Variable F : Type.
Variables fadd fsub fmul fdiv : F → F → F.
Variable cos : F → F.
Variables pi half one : F.
Variable of_int : Z → F.

(** [np.arange(n)] *)
Definition np_arange (n : Z) : list Z := seqZ 0 n.

(** [np.linspace(start, stop, num)] for [num > 0]: [num] evenly spaced
    samples, the last one being [stop] when there are at least two. *)
Definition np_linspace (start stop : F) (num : Z) : list F :=
  let step := fdiv (fsub stop start) (of_int (num - 1)) in
  let y := (λ i, fadd (fmul (of_int i) step) start) <$> np_arange num in
  if (1 <? num)%Z then <[Z.to_nat (num - 1) := stop]> y else y.

(** The schedule as it stands just before the final assertion. *)
Definition cosine_schedule (base_value final_value : F) (total_iters : Z)
    (start_warmup_value : F) (warmup_iters : Z) : list F :=
  let warmup_schedule :=
    if (warmup_iters >? 0)%Z
    then np_linspace start_warmup_value base_value warmup_iters
    else [] in
  let iters := np_arange (total_iters - warmup_iters) in
  let schedule :=
    (λ i, fadd final_value
            (fmul (fmul half (fsub base_value final_value))
               (fadd one
                  (cos (fdiv (fmul pi (of_int i))
                          (of_int (Z.of_nat (length iters))))))))
      <$> iters in
  warmup_schedule ++ schedule.

(** [cosine_scheduler(base_value, final_value, total_iters,
                      start_warmup_value=0, warmup_iters=-1)];
    the print of the warmup steps does not bear on the result. *)
Definition cosine_scheduler (base_value final_value : F) (total_iters : Z)
    (start_warmup_value : F) (warmup_iters : Z) : result (list F) :=
  let schedule :=
    cosine_schedule base_value final_value total_iters
      start_warmup_value warmup_iters in
  if (Z.of_nat (length schedule) =? total_iters)%Z then Ok schedule
  else Raise AssertionError.

(** The call with both optional arguments left out. *)
Definition cosine_scheduler_default (base_value final_value : F)
    (total_iters : Z) : result (list F) :=
  cosine_scheduler base_value final_value total_iters (of_int 0) (-1).

End Schedulers.

End Utils.

(** ** More of Python's strings and paths *)

Module PyStr.

(** [sub in s] *)
Definition contains (s sub : pystr) : bool := negb (find s sub =? -1)%Z.

(** [s.endswith(suffix)] *)
Definition endswith (s suffix : pystr) : bool :=
  startswith (drop (length s - length suffix) s) suffix
  && (length suffix <=? length s)%nat.

(** [l[k:]] *)
Definition slice_from {A} (l : list A) (k : Z) : list A :=
  drop (slice_bound (length l) k) l.

(** [s.rfind(sub)]: the highest index at which [sub] occurs, else -1. *)
Fixpoint rfind_from (i : Z) (s sub : pystr) (last : Z) : Z :=
  let last := if startswith s sub then i else last in
  match s with
  | [] => last
  | _ :: s' => rfind_from (i + 1) s' sub last
  end.
Definition rfind (s sub : pystr) : Z := rfind_from 0 s sub (-1).

(** [s.replace(old, new)]: the occurrences of [old] are taken from the
    left and do not overlap; [skip] counts the characters of an occurrence
    still to pass over.  An empty [old] matches before every character and
    at the end. *)
Fixpoint replace_from (skip : nat) (s old new : pystr) : pystr :=
  match s with
  | [] => []
  | c :: s' =>
      match skip with
      | S k => replace_from k s' old new
      | O =>
          if startswith s old
          then new ++ replace_from (length old - 1) s' old new
          else c :: replace_from 0 s' old new
      end
  end.
Definition replace (s old new : pystr) : pystr :=
  match old with
  | [] => new ++ (s ≫= (λ c, c :: new))
  | _ :: _ => replace_from 0 s old new
  end.

(** [s.split(sep)]: [cur] is the piece being read. *)
Fixpoint split_from (skip : nat) (s sep cur : pystr) : list pystr :=
  match s with
  | [] => [cur]
  | c :: s' =>
      match skip with
      | S k => split_from k s' sep cur
      | O =>
          if startswith s sep
          then cur :: split_from (length sep - 1) s' sep []
          else split_from 0 s' sep (cur ++ [c])
      end
  end.
Definition split (s sep : pystr) : result (list pystr) :=
  match sep with
  | [] => Raise (ValueError "empty separator")
  | _ :: _ => Ok (split_from 0 s sep [])
  end.

(** [os.path.basename(p)], POSIX: what follows the last slash. *)
Definition basename (p : pystr) : pystr :=
  slice_from p (rfind p (str "/") + 1).

(** [os.path.join(a, b)], POSIX, for two components. *)
Definition path_join (a b : pystr) : pystr :=
  if startswith b (str "/") then b
  else if bool_decide (a = []) || endswith a (str "/") then a ++ b
  else a ++ str "/" ++ b.

End PyStr.

(** ** dataset.py: the [Dataset] class *)

Module DatasetClass.
Import Dataset PyStr.

(** *** Name resolution inside the module *)

(** The names the module binds at its top level, in binding order. *)
Definition module_names : list string :=
  [ "absolute_import"; "division"; "print_function"; "os"; "sys"; "cv2";
    "json"; "copy"; "glob"; "codecs"; "logging"; "np"; "paddle"; "fluid";
    "__dir__"; "build_transform"; "BaseDataset"; "TEXT_CLASSES";
    "Lexicon_Table_95"; "LabelConverter"; "_sort_box_with_list";
    "_bbox2poly"; "_parse_ann_info_funsd"; "Dataset" ]%string.

(** The names [Dataset.__init__] binds itself. *)
Definition init_locals : list string :=
  [ "self"; "config"; "feed_names"; "train_mode"; "batch_size"; "data_path";
    "image_path"; "labels"; "label_list" ]%string.

(** A name read in [__init__]: one of its locals, else a name of the
    module, else a built-in. *)
Definition resolve (name : string) : result string :=
  if bool_decide (name ∈ init_locals)
     || bool_decide (name ∈ module_names)
     || bool_decide (name ∈ Utils.builtins)
  then Ok name
  else Raise (NameError name).

(** *** [__init__] *)

(** The entries of [config] the class reads; [max_seq_len] and
    [recg_loss] are optional. *)
Record config (T : Type) : Type := {
  batch_size : Z;
  data_path : pystr;
  image_path : pystr;
  transform : T;
  max_seq_len : option Z;
  cfg_recg_loss : option pystr
}.
Arguments batch_size {T} _.
Arguments data_path {T} _.
Arguments image_path {T} _.
Arguments transform {T} _.
Arguments max_seq_len {T} _.
Arguments cfg_recg_loss {T} _.

Section Init.

(** The configuration of the transforms, the transform built from it and
    the state the base class sets up. *)
Variables (T transform_t base_t : Type).

(** [os.path.isdir] and [glob.glob] on the file system at hand. *)
Variable isdir : pystr → bool.
Variable glob : pystr → list pystr.

(** [build_transform] and [BaseDataset.__init__], from the rest of the
    package. *)
Variable build_transform : T → result transform_t.
Variable BaseDataset_init :
  list (list (list pystr)) → list pystr → Z → bool → result base_t.

Record Dataset_obj : Type := {
  self_config : config T;
  self_transform : transform_t;
  self_base : base_t;
  self_seq_len : Z;
  self_recg_loss : pystr;
  label_converter : LabelConverter
}.

(** [__init__(self, config, feed_names, train_mode=True)] *)
Definition __init__ (cfg : config T) (feed_names : list pystr)
    (train_mode : bool) : result Dataset_obj :=
  if negb (isdir (image_path cfg)) then Raise AssertionError
  else
    let* label_list :=
      (if isdir (data_path cfg) then
         let labels := glob (data_path cfg ++ str "/*.*") in
         let label_list :=
           (λ label_path, [label_path; image_path cfg]) <$> labels in
         Ok [label_list]
       else
         let* _ValueError := resolve "ValueError" in
         let* subdata_label_path := resolve "subdata_label_path" in
         Raise (ValueError "error in load data_path for funsd: ")) in
    let* tr := build_transform (transform cfg) in
    let* base :=
      BaseDataset_init label_list feed_names (batch_size cfg) train_mode in
    let seq_len := default 50%Z (max_seq_len cfg) in
    let recg_loss := default (str "CE") (cfg_recg_loss cfg) in
    Ok {| self_config := cfg;
          self_transform := tr;
          self_base := base;
          self_seq_len := seq_len;
          self_recg_loss := recg_loss;
          label_converter := Dataset.__init__ seq_len None recg_loss |}.

End Init.

(** *** [_read_data] *)

Section ReadData.

(** A decoded image. *)
Variable image : Type.

(** [os.path.exists] and [cv2.imread] on the file system at hand;
    [imread] gives [None] for a file it cannot decode and may raise. *)
Variable path_exists : pystr → bool.
Variable imread : pystr → result (option image).

(** ['image'] and ['boxes_and_texts_file']. *)
Record example : Type := {
  ex_image : image;
  boxes_and_texts_file : pystr
}.

(** load image from image path and return image with data path; the
    messages written to the log are left out. *)
Definition _read_data (ex : pystr * pystr) : option example :=
  let '(data_path, image_path) := ex in
  let image_name :=
    replace (basename data_path) (str ".json") (str ".png") in
  let image_path := path_join image_path image_name in
  if negb (path_exists image_path) then None
  else
    match imread image_path with
    | Raise _ => None
    | Ok None => None
    | Ok (Some image) =>
        Some {| ex_image := image; boxes_and_texts_file := data_path |}
    end.

End ReadData.
Arguments ex_image {image} _.
Arguments boxes_and_texts_file {image} _.

(** *** [_convert_examples] *)

(** A Python dict with string keys, in insertion order. *)
Fixpoint dict_get {V} (d : list (pystr * V)) (k : pystr) : option V :=
  match d with
  | [] => None
  | (k', v) :: d' => if bool_decide (k' = k) then Some v else dict_get d' k
  end.

(** [d[k] = v]: the value is replaced where the key stands, else the pair
    is added at the end. *)
Fixpoint dict_set {V} (d : list (pystr * V)) (k : pystr) (v : V)
    : list (pystr * V) :=
  match d with
  | [] => [(k, v)]
  | (k', v') :: d' =>
      if bool_decide (k' = k) then (k, v) :: d' else (k', v') :: dict_set d' k v
  end.

(** One of the two label groups; the arrays are kept as lists, row by
    row. *)
Record label : Type := {
  polys : list (list Q);
  texts : list (list Z);
  classes : list Z;
  ignore_tags : list bool
}.

Definition empty_label : label :=
  {| polys := []; texts := []; classes := []; ignore_tags := [] |}.

Section Convert.

Variables (image V : Type).
Variable unicode_upper : char → pystr.
Variable float : Q → result Q.
Variable minAreaRect_center : list Q → Q * Q.

(** Opening and decoding the annotation file. *)
Variable load : pystr → result annotation.

(** What is handed to the transform. *)
Record transform_input : Type := {
  ti_image : image;
  multi_label : list label
}.

(** The transform of the object: a sequence of dicts. *)
Variable self_transform :
  transform_input → result (list (list (pystr * V))).

Variable self_label_converter : LabelConverter.

(** One round of the loop over [anno_word]: the padded sequence is kept. *)
Definition word_step (acc : result label) (e : entry) : result label :=
  let* l := acc in
  let '(poly, text, text_class, ignore_tag) := e in
  let* enc := encode unicode_upper self_label_converter text ignore_tag in
  Ok {| polys := polys l ++ [poly];
        classes := classes l ++ [text_class];
        texts := texts l ++ [enc.1];
        ignore_tags := ignore_tags l ++ [ignore_tag] |}.

(** One round of the loop over [anno_line]: the raw sequence is kept. *)
Definition line_step (acc : result label) (e : entry) : result label :=
  let* l := acc in
  let '(poly, text, text_class, ignore_tag) := e in
  let* enc := encode unicode_upper self_label_converter text ignore_tag in
  Ok {| polys := polys l ++ [poly];
        texts := texts l ++ [enc.2];
        ignore_tags := ignore_tags l ++ [ignore_tag];
        classes := classes l ++ [text_class] |}.

(** One round of the last loop: the entries of the line-level output are
    copied under the key with [_line] added, but for two of them. *)
Definition merge_step (data : list (pystr * V)) (kv : pystr * V)
    : list (pystr * V) :=
  if bool_decide (kv.1 ∈ [str "image"; str "ratio"]) then data
  else dict_set data (kv.1 ++ str "_line") kv.2.

(** convert example to field *)
Definition _convert_examples (examples : list (example image))
    : result (option (list (pystr * V))) :=
  let* example := list_getitem examples 0 in
  let anno_path := boxes_and_texts_file example in
  let* data := load anno_path in
  let* anno := _parse_ann_info_funsd float data in
  match anno with
  | None => Ok None
  | Some anno =>
      (* sort the box based on the position *)
      let anno_line := _sort_box_with_list minAreaRect_center (line anno) false in
      let anno_word := _sort_box_with_list minAreaRect_center (word anno) false in
      let* label_word := foldl word_step (Ok empty_label) anno_word in
      let* label_line := foldl line_step (Ok empty_label) anno_line in
      let example :=
        {| ti_image := ex_image example;
           multi_label := [label_word; label_line] |} in
      let* transform_out := self_transform example in
      let* data := list_getitem transform_out 0 in
      let* line_out := list_getitem transform_out 1 in
      Ok (Some (foldl merge_step data line_out))
  end.

End Convert.

End DatasetClass.

(** ** utils.py: layer-wise decay, the optimizer factory, the polynomial
    schedule *)

Module Optim.
Import PyStr.

Section LayerDecay.

(** Floats, their product, [x ** n] for an integer [n] (which may raise),
    and the constant 1.0. *)
Variable F : Type.
Variable fmul : F → F → F.
Variable fpow : F → Z → result F.
Variable one : F.

(** The built-in [int] on a string. *)
Variable int : pystr → result Z.

(** [layerwise_lr_decay(decay_rate, name_dict, n_layers, param)]; of
    [param], its name and its learning rate, whose new value is returned. *)
Definition layerwise_lr_decay (decay_rate : F) (name_dict : gmap pystr pystr)
    (n_layers : Z) (param : pystr * F) : result F :=
  let ratio := one in
  let* static_name := dict_getitem name_dict param.1 in
  let* ratio :=
    (if contains static_name (str "blocks") then
       let idx := find static_name (str "blocks.") in
       let* parts := split (slice_from static_name idx) (str ".") in
       let* part := list_getitem parts 1 in
       let* layer := int part in
       fpow decay_rate (n_layers - layer)
     else if contains static_name (str "embed") then
       fpow decay_rate (n_layers + 1)
     else Ok ratio) in
  Ok (fmul param.2 ratio).

End LayerDecay.

(** *** [create_optimizer] *)

(** A parameter of the model: its name in the framework and its shape. *)
Record parameter : Type := { p_name : pystr; p_shape : list Z }.

(** The keyword arguments the factory hands to [AdamW]; the floats of
    the function are literals, kept as rationals. *)
Record opt_args : Type := {
  learning_rate : Q;
  weight_decay : Q;
  parameters : list parameter;
  apply_decay_param_fun : option (gmap pystr bool);
  beta1 : Q;
  beta2 : Q;
  layerwise_decay : Q;
  name_dict : gmap pystr pystr;
  n_layers : option Z
}.

(** [bool(x)] of a float. *)
Definition truthy (x : Q) : bool := negb (Qeq_bool x 0).

(** One element of the dict comprehension: whether the parameter decays.
    [name in skip_list] is reached only past the two tests before it and
    needs a container. *)
Definition decays (skip_list : option (list pystr)) (name : pystr)
    (param : parameter) : result bool :=
  if (length (p_shape param) =? 1)%nat then Ok false
  else if endswith name (str ".bias") then Ok false
  else match skip_list with
       | None =>
           Raise (TypeError "argument of type 'NoneType' is not iterable")
       | Some l => Ok (negb (bool_decide (name ∈ l)))
       end.

Definition decay_dict_step (skip_list : option (list pystr))
    (acc : result (gmap pystr bool)) (np : pystr * parameter)
    : result (gmap pystr bool) :=
  let* d := acc in
  if negb (contains np.1 (str "teacher")) then
    let* b := decays skip_list np.1 np.2 in
    Ok (<[p_name np.2 := b]> d)
  else Ok d.

(** [create_optimizer(model, filter_bias_and_bn=True, num_layers=None,
                      skip_list=None, decay_dict=None)].  Of the model:
    its [named_parameters()], [parameters()] being their second
    components, and [no_weight_decay], absent or the outcome of calling
    it.  What is returned are the keyword arguments of the call of [AdamW]
    that ends the function. *)
Definition create_optimizer (named_parameters : list (pystr * parameter))
    (no_weight_decay : option (result (list pystr)))
    (filter_bias_and_bn : bool) (num_layers : option Z)
    (skip_list : option (list pystr)) (decay_dict : option (gmap pystr bool))
    : result opt_args :=
  let weight_decay := 0.05%Q in
  let* r :=
    (if truthy weight_decay && filter_bias_and_bn then
       let* skip :=
         match skip_list with
         | Some l => Ok l
         | None => default (Ok []) no_weight_decay
         end in
       let* decay_dict :=
         foldl (decay_dict_step skip_list) (Ok ∅) named_parameters in
       let parameters :=
         filter (λ param, contains (p_name param) (str "teacher") = false)
           (snd <$> named_parameters) in
       Ok (Some decay_dict, parameters, 0%Q)
     else Ok (decay_dict, snd <$> named_parameters, weight_decay)) in
  let '(decay_dict, parameters, weight_decay) := r in
  let name_dict :=
    foldl (λ d (np : pystr * parameter), <[p_name np.2 := np.1]> d) ∅
      named_parameters in
  Ok {| learning_rate := 0.0002%Q;
        weight_decay := weight_decay;
        parameters := parameters;
        apply_decay_param_fun := decay_dict;
        beta1 := 0.9%Q;
        beta2 := 0.999%Q;
        layerwise_decay := 0.65%Q;
        name_dict := name_dict;
        n_layers := num_layers |}.

(** *** [polynomial_scheduler] *)

Section Polynomial.

Variable F : Type.

(** [np.linspace], and paddle's [PolynomialDecay]: its constructor, which
    may refuse its arguments, [get_lr] and [step]. *)
Variable linspace : F → F → Z → list F.
Variable sched : Type.
Variable PolynomialDecay : F → Z → F → result sched.
Variable get_lr : sched → F.
Variable step : sched → sched.

(** The loop [for _ in range(iters)]. *)
Fixpoint collect (n : nat) (s : sched) : list F :=
  match n with
  | O => []
  | S n' => get_lr s :: collect n' (step s)
  end.

Definition polynomial_scheduler (base_value final_value : F)
    (total_iters : Z) (start_warmup_value : F) (warmup_iters : Z)
    : result (list F) :=
  let warmup_schedule :=
    if (warmup_iters >? 0)%Z
    then linspace start_warmup_value base_value warmup_iters
    else [] in
  let iters := (total_iters - warmup_iters)%Z in
  let* scheduler := PolynomialDecay base_value iters final_value in
  let values := collect (Z.to_nat iters) scheduler in
  let schedule := warmup_schedule ++ values in
  if (Z.of_nat (length schedule) =? total_iters)%Z then Ok schedule
  else Raise AssertionError.

End Polynomial.

End Optim.

(** ** Notions used to state further properties *)

Module Notions.
Import Dataset.

(** A text with each run of equal consecutive characters reduced to one. *)
Fixpoint squeeze (s : pystr) : pystr :=
  match s with
  | [] => []
  | x :: s' =>
      match s' with
      | [] => [x]
      | y :: _ => if (x =? y)%N then squeeze s' else x :: squeeze s'
      end
  end.

(** [i] is a valid index, negative ones included, of a list of [n] items. *)
Definition valid_index (n : nat) (i : Z) : Prop :=
  (- Z.of_nat n ≤ i < Z.of_nat n)%Z.





(** Two keys of [sorted] that compare equal. *)
Definition key_eqb (a b : Q * Q) : bool :=
  Qeq_bool a.1 b.1 && Qeq_bool a.2 b.2.

(** The records of [form] the parsing loop does not skip. *)
Definition with_transcript (l : list line_record) : list line_record :=
  filter (λ ln, text ln ≠ []) l.

(** [e] is the line-level entry made from the record [ln]. *)
Definition line_entry_of (float : Q → result Q) (ln : line_record)
    (e : entry) : Prop :=
  ∃ nums poly cls,
    Forall2 (λ x y, float x = Ok y) (box ln) nums
    ∧ _bbox2poly nums = Ok poly
    ∧ TEXT_CLASSES !! label ln = Some cls
    ∧ e = (poly, filter (λ c, in_lexicon c) (text ln), cls, false).

(** [e] is the word-level entry made from the word [w]. *)
Definition word_entry_of (float : Q → result Q) (w : word_record)
    (e : entry) : Prop :=
  ∃ nums poly,
    Forall2 (λ x y, float x = Ok y) (word_box w) nums
    ∧ _bbox2poly nums = Ok poly
    ∧ e = (poly, filter (λ c, in_lexicon c) (word_text w), (-1)%Z, false).

(** A named parameter for which the decay table has to ask whether the
    name is in [skip_list]: not a teacher's, not one-dimensional, not a
    bias. *)
Definition asks_skip_list (np : pystr * Optim.parameter) : bool :=
  negb (PyStr.contains np.1 (str "teacher"))
  && negb (length (Optim.p_shape np.2) =? 1)%nat
  && negb (PyStr.endswith np.1 (str ".bias")).

(** The framework names of the named parameters. *)
Definition framework_names (nps : list (pystr * Optim.parameter))
    : list pystr :=
  (λ np, Optim.p_name np.2) <$> nps.

End Notions.

(* ===================================================================== *)
(** * Part II: properties                                                *)
(* ===================================================================== *)

(** ** Facts about the Python helpers *)

Module PyFacts.

Lemma bind_Ok {A B} (r : result A) (k : A → result B) (b : B) :
  bind r k = Ok b ↔ ∃ a, r = Ok a ∧ k a = Ok b.
Proof.
  destruct r as [a|e]; simpl; split.
  - intros Hk. by exists a.
  - by intros (a' & [= <-] & Hk).
  - intros [=].
  - by intros (a' & [=] & _).
Qed.

Lemma slice_bound_nonneg (n : nat) (k : nat) :
  slice_bound n (Z.of_nat k) = k.
Proof.
  unfold slice_bound.
  destruct (Z.ltb_spec (Z.of_nat k) 0); lia.
Qed.

Lemma slice_to_nonneg {A} (l : list A) (k : nat) :
  slice_to l (Z.of_nat k) = take k l.
Proof. unfold slice_to. by rewrite slice_bound_nonneg. Qed.

Lemma slice_to_assign_nonneg {A} (l xs : list A) (k : nat) :
  slice_to_assign l (Z.of_nat k) xs = xs ++ drop k l.
Proof. unfold slice_to_assign. by rewrite slice_bound_nonneg. Qed.

End PyFacts.

(** ** utils.py: the cosine schedule *)

Module SchedulerFacts.
Import Utils.

Section Lengths.

Context (F : Type) (fadd fsub fmul fdiv : F → F → F) (cos : F → F)
  (pi half one : F) (of_int : Z → F).

Local Abbreviation linspace := (np_linspace F fadd fsub fmul fdiv of_int).
Local Abbreviation schedule :=
  (cosine_schedule F fadd fsub fmul fdiv cos pi half one of_int).
Local Abbreviation scheduler :=
  (cosine_scheduler F fadd fsub fmul fdiv cos pi half one of_int).

Lemma length_np_arange (n : Z) : length (np_arange n) = Z.to_nat n.
Proof. apply length_seqZ. Qed.

Lemma length_np_linspace (a b : F) (n : Z) :
  length (linspace a b n) = Z.to_nat n.
Proof.
  unfold np_linspace.
  destruct (1 <? n)%Z;
    by rewrite ?length_insert, length_fmap, length_np_arange.
Qed.

(** The number of entries before the assertion: the warmup part when it is
    requested, then one entry for each remaining iteration, if any. *)
Lemma length_cosine_schedule (b f : F) (T : Z) (s0 : F) (w : Z) :
  Z.of_nat (length (schedule b f T s0 w)) = (Z.max 0 w + Z.max 0 (T - w))%Z.
Proof.
  unfold cosine_schedule.
  rewrite length_app, length_fmap, length_np_arange.
  destruct (Z.gtb_spec w 0).
  - rewrite length_np_linspace. lia.
  - simpl. lia.
Qed.

Lemma cosine_scheduler_Ok_iff (b f : F) (T : Z) (s0 : F) (w : Z) :
  (∃ s, scheduler b f T s0 w = Ok s) ↔ (0 ≤ w ≤ T)%Z.
Proof.
  unfold cosine_scheduler.
  rewrite length_cosine_schedule.
  destruct (Z.eqb_spec (Z.max 0 w + Z.max 0 (T - w)) T) as [He|Hne].
  - split; [lia | eauto].
  - split; [by intros [s [=]] | lia].
Qed.

Lemma cosine_scheduler_Ok_length (b f : F) (T : Z) (s0 : F) (w : Z) s :
  scheduler b f T s0 w = Ok s → Z.of_nat (length s) = T.
Proof.
  unfold cosine_scheduler.
  destruct (Z.eqb_spec (Z.of_nat (length (schedule b f T s0 w))) T)
    as [He|Hne]; [|done].
  by intros [= <-].
Qed.

Lemma cosine_scheduler_Raise_iff (b f : F) (T : Z) (s0 : F) (w : Z) :
  scheduler b f T s0 w = Raise AssertionError ↔ ¬ (0 ≤ w ≤ T)%Z.
Proof.
  rewrite <- (cosine_scheduler_Ok_iff b f T s0 w).
  unfold cosine_scheduler.
  destruct (Z.eqb_spec (Z.of_nat (length (schedule b f T s0 w))) T).
  - split; [done|]. intros Hn. destruct Hn. eauto.
  - split; [|done]. by intros _ [s [=]].
Qed.

End Lengths.

(** C10. The assertion [len(schedule) == total_iters] at the end of
    [cosine_scheduler] holds, the schedule being returned with exactly
    [total_iters] entries, if and only if
    [0 <= warmup_iters <= total_iters]; otherwise the assertion fails.
    With the default [warmup_iters = -1] the schedule built for a count
    [total_iters] has [total_iters + 1] entries and the call fails the
    assertion. *)
Theorem cosine_scheduler_assertion
    (F : Type) (fadd fsub fmul fdiv : F → F → F) (cos : F → F)
    (pi half one : F) (of_int : Z → F)
    (base_value final_value start_warmup_value : F) :
  (∀ total_iters warmup_iters : Z,
     ((∃ s, cosine_scheduler F fadd fsub fmul fdiv cos pi half one of_int
              base_value final_value total_iters start_warmup_value
              warmup_iters = Ok s
            ∧ Z.of_nat (length s) = total_iters)
      ↔ (0 ≤ warmup_iters ≤ total_iters)%Z)
     ∧ (cosine_scheduler F fadd fsub fmul fdiv cos pi half one of_int
          base_value final_value total_iters start_warmup_value
          warmup_iters = Raise AssertionError
        ↔ ¬ (0 ≤ warmup_iters ≤ total_iters)%Z))
  ∧ (∀ total_iters : nat,
       length (cosine_schedule F fadd fsub fmul fdiv cos pi half one of_int
                 base_value final_value (Z.of_nat total_iters)
                 (of_int 0%Z) (-1)%Z) = S total_iters
       ∧ cosine_scheduler_default F fadd fsub fmul fdiv cos pi half one
           of_int base_value final_value (Z.of_nat total_iters)
         = Raise AssertionError).
Proof.
  split.
  - intros T w. split; [|apply cosine_scheduler_Raise_iff].
    rewrite <- (cosine_scheduler_Ok_iff F fadd fsub fmul fdiv cos pi half
                  one of_int base_value final_value T start_warmup_value w).
    split.
    + intros (s & Hs & _). eauto.
    + intros [s Hs]. exists s. split; [done|].
      by eapply cosine_scheduler_Ok_length.
  - intros n. split.
    + pose proof (length_cosine_schedule F fadd fsub fmul fdiv cos pi half
                    one of_int base_value final_value (Z.of_nat n)
                    (of_int 0%Z) (-1)%Z) as Hlen.
      lia.
    + unfold cosine_scheduler_default.
      apply cosine_scheduler_Raise_iff. lia.
Qed.

(** The schedule of 5 iterations with 2 of warmup passes the assertion;
    the one with the default warmup does not. *)
Lemma cosine_scheduler_assertion_witness :
  (∃ s, cosine_scheduler Z Z.add Z.sub Z.mul Z.div (λ x, x) 3%Z 1%Z 1%Z
          (λ x, x) 10%Z 0%Z 5%Z 0%Z 2%Z = Ok s
        ∧ Z.of_nat (length s) = 5%Z)
  ∧ cosine_scheduler_default Z Z.add Z.sub Z.mul Z.div (λ x, x) 3%Z 1%Z 1%Z
      (λ x, x) 10%Z 0%Z (Z.of_nat 5) = Raise AssertionError.
Proof.
  pose proof (cosine_scheduler_assertion Z Z.add Z.sub Z.mul Z.div
                (λ x, x) 3%Z 1%Z 1%Z (λ x, x) 10%Z 0%Z 0%Z) as [Hiff Hdef].
  split.
  - apply (Hiff 5%Z 2%Z). lia.
  - apply (Hdef 5%nat).
Defined.

End SchedulerFacts.

(** ** utils.py: the fallback branch of the optimizer step *)

Module AdamWDLFacts.
Import Utils.

Lemma resolve_AdamLW : resolve "AdamLW" = Raise (NameError "AdamLW").
Proof. by vm_compute. Qed.

Lemma resolve_super : resolve "super" = Ok (Value_ "super").
Proof. by vm_compute. Qed.

(** At call time [AdamW] is the class defined in the file itself. *)
Lemma resolve_AdamW : resolve "AdamW" = Ok (Class_ AdamWDL).
Proof. by vm_compute. Qed.

Section Step.

Context (block param grad lr state op : Type)
  (get_learning_rate : param → state → lr)
  (set_learning_rate : param → lr → state → state)
  (_append_decoupled_weight_decay :
     block → param * grad → state → result state)
  (class_append_optimize_op :
     class → option (block → param * grad → state → result (op * state))).

(** An object that [__init__] returned never takes the fallback branch:
    [partial] has wrapped the function, or has refused [None]. *)
Lemma init_set_param_lr_fun is_float decay n f self :
  __init__ param lr state is_float decay n f = Ok self →
  set_param_lr_fun param lr state self ≠ None.
Proof.
  unfold __init__. destruct is_float; [|done].
  destruct f as [f|]; [|done].
  by intros [= <-].
Qed.

Lemma init_None_TypeError decay n :
  __init__ param lr state true decay n None
  = Raise (TypeError "the first argument must be callable").
Proof. done. Qed.

End Step.

(** C8. In [_append_optimize_op], the branch taken when
    [set_param_lr_fun] is [None] names [AdamLW], which neither the module
    nor the built-ins bind; every call that takes this branch ends in the
    name-resolution error, whatever the base classes' step would do. *)
Theorem append_optimize_op_fallback_NameError
    (block param grad lr state op : Type)
    (get_learning_rate : param → state → lr)
    (set_learning_rate : param → lr → state → state)
    (_append_decoupled_weight_decay :
       block → param * grad → state → result state)
    (class_append_optimize_op :
       class → option (block → param * grad → state → result (op * state)))
    (self : AdamWDL_obj param lr state) (b : block)
    (param_and_grad : param * grad) (s : state) :
  set_param_lr_fun param lr state self = None →
  module_globals !! "AdamLW" = None
  ∧ ("AdamLW" ∉ builtins)
  ∧ _append_optimize_op block param grad lr state op get_learning_rate
      set_learning_rate _append_decoupled_weight_decay
      class_append_optimize_op self b param_and_grad s
    = Raise (NameError "AdamLW").
Proof.
  intros Hnone. split; [by vm_compute|]. split.
  - by apply (bool_decide_unpack _); vm_compute.
  - unfold _append_optimize_op. rewrite Hnone.
    by rewrite resolve_super; simpl; rewrite resolve_AdamLW.
Qed.

Lemma append_optimize_op_fallback_NameError_witness :
  let self : AdamWDL_obj unit Z unit :=
    {| layerwise_decay := 1%Z; n_layers := 12%Z; set_param_lr_fun := None |} in
  set_param_lr_fun unit Z unit self = None
  ∧ _append_optimize_op unit unit unit Z unit unit (λ _ _, 1%Z) (λ _ _ s, s)
      (λ _ _ s, Ok s) (λ _, Some (λ _ _ s, Ok (tt, s))) self tt (tt, tt) tt
    = Raise (NameError "AdamLW").
Proof.
  split; [reflexivity|].
  apply (append_optimize_op_fallback_NameError unit unit unit Z unit unit
           (λ _ _, 1%Z) (λ _ _ s, s) (λ _ _ s, Ok s)
           (λ _, Some (λ _ _ s, Ok (tt, s)))
           {| layerwise_decay := 1%Z; n_layers := 12%Z;
              set_param_lr_fun := None |} tt (tt, tt) tt).
  reflexivity.
Defined.

End AdamWDLFacts.

(** ** random_erasing.py: the pixel-fill modes *)

Module PixelsFacts.
Import RandomErasing RandomErasing.Pixels.








(** C7, as worded, at the supported mode "pixel": with a sampler that
    refuses a negative dimension, as numpy's does, the call with a
    negative height raises that refusal. *)
Lemma Pixels_call_pixel_negative_size :
  __call__ Z unit unit
    (λ size g, if existsb (λ d, d <? 0)%Z size
               then Raise (ValueError "negative dimensions are not allowed")
               else Ok (tt, g))
    (__init__ Z (str "pixel") [0%Z]) (-1) 224 3 tt
  = Raise (ValueError "negative dimensions are not allowed").
Proof. by vm_compute. Qed.

End PixelsFacts.

(** ** dataset.py: annotation parsing *)

Module ParseFacts.
Import Dataset PyFacts.

(** A loop whose body passes an exception on unchanged ends with it. *)
Lemma foldl_result_Raise {A B} (step : result A → B → result A) :
  (∀ e b, step (Raise e) b = Raise e) →
  ∀ l e, foldl step (Raise e) l = Raise e.
Proof.
  intros Hraise l e. induction l as [|b l IH]; simpl; [done|].
  by rewrite Hraise.
Qed.

(** Such a loop keeps every property of the state that one successful
    round preserves. *)
Lemma foldl_result_invariant {A B} (P : A → Prop)
    (step : result A → B → result A) :
  (∀ e b, step (Raise e) b = Raise e) →
  (∀ a b a', P a → step (Ok a) b = Ok a' → P a') →
  ∀ l a a', P a → foldl step (Ok a) l = Ok a' → P a'.
Proof.
  intros Hraise Hstep l.
  induction l as [|b l IH]; simpl; intros a a' Ha Hfold.
  - by injection Hfold as <-.
  - destruct (step (Ok a) b) as [a1|e] eqn:Hb.
    + eapply IH; [|done]. by eapply Hstep.
    + by rewrite foldl_result_Raise in Hfold.
Qed.

Section Parse.

Context (float : Q → result Q).

Lemma parse_word_Raise e w : parse_word float (Raise e) w = Raise e.
Proof. done. Qed.

Lemma parse_line_Raise e ln : parse_line float (Raise e) ln = Raise e.
Proof. done. Qed.

Lemma parse_word_flags r w r' :
  flags_false r → parse_word float (Ok r) w = Ok r' → flags_false r'.
Proof.
  intros [Hl Hw]. unfold parse_word. simpl.
  destruct (comprehension float (word_box w)) as [nums|]; [|done]. simpl.
  destruct (_bbox2poly nums) as [poly|]; [|done].
  simpl. intros [= <-]. split; simpl; [done|].
  apply Forall_app. split; [done|]. by repeat constructor.
Qed.

Lemma parse_line_flags r ln r' :
  flags_false r → parse_line float (Ok r) ln = Ok r' → flags_false r'.
Proof.
  intros [Hl Hw]. unfold parse_line. simpl.
  destruct (length (text ln) =? 0)%nat; [by intros [= <-]|].
  destruct (comprehension float (box ln)) as [nums|]; [|done]. simpl.
  destruct (_bbox2poly nums) as [poly|]; [|done]. simpl.
  destruct (dict_getitem TEXT_CLASSES (label ln)) as [cls|]; [|done]. simpl.
  apply (foldl_result_invariant flags_false (parse_word float));
    [apply parse_word_Raise | apply parse_word_flags |].
  split; simpl; [|done].
  apply Forall_app. split; [done|]. by repeat constructor.
Qed.

(** A record with an empty transcript leaves the collections as they are. *)
Lemma parse_line_empty_text (r : res) (ln : line_record) :
  text ln = [] → parse_line float (Ok r) ln = Ok r.
Proof. intros Hln. unfold parse_line. simpl. by rewrite Hln. Qed.

Lemma parse_lines_empty_text (l : list line_record) (r : res) :
  Forall (λ ln, text ln = []) l →
  foldl (parse_line float) (Ok r) l = Ok r.
Proof.
  induction 1 as [|ln l Hln _ IH]; [done|].
  cbn [foldl]. by rewrite parse_line_empty_text.
Qed.

(** The word loop appends one word entry for each word. *)
Lemma parse_words_counts (ws : list word_record) (r r' : res) :
  foldl (parse_word float) (Ok r) ws = Ok r' →
  line r' = line r ∧ length (word r') = length (word r) + length ws.
Proof.
  revert r. induction ws as [|w ws IH]; intros r; cbn [foldl].
  - intros [= <-]. simpl. split; [done | lia].
  - destruct (parse_word float (Ok r) w) as [r1|e] eqn:Hw;
      [|by rewrite (foldl_result_Raise _ parse_word_Raise)].
    intros [Hl Hn]%IH. revert Hw. unfold parse_word. cbn [bind].
    destruct (comprehension float (word_box w)) as [nums|]; [|done].
    cbn [bind]. destruct (_bbox2poly nums); [|done]. cbn [bind].
    intros [= <-]. simpl in *. rewrite length_app in Hn. simpl in Hn.
    split; [done | lia].
Qed.

(** A record with a transcript adds one line entry and its words. *)
Lemma parse_line_counts (r r' : res) (ln : line_record) :
  parse_line float (Ok r) ln = Ok r' →
  length (line r') = length (line r) + line_count [ln]
  ∧ length (word r') = length (word r) + word_count [ln].
Proof.
  unfold parse_line. cbn [bind line_count word_count].
  destruct (decide (text ln = [])) as [Hln|Hln].
  - rewrite Hln. simpl. intros [= <-]. lia.
  - destruct (text ln) as [|c t]; [done|]. simpl length. cbn [Nat.eqb].
    destruct (comprehension float (box ln)) as [nums|]; [|done]. cbn [bind].
    destruct (_bbox2poly nums) as [poly|]; [|done]. cbn [bind].
    destruct (dict_getitem TEXT_CLASSES (label ln)) as [cls|]; [|done].
    cbn [bind]. intros [Hl Hw]%parse_words_counts.
    rewrite Hl, Hw. simpl. rewrite length_app. simpl. lia.
Qed.

(** The collections count the records with a transcript, and their words. *)
Lemma parse_lines_counts (l : list line_record) (r r' : res) :
  foldl (parse_line float) (Ok r) l = Ok r' →
  length (line r') = length (line r) + line_count l
  ∧ length (word r') = length (word r) + word_count l.
Proof.
  revert r. induction l as [|ln l IH]; intros r; cbn [foldl].
  - intros [= <-]. simpl. lia.
  - destruct (parse_line float (Ok r) ln) as [r1|e] eqn:Hln;
      [|by rewrite (foldl_result_Raise _ parse_line_Raise)].
    intros [Hl Hw]%IH. apply parse_line_counts in Hln as [Hl1 Hw1].
    cbn [line_count word_count] in *. lia.
Qed.

Lemma parse_form_counts (data : annotation) (r : res) :
  parse_form float data = Ok r →
  length (line r) = line_count (form data)
  ∧ length (word r) = word_count (form data).
Proof. unfold parse_form. by intros [Hl Hw]%parse_lines_counts. Qed.

End Parse.

(** C9. Whenever parsing succeeds, every entry of the line-level and of the
    word-level collection carries the ignore flag [False]. *)
Theorem parse_ignore_flags_false (float : Q → result Q) (data : annotation)
    (r : res) :
  _parse_ann_info_funsd float data = Ok (Some r) →
  Forall (λ e : entry, e.2 = false) (line r)
  ∧ Forall (λ e : entry, e.2 = false) (word r).
Proof.
  unfold _parse_ann_info_funsd.
  destruct (parse_form float data) as [r0|] eqn:Hform; [|done]. simpl.
  destruct (_ || _); [done|]. intros [= <-].
  revert Hform. unfold parse_form.
  apply (foldl_result_invariant flags_false (parse_line float));
    [apply parse_line_Raise | apply parse_line_flags |].
  by split.
Qed.

Lemma parse_ignore_flags_false_witness :
  ∃ r, _parse_ann_info_funsd (λ x, Ok x) sample_page = Ok (Some r)
       ∧ length (line r) = 1%nat ∧ length (word r) = 2%nat
       ∧ Forall (λ e : entry, e.2 = false) (line r)
       ∧ Forall (λ e : entry, e.2 = false) (word r).
Proof.
  eexists. split; [by vm_compute|].
  split; [reflexivity|]. split; [reflexivity|].
  apply (parse_ignore_flags_false (λ x, Ok x) sample_page).
  by vm_compute.
Defined.

(** C4. [_parse_ann_info_funsd] returns [None] if and only if, the [form]
    list having been processed to its end, the line-level or the word-level
    collection is empty, that is, no record has a transcript or those that
    have one have no words; a file whose records all have an empty
    transcript yields [None]. *)
Theorem parse_None_iff (float : Q → result Q) (data : annotation) :
  (_parse_ann_info_funsd float data = Ok None
   ↔ ∃ r, parse_form float data = Ok r ∧ (line r = [] ∨ word r = []))
  ∧ (_parse_ann_info_funsd float data = Ok None
     ↔ (∃ r, parse_form float data = Ok r)
       ∧ (line_count (form data) = 0 ∨ word_count (form data) = 0))
  ∧ (Forall (λ ln, text ln = []) (form data) →
     _parse_ann_info_funsd float data = Ok None).
Proof.
  assert (Hiff : _parse_ann_info_funsd float data = Ok None
                 ↔ ∃ r, parse_form float data = Ok r
                        ∧ (line r = [] ∨ word r = [])).
  { unfold _parse_ann_info_funsd.
    destruct (parse_form float data) as [r|e]; simpl.
    - destruct (line r) as [|x l] eqn:Hl, (word r) as [|y ws] eqn:Hw; simpl.
      + split; [|done]. intros _. exists r. rewrite Hl. auto.
      + split; [|done]. intros _. exists r. rewrite Hl. auto.
      + split; [|done]. intros _. exists r. rewrite Hw. auto.
      + split; [done|]. intros (r' & [= <-] & Hnil).
        rewrite Hl, Hw in Hnil. by destruct Hnil.
    - split; [done|]. by intros (? & [=] & _). }
  split; [exact Hiff|]. split.
  - rewrite Hiff. split.
    + intros (r & Hr & Hnil). split; [eauto|].
      apply parse_form_counts in Hr as [Hl Hw].
      rewrite <- Hl, <- Hw.
      destruct Hnil as [->| ->]; auto.
    + intros [[r Hr] Hnil]. exists r. split; [done|].
      apply parse_form_counts in Hr as [Hl Hw].
      rewrite <- Hl, <- Hw in Hnil.
      destruct Hnil as [H0|H0]; [left | right];
        by apply length_zero_iff_nil.
  - intros Hall. unfold _parse_ann_info_funsd, parse_form.
    by rewrite parse_lines_empty_text.
Qed.

Lemma parse_None_iff_witness :
  Forall (λ ln, text ln = []) (form blank_page)
  ∧ _parse_ann_info_funsd (λ x, Ok x) blank_page = Ok None.
Proof.
  assert (Hall : Forall (λ ln, text ln = []) (form blank_page))
    by (by repeat constructor).
  split; [exact Hall|].
  exact (proj2 (proj2 (parse_None_iff (λ x, Ok x) blank_page)) Hall).
Defined.

End ParseFacts.

(** ** dataset.py: box ordering *)

Module SortFacts.
Import Dataset.

Lemma Qltb_lt (x y : Q) : Qltb x y = true ↔ (x < y)%Q.
Proof.
  unfold Qltb. rewrite negb_true_iff, <- not_true_iff_false, Qle_bool_iff.
  split; [apply Qnot_le_lt | apply Qlt_not_le].
Qed.

Lemma tuple_lt_key_le (a b : Q * Q) : tuple_lt a b = true → key_le a b.
Proof.
  unfold tuple_lt, key_le.
  destruct (Qeq_bool a.1 b.1) eqn:He; rewrite Qltb_lt; intros Hlt.
  - apply Qeq_bool_iff in He. right. split; [done|]. by apply Qlt_le_weak.
  - by left.
Qed.

Lemma tuple_lt_false_key_le (a b : Q * Q) : tuple_lt a b = false → key_le b a.
Proof.
  unfold tuple_lt, key_le.
  destruct (Qeq_bool a.1 b.1) eqn:He;
    rewrite <- not_true_iff_false, Qltb_lt; intros Hlt.
  - apply Qeq_bool_iff in He. right. split; [by symmetry|].
    by apply Qnot_lt_le.
  - apply Qeq_bool_neq in He. apply Qnot_lt_le in Hlt.
    left. apply Qle_lteq in Hlt as [Hlt|Heq]; [done|].
    destruct He. by symmetry.
Qed.

Lemma key_le_trans (a b c : Q * Q) : key_le a b → key_le b c → key_le a c.
Proof.
  unfold key_le. intros [Hab|[Hab Hab']] [Hbc|[Hbc Hbc']].
  - left. by eapply Qlt_trans.
  - left. by rewrite <- Hbc.
  - left. by rewrite Hab.
  - right. split; [by rewrite Hab | by eapply Qle_trans].
Qed.

Section Sorted.

Context {A : Type} (key : A → Q * Q).

Lemma insert_sorted_Permutation (x : A) (l : list A) :
  insert_sorted key x l ≡ₚ x :: l.
Proof.
  induction l as [|y l IH]; simpl; [done|].
  destruct (tuple_lt (key x) (key y)); [done|].
  rewrite IH. apply Permutation_swap.
Qed.

Lemma insert_sorted_StronglySorted (x : A) (l : list A) :
  StronglySorted (by_key key) l → StronglySorted (by_key key) (insert_sorted key x l).
Proof.
  induction 1 as [|y l Hl IH Hy]; simpl.
  - by repeat constructor.
  - destruct (tuple_lt (key x) (key y)) eqn:Hlt.
    + apply tuple_lt_key_le in Hlt.
      constructor; [by constructor|].
      constructor; [done|].
      eapply Forall_impl; [exact Hy|].
      intros z Hz. by eapply key_le_trans.
    + apply tuple_lt_false_key_le in Hlt.
      constructor; [done|].
      rewrite insert_sorted_Permutation. by constructor.
Qed.

Lemma sorted_from_Permutation (l acc : list A) :
  foldl (λ acc x, insert_sorted key x acc) acc l ≡ₚ acc ++ l.
Proof.
  revert acc. induction l as [|x l IH]; intros acc; simpl.
  - by rewrite app_nil_r.
  - rewrite IH, insert_sorted_Permutation. simpl.
    apply Permutation_middle.
Qed.

Lemma sorted_from_StronglySorted (l acc : list A) :
  StronglySorted (by_key key) acc →
  StronglySorted (by_key key) (foldl (λ acc x, insert_sorted key x acc) acc l).
Proof.
  revert acc. induction l as [|x l IH]; intros acc Hacc; simpl; [done|].
  by apply IH, insert_sorted_StronglySorted.
Qed.

Lemma sorted_Permutation (l : list A) : sorted l key ≡ₚ l.
Proof. apply (sorted_from_Permutation l []). Qed.

Lemma sorted_StronglySorted (l : list A) : StronglySorted (by_key key) (sorted l key).
Proof. apply sorted_from_StronglySorted. constructor. Qed.

(** Elements with the same key keep the order they came in. *)
Lemma insert_sorted_after_equal (x : A) (l : list A) :
  Forall (λ y, tuple_lt (key x) (key y) = false) l →
  insert_sorted key x l = l ++ [x].
Proof.
  induction 1 as [|y l Hy _ IH]; simpl; [done|].
  by rewrite Hy, IH.
Qed.

End Sorted.

(** C5. [_sort_box_with_list] returns the entries it was given, rearranged
    so that every entry stands before all those after it in the order of
    the centers of the minimal rectangles: by (y, x) when
    [left_right_first] is [False], a smaller y first whatever the x and
    equal y by ascending x; by (x, y) when it is [True]. *)
Theorem sort_box_with_list_sorted (minAreaRect_center : list Q → Q * Q)
    (anno : list entry) (left_right_first : bool) :
  _sort_box_with_list minAreaRect_center anno left_right_first ≡ₚ anno
  ∧ StronglySorted
      (if left_right_first then left_to_right minAreaRect_center
       else top_to_bottom minAreaRect_center)
      (_sort_box_with_list minAreaRect_center anno left_right_first).
Proof.
  unfold _sort_box_with_list. split; [apply sorted_Permutation|].
  pose proof (sorted_StronglySorted
                (compare_key minAreaRect_center left_right_first) anno) as Hs.
  by destruct left_right_first.
Qed.

(** Two boxes whose centers (x, y) are (1, 5) and (2, 1), the center being
    read off the first point here: top to bottom the second one, with the
    smaller y, comes first; left to right the order is kept. *)
Example sort_box_centers_1_5_and_2_1 :
  let center (p : list Q) := (default 0%Q (p !! 0%nat), default 0%Q (p !! 1%nat)) in
  let a : entry := ([1; 5]%Q, str "a", 0%Z, false) in
  let b : entry := ([2; 1]%Q, str "b", 0%Z, false) in
  _sort_box_with_list center [a; b] false = [b; a]
  ∧ _sort_box_with_list center [a; b] true = [a; b].
Proof. by vm_compute. Qed.

End SortFacts.

(** ** dataset.py: the label converter *)

Module ConverterFacts.
Import Dataset PyFacts.

(** *** List comprehensions *)

Lemma comprehension_Ok {A B} (f : A → result B) (l : list A) (ys : list B) :
  comprehension f l = Ok ys ↔ Forall2 (λ x y, f x = Ok y) l ys.
Proof.
  revert ys. induction l as [|x l IH]; intros ys; simpl.
  - split; [by intros [= <-]; constructor | by inversion 1].
  - rewrite bind_Ok. split.
    + intros (y & Hx & (ys' & Hl & [= <-])%bind_Ok).
      constructor; [done|]. by apply IH.
    + inversion 1 as [|? y ? ys' Hx Hl]; subst.
      exists y. split; [done|]. apply bind_Ok.
      exists ys'. split; [by apply IH | done].
Qed.

Lemma comprehension_Ok_fmap {A B} (f : A → result B) (g : A → B) (l : list A) :
  Forall (λ x, f x = Ok (g x)) l → comprehension f l = Ok (g <$> l).
Proof.
  induction 1 as [|x l Hx _ IH]; simpl; [done|]. by rewrite Hx, IH.
Qed.

Lemma comprehension_Ok_length {A B} (f : A → result B) l ys :
  comprehension f l = Ok ys → length ys = length l.
Proof. rewrite comprehension_Ok. intros H. symmetry. by eapply Forall2_length. Qed.

(** A comprehension fails with the exception of one of its elements. *)
Lemma comprehension_Raise {A B} (f : A → result B) (l : list A) (e : exn) :
  comprehension f l = Raise e → ∃ x, x ∈ l ∧ f x = Raise e.
Proof.
  induction l as [|x l IH]; simpl; [done|].
  destruct (f x) as [y|e'] eqn:Hx; simpl.
  - destruct (comprehension f l) as [ys|e'']; simpl; [done|].
    intros [= ->]. destruct IH as (x' & Hin & Hx'); [done|].
    exists x'. split; [by right | done].
  - intros [= ->]. exists x. split; [by left | done].
Qed.

Lemma comprehension_total {A B} (f : A → result B) (l : list A) :
  Forall (λ x, ∃ y, f x = Ok y) l → ∃ ys, comprehension f l = Ok ys.
Proof.
  induction 1 as [|x l [y Hx] _ [ys IH]]; simpl; [by eexists|].
  rewrite Hx, IH. simpl. by eexists.
Qed.

(** *** The index table built by [__init__] *)

Section Table.

Implicit Types (l : list (list N)) (m : gmap (list N) Z) (k : list N).

Local Abbreviation table m j l :=
  (foldl (λ d (ic : Z * list N), <[ic.2 := ic.1]> d) m (enumerate_from j l)).

Lemma table_is_Some l m j k :
  is_Some (table m j l !! k) ↔ k ∈ l ∨ is_Some (m !! k).
Proof.
  revert m j. induction l as [|x l IH]; intros m j; simpl.
  - rewrite elem_of_nil. naive_solver.
  - rewrite IH, lookup_insert_is_Some, elem_of_cons.
    destruct (decide (x = k)); naive_solver.
Qed.

(** An index found in the table is the place of the key in the list. *)
Lemma table_Some l m j k i :
  table m j l !! k = Some i →
  ((j ≤ i)%Z ∧ l !! Z.to_nat (i - j) = Some k) ∨ m !! k = Some i.
Proof.
  revert m j. induction l as [|x l IH]; intros m j; simpl; [by right|].
  intros [[Hj Hl]|Hm]%IH.
  - left. split; [lia|].
    replace (Z.to_nat (i - j)) with (S (Z.to_nat (i - (j + 1)))) by lia.
    done.
  - apply lookup_insert_Some in Hm as [[-> ->]|[_ Hm]]; [|by right].
    left. split; [lia|]. by rewrite Z.sub_diag.
Qed.

End Table.

Section Converter.

Context (unicode_upper : N → list N).
Context (sl : Z) (lexicon : option (list (list N))) (loss : list N).

Local Abbreviation cv := (__init__ sl lexicon loss).

Lemma char2idx_is_Some (k : list N) :
  is_Some (char2idx cv !! k) ↔ k ∈ idx2char cv.
Proof.
  unfold __init__, enumerate. cbn [char2idx idx2char].
  rewrite table_is_Some, lookup_empty, is_Some_alt. naive_solver.
Qed.

Lemma dict_getitem_char2idx_Ok (k : list N) :
  k ∈ idx2char cv → ∃ i, dict_getitem (char2idx cv) k = Ok i.
Proof.
  intros [i Hi]%char2idx_is_Some. unfold dict_getitem. rewrite Hi. eauto.
Qed.

Lemma dict_getitem_char2idx_Raise (k : list N) (e : exn) :
  dict_getitem (char2idx cv) k = Raise e ↔ e = KeyError ∧ k ∉ idx2char cv.
Proof.
  rewrite <- char2idx_is_Some. unfold dict_getitem.
  destruct (char2idx cv !! k) as [i|] eqn:Hk.
  - split; [done|]. intros [_ []]. eauto.
  - split; [intros [= <-] | by intros [-> _]].
    split; [done|]. by intros [? [=]].
Qed.

(** Looking an index of the table up in [idx2char] gives the key back. *)
Lemma list_getitem_char2idx (k : list N) (i : Z) :
  dict_getitem (char2idx cv) k = Ok i → list_getitem (idx2char cv) i = Ok k.
Proof.
  unfold dict_getitem.
  destruct (char2idx cv !! k) as [i'|] eqn:Hk; [|done]. intros [= ->].
  unfold __init__, enumerate in Hk. cbn [char2idx] in Hk.
  apply table_Some in Hk as [[Hi Hk]|Hk]; [|by rewrite lookup_empty in Hk].
  rewrite Z.sub_0_r in Hk.
  unfold list_getitem. cbn [idx2char].
  destruct (Z.ltb_spec i 0); [lia|]. cbn zeta.
  destruct (Z.ltb_spec i 0); [lia|].
  change (idx2char cv) with (tokens ++ default Lexicon_Table_95 lexicon).
  by rewrite Hk.
Qed.

Lemma token_in_idx2char (t : list N) : t ∈ tokens → t ∈ idx2char cv.
Proof. intros Ht. cbn [idx2char __init__]. apply elem_of_app. by left. Qed.

Lemma keys_in_idx2char (text : list N) (ignore_tag : bool) :
  Forall (λ k, k ∈ idx2char cv) (keys unicode_upper text ignore_tag)
  ↔ ignore_tag = true
    ∨ Forall (λ c, [c] ∈ idx2char cv) (upper unicode_upper text).
Proof.
  unfold keys. rewrite Forall_app, Forall_singleton. unfold chars.
  rewrite Forall_fmap.
  assert (str "[STOP]" ∈ idx2char cv)
    by (apply token_in_idx2char; set_solver).
  destruct ignore_tag; simpl; [split; [by left | by split]|].
  split; [intros [? _]; by right | intros [[=]|?]; by split].
Qed.

Lemma encode_Ok_iff (text : list N) (ignore_tag : bool) :
  (∃ r, encode unicode_upper cv text ignore_tag = Ok r)
  ↔ Forall (λ k, k ∈ idx2char cv) (keys unicode_upper text ignore_tag).
Proof.
  unfold encode. fold (keys unicode_upper text ignore_tag).
  destruct (dict_getitem_char2idx_Ok (str "[PAD]")) as [pad Hpad];
    [apply token_in_idx2char; set_solver|].
  split.
  - intros [r Hr].
    apply bind_Ok in Hr as (text_idx & Hidx & _).
    apply comprehension_Ok in Hidx.
    apply Forall_forall. intros k Hk.
    apply list_elem_of_lookup in Hk as [n Hn].
    destruct (Forall2_lookup_l _ _ _ _ _ Hidx Hn) as (i & _ & Hi).
    apply char2idx_is_Some. unfold dict_getitem in Hi.
    by destruct (char2idx cv !! k).
  - intros Hkeys.
    destruct (comprehension_total (dict_getitem (char2idx cv))
                (keys unicode_upper text ignore_tag)) as [text_idx ->].
    { eapply Forall_impl; [exact Hkeys|].
      intros k Hk. by apply dict_getitem_char2idx_Ok. }
    cbn [bind]. rewrite Hpad. cbn [bind].
    destruct (_ >? _)%Z; eauto.
Qed.

Lemma encode_Raise (text : list N) (ignore_tag : bool) (e : exn) :
  encode unicode_upper cv text ignore_tag = Raise e →
  e = KeyError ∧ ∃ k, k ∈ keys unicode_upper text ignore_tag ∧ k ∉ idx2char cv.
Proof.
  unfold encode. fold (keys unicode_upper text ignore_tag).
  destruct (dict_getitem_char2idx_Ok (str "[PAD]")) as [pad Hpad];
    [apply token_in_idx2char; set_solver|].
  destruct (comprehension (dict_getitem (char2idx cv)) (keys unicode_upper text ignore_tag))
    as [text_idx|e'] eqn:Hidx; cbn [bind].
  - rewrite Hpad. cbn [bind]. by destruct (_ >? _)%Z.
  - intros [= ->].
    apply comprehension_Raise in Hidx as (k & Hk & Hraise).
    apply dict_getitem_char2idx_Raise in Hraise as [-> Hnot]. eauto.
Qed.

End Converter.

(** *** The lexicon and [upper] *)

Lemma Lexicon_Table_95_codes :
  Lexicon_Table_95 = chars ((N.of_nat <$> seq 33 94) ++ [32%N]).
Proof. by vm_compute. Qed.

(** The 95 characters are the printable ASCII range. *)
Lemma in_lexicon_range (c : N) :
  [c] ∈ Lexicon_Table_95 ↔ (32 ≤ c ≤ 126)%N.
Proof.
  rewrite Lexicon_Table_95_codes. unfold chars.
  rewrite list_elem_of_fmap. split.
  - intros (y & Heq & Hy). injection Heq as ->.
    apply elem_of_app in Hy as [Hy|Hy].
    + apply list_elem_of_fmap in Hy as (n & -> & Hn%elem_of_seq). lia.
    + apply list_elem_of_singleton in Hy as ->. lia.
  - intros Hc. exists c. split; [done|]. apply elem_of_app.
    destruct (decide (c = 32%N)) as [->|]; [right; by left|].
    left. apply list_elem_of_fmap. exists (N.to_nat c).
    split; [lia|]. apply elem_of_seq. lia.
Qed.

Section Upper.

Context (unicode_upper : N → list N).

Lemma upper_char_ascii (c : N) :
  (c < 128)%N → upper_char unicode_upper c = [ascii_upper c].
Proof.
  intros Hc. unfold upper_char, ascii_upper.
  destruct ((97 <=? c) && (c <=? 122))%N; [done|].
  by destruct (N.ltb_spec c 128); [|lia].
Qed.

Lemma ascii_upper_lexicon (c : N) :
  [c] ∈ Lexicon_Table_95 → [ascii_upper c] ∈ Lexicon_Table_95.
Proof.
  rewrite !in_lexicon_range. unfold ascii_upper.
  destruct (N.leb_spec 97 c), (N.leb_spec c 122); simpl; lia.
Qed.

Lemma upper_lexicon (text : list N) :
  Forall (λ c, [c] ∈ Lexicon_Table_95) text →
  upper unicode_upper text = ascii_upper <$> text.
Proof.
  unfold upper. induction 1 as [|c text Hc _ IH]; [done|].
  cbn [mbind list_bind fmap list_fmap]. rewrite IH.
  rewrite upper_char_ascii; [done|].
  apply in_lexicon_range in Hc. lia.
Qed.

Lemma upper_in_lexicon (text : list N) :
  Forall (λ c, [c] ∈ Lexicon_Table_95) text →
  Forall (λ c, [c] ∈ Lexicon_Table_95) (upper unicode_upper text).
Proof.
  intros Htext. rewrite upper_lexicon by done.
  apply Forall_fmap. eapply Forall_impl; [exact Htext|].
  apply ascii_upper_lexicon.
Qed.

End Upper.

(** *** Encoding *)

Lemma pad_index (sl : Z) (loss : list N) :
  dict_getitem (char2idx (__init__ sl None loss)) (str "[PAD]") = Ok 0%Z.
Proof. by vm_compute. Qed.

Lemma stop_index (sl : Z) (loss : list N) :
  dict_getitem (char2idx (__init__ sl None loss)) (str "[STOP]") = Ok 1%Z.
Proof. by vm_compute. Qed.

Lemma lexicon_in_idx2char (sl : Z) (loss : list N) (k : list N) :
  k ∈ Lexicon_Table_95 → k ∈ idx2char (__init__ sl None loss).
Proof. intros Hk. cbn [idx2char __init__]. apply elem_of_app. by right. Qed.

(** A single character of the 97-symbol alphabet is one of the 95: the two
    tokens are longer than one character. *)
Lemma char_in_idx2char (sl : Z) (loss : list N) (c : N) :
  [c] ∈ idx2char (__init__ sl None loss) ↔ [c] ∈ Lexicon_Table_95.
Proof.
  split; [|apply lexicon_in_idx2char].
  cbn [idx2char __init__]. intros [Ht|Hl]%elem_of_app; [|done].
  unfold tokens in Ht. rewrite !elem_of_cons, elem_of_nil in Ht.
  by destruct Ht as [|[|]].
Qed.

(** C6. With the default lexicon, [encode] fails with [KeyError] if and
    only if [ignore_tag] is not set and the uppercased transcript has a
    character outside the 97 symbols of the alphabet (the two tokens and
    the 95 characters). No other failure occurs; with [ignore_tag] set the
    transcript counts as empty and the call returns. *)
Theorem encode_KeyError_iff (unicode_upper : N → list N) (seq_len : Z)
    (recg_loss : list N) (text : list N) (ignore_tag : bool) :
  (encode unicode_upper (__init__ seq_len None recg_loss) text ignore_tag
   = Raise KeyError
   ↔ ignore_tag = false
     ∧ Exists (λ c, [c] ∉ idx2char (__init__ seq_len None recg_loss))
         (upper unicode_upper text))
  ∧ (∀ e, encode unicode_upper (__init__ seq_len None recg_loss) text
            ignore_tag = Raise e → e = KeyError)
  ∧ (ignore_tag = true →
     encode unicode_upper (__init__ seq_len None recg_loss) text ignore_tag
     = encode unicode_upper (__init__ seq_len None recg_loss) [] false
     ∧ ∃ r, encode unicode_upper (__init__ seq_len None recg_loss) text
              ignore_tag = Ok r)
  ∧ idx2char (__init__ seq_len None recg_loss)
    = [str "[PAD]"; str "[STOP]"] ++ Lexicon_Table_95
  ∧ length (idx2char (__init__ seq_len None recg_loss)) = 97%nat.
Proof.
  split; [|split; [|split; [|by split]]].
  - split.
    + intros (_ & k & Hk & Hnot)%encode_Raise.
      unfold keys in Hk.
      apply elem_of_app in Hk as [Hk|Hk]; cycle 1.
      { apply list_elem_of_singleton in Hk as ->.
        destruct Hnot. apply token_in_idx2char. set_solver. }
      apply list_elem_of_fmap in Hk as (c & -> & Hc).
      destruct ignore_tag; [by apply elem_of_nil in Hc|].
      split; [done|]. apply Exists_exists. eauto.
    + intros [-> (c & Hc & Hnot)%Exists_exists].
      destruct (encode unicode_upper (__init__ seq_len None recg_loss)
                  text false) as [r|e] eqn:Henc.
      * exfalso.
        assert (Hok : ∃ r, encode unicode_upper
                             (__init__ seq_len None recg_loss) text false
                           = Ok r) by eauto.
        apply encode_Ok_iff, keys_in_idx2char in Hok as [[=]|Hall].
        rewrite Forall_forall in Hall. by apply Hnot, Hall.
      * by apply encode_Raise in Henc as [-> _].
  - by intros e [-> _]%encode_Raise.
  - intros ->. split; [done|].
    apply encode_Ok_iff, keys_in_idx2char. by left.
Qed.

Lemma encode_KeyError_iff_witness :
  encode (λ c, [c]) (__init__ 50 None (str "CE")) (str "caf" ++ [233%N]) false
  = Raise KeyError
  ∧ ∃ r, encode (λ c, [c]) (__init__ 50 None (str "CE"))
           (str "caf" ++ [233%N]) true = Ok r.
Proof.
  split.
  - apply (encode_KeyError_iff (λ c, [c]) 50 (str "CE")
             (str "caf" ++ [233%N]) false).
    split; [reflexivity|].
    apply (bool_decide_unpack _). by vm_compute.
  - apply (encode_KeyError_iff (λ c, [c]) 50 (str "CE")
             (str "caf" ++ [233%N]) true).
    reflexivity.
Defined.

Section Encode.

Context (unicode_upper : N → list N) (n : nat) (loss : list N).

Local Abbreviation cv := (__init__ (Z.of_nat n) None loss).

(** What [encode] returns once every key has been found. *)
Lemma encode_Ok_shape (text : list N) (ignore_tag : bool) (raw : list Z) :
  comprehension (dict_getitem (char2idx cv)) (keys unicode_upper text ignore_tag)
  = Ok raw →
  encode unicode_upper cv text ignore_tag
  = Ok (if decide (n < length raw) then take n raw
        else raw ++ replicate (n - length raw) 0%Z, raw).
Proof.
  intros Hraw. unfold encode. fold (keys unicode_upper text ignore_tag).
  rewrite Hraw. cbn [bind]. rewrite pad_index. cbn [bind seq_len __init__].
  apply comprehension_Ok_length in Hraw. rewrite <- Hraw.
  destruct (Z.gtb_spec (Z.of_nat (length raw)) (Z.of_nat n)).
  - rewrite decide_True by lia. by rewrite slice_to_nonneg.
  - rewrite decide_False by lia.
    rewrite slice_to_assign_nonneg. unfold list_mul.
    by rewrite Nat2Z.id, drop_replicate.
Qed.

Lemma length_keys_lexicon (text : list N) (ignore_tag : bool) :
  Forall (λ c, [c] ∈ Lexicon_Table_95) text →
  length (keys unicode_upper text ignore_tag)
  = S (length (if ignore_tag then [] else text)).
Proof.
  intros Htext. unfold keys, chars.
  rewrite length_app, length_fmap. simpl.
  destruct ignore_tag; [done|].
  rewrite upper_lexicon, length_fmap by done. lia.
Qed.

(** An index found for a key is the place of the key in [idx2char]. *)
Lemma char2idx_position (k : list N) (i : Z) :
  dict_getitem (char2idx cv) k = Ok i →
  (0 ≤ i)%Z ∧ idx2char cv !! Z.to_nat i = Some k.
Proof.
  unfold dict_getitem.
  destruct (char2idx cv !! k) as [i'|] eqn:Hk; [|done]. intros [= ->].
  unfold __init__, enumerate in Hk. cbn [char2idx] in Hk.
  apply table_Some in Hk as [[Hi Hk]|Hk]; [|by rewrite lookup_empty in Hk].
  by rewrite Z.sub_0_r in Hk.
Qed.

(** The raw sequence: for each character of the transcript the place of
    its uppercase in [idx2char], then the place of the stop token. *)
Lemma raw_indices (text : list N) (ignore_tag : bool) (raw : list Z) :
  Forall (λ c, [c] ∈ Lexicon_Table_95) text →
  comprehension (dict_getitem (char2idx cv)) (keys unicode_upper text ignore_tag)
  = Ok raw →
  ∃ idx, raw = idx ++ [1%Z]
         ∧ Forall2 (λ c i, (0 ≤ i)%Z
                           ∧ idx2char cv !! Z.to_nat i = Some [ascii_upper c])
             (if ignore_tag then [] else text) idx.
Proof.
  intros Htext. rewrite comprehension_Ok. unfold keys.
  intros (idx & s & Hidx & Hs & ->)%Forall2_app_inv_l.
  apply Forall2_cons_inv_l in Hs as (i & r & Hi & ->%Forall2_nil_inv_l & ->).
  rewrite stop_index in Hi. injection Hi as <-.
  exists idx. split; [done|].
  assert (Hup : upper unicode_upper (if ignore_tag then [] else text)
                = ascii_upper <$> (if ignore_tag then [] else text)).
  { destruct ignore_tag; [done | by apply upper_lexicon]. }
  rewrite Hup in Hidx. unfold chars in Hidx.
  rewrite !Forall2_fmap_l in Hidx.
  eapply Forall2_impl; [exact Hidx|].
  intros c i. apply char2idx_position.
Qed.

End Encode.

(** C2. For a transcript of the 95 characters, either value of
    [ignore_tag] and every size [seq_len], [encode] returns, and the padded
    sequence has exactly [seq_len] elements: the indices of the transcript
    and of the stop token cut to [seq_len] when there are more of them,
    else followed by the pad index up to [seq_len].  The indices are, for
    each character of the transcript (none when [ignore_tag] is set), the
    place of its uppercase in the alphabet [idx2char], then 1, the place
    of the stop token; the pad index 0 is the place of the pad token. *)
Theorem encode_length (unicode_upper : N → list N) (seq_len : nat)
    (recg_loss : list N) (text : list N) (ignore_tag : bool) :
  Forall (λ c, [c] ∈ Lexicon_Table_95) text →
  ∃ padded raw idx,
    encode unicode_upper (__init__ (Z.of_nat seq_len) None recg_loss) text
      ignore_tag = Ok (padded, raw)
    ∧ length padded = seq_len
    ∧ length raw = S (length (if ignore_tag then [] else text))
    ∧ (seq_len < length raw → padded = take seq_len raw)
    ∧ (length raw ≤ seq_len →
       padded = raw ++ replicate (seq_len - length raw) 0%Z)
    ∧ raw = idx ++ [1%Z]
    ∧ Forall2
        (λ c i, (0 ≤ i)%Z
                ∧ idx2char (__init__ (Z.of_nat seq_len) None recg_loss)
                    !! Z.to_nat i = Some [ascii_upper c])
        (if ignore_tag then [] else text) idx
    ∧ idx2char (__init__ (Z.of_nat seq_len) None recg_loss) !! 1%nat
      = Some (str "[STOP]")
    ∧ idx2char (__init__ (Z.of_nat seq_len) None recg_loss) !! 0%nat
      = Some (str "[PAD]").
Proof.
  intros Htext.
  destruct (comprehension_total
              (dict_getitem (char2idx (__init__ (Z.of_nat seq_len) None
                                         recg_loss)))
              (keys unicode_upper text ignore_tag)) as [raw Hraw].
  { eapply Forall_impl; [|intros k; apply dict_getitem_char2idx_Ok].
    apply keys_in_idx2char.
    destruct ignore_tag; [by left | right].
    eapply Forall_impl; [by apply upper_in_lexicon|].
    intros c. apply lexicon_in_idx2char. }
  destruct (raw_indices unicode_upper seq_len recg_loss text ignore_tag raw
              Htext Hraw) as (idx & Hidx & Hplaces).
  eexists _, raw, idx. split; [by apply encode_Ok_shape|].
  pose proof (comprehension_Ok_length _ _ _ Hraw) as Hlen.
  rewrite length_keys_lexicon in Hlen by done.
  assert (Hshape :
    length (if decide (seq_len < length raw) then take seq_len raw
            else raw ++ replicate (seq_len - length raw) 0%Z) = seq_len
    ∧ (seq_len < length raw →
       (if decide (seq_len < length raw) then take seq_len raw
        else raw ++ replicate (seq_len - length raw) 0%Z)
       = take seq_len raw)
    ∧ (length raw ≤ seq_len →
       (if decide (seq_len < length raw) then take seq_len raw
        else raw ++ replicate (seq_len - length raw) 0%Z)
       = raw ++ replicate (seq_len - length raw) 0%Z)).
  { destruct (decide (seq_len < length raw)) as [Hlt|Hge].
    - rewrite length_take. split; [lia|]. split; [done | intros; lia].
    - rewrite length_app, length_replicate.
      split; [lia|]. split; [intros; lia | done]. }
  destruct Hshape as (Hn & Hcut & Hpad).
  split; [exact Hn|]. split; [exact Hlen|]. split; [exact Hcut|].
  split; [exact Hpad|]. split; [exact Hidx|]. split; [exact Hplaces|].
  split; reflexivity.
Qed.

Lemma encode_length_witness :
  Forall (λ c, [c] ∈ Lexicon_Table_95) (str "Invoice no. 12")
  ∧ ∃ padded raw idx,
      encode (λ c, [c]) (__init__ (Z.of_nat 8) None (str "CE"))
        (str "Invoice no. 12") false = Ok (padded, raw)
      ∧ length padded = 8%nat
      ∧ padded = take 8 raw
      ∧ raw = idx ++ [1%Z]
      ∧ Forall2
          (λ c i, (0 ≤ i)%Z
                  ∧ idx2char (__init__ (Z.of_nat 8) None (str "CE"))
                      !! Z.to_nat i = Some [ascii_upper c])
          (str "Invoice no. 12") idx.
Proof.
  assert (Htext : Forall (λ c, [c] ∈ Lexicon_Table_95) (str "Invoice no. 12")).
  { apply (bool_decide_unpack _). by vm_compute. }
  split; [exact Htext|].
  destruct (encode_length (λ c, [c]) 8 (str "CE") (str "Invoice no. 12")
              false Htext)
    as (padded & raw & idx & Henc & Hlen & Hraw & Hcut & _ & Hidx & Hpl & _).
  exists padded, raw, idx. split; [exact Henc|]. split; [exact Hlen|].
  split; [|split; assumption].
  apply Hcut. rewrite Hraw. simpl. lia.
Defined.

(** *** Decoding, CTC branch *)

Lemma collapse_cons (x : Z) (l : list Z) :
  collapse (x :: l) = x :: changes (Some x) l.
Proof.
  revert x. induction l as [|y l IH]; intros x; [done|].
  change (collapse (x :: y :: l))
    with (if (x =? y)%Z then collapse (y :: l) else x :: collapse (y :: l)).
  rewrite IH. cbn [changes].
  destruct (Z.eqb_spec x y) as [->|Hne].
  - by rewrite decide_True.
  - rewrite decide_False by congruence. done.
Qed.

Lemma collapse_changes (l : list Z) : collapse l = changes None l.
Proof.
  destruct l as [|x l]; [done|].
  rewrite collapse_cons. cbn [changes]. by rewrite decide_False.
Qed.

Lemma no_adjacent_repeats_changes (x : Z) (l : list Z) :
  no_adjacent_repeats (x :: changes (Some x) l).
Proof.
  revert x. induction l as [|y l IH]; intros x; [done|].
  cbn [changes]. destruct (decide (Some x = Some y)) as [[= ->]|Hne].
  - apply IH.
  - change (x ≠ y ∧ no_adjacent_repeats (y :: changes (Some y) l)).
    split; [congruence | apply IH].
Qed.

Lemma no_adjacent_repeats_collapse (l : list Z) :
  no_adjacent_repeats (collapse l).
Proof.
  destruct l as [|x l]; [done|].
  rewrite collapse_cons. apply no_adjacent_repeats_changes.
Qed.

(** The element before position [length pre] is the last of [pre]. *)
Lemma list_getitem_before (pre : list Z) (p : Z) (rest : list Z) :
  list_getitem ((pre ++ [p]) ++ rest) (Z.of_nat (length (pre ++ [p])) - 1)
  = Ok p.
Proof.
  unfold list_getitem. rewrite length_app. simpl.
  destruct (Z.ltb_spec (Z.of_nat (length pre + 1) - 1) 0); [lia|]. simpl.
  destruct (Z.ltb_spec (Z.of_nat (length pre + 1) - 1) 0); [lia|].
  replace (Z.to_nat (Z.of_nat (length pre + 1) - 1)) with (length pre) by lia.
  rewrite <- app_assoc. cbn [app].
  by rewrite list_lookup_middle.
Qed.

(** The loop, started after [pre] with [acc] collected so far. *)
Lemma ctc_loop_from (l pre rest acc : list Z) :
  l = pre ++ rest →
  foldl (ctc_step l) (Ok acc) (enumerate_from (Z.of_nat (length pre)) rest)
  = Ok (acc ++ drop_blanks (changes (last pre) rest)).
Proof.
  revert pre acc. induction rest as [|t rest IH]; intros pre acc Hl.
  - simpl. unfold drop_blanks. by rewrite filter_nil, app_nil_r.
  - cbn [enumerate_from foldl].
    assert (Hstep : ctc_step l (Ok acc) (Z.of_nat (length pre), t)
                    = Ok (acc ++ drop_blanks
                                   (if decide (last pre = Some t) then []
                                    else [t]))).
    { unfold ctc_step, drop_blanks. cbn [bind].
      destruct (Z.eqb_spec t 0) as [->|Ht]; cbn [negb].
      - destruct (decide (last pre = Some 0%Z));
          by rewrite ?filter_cons_False, ?filter_nil, app_nil_r by naive_solver.
      - destruct pre as [|p pre _] using rev_ind.
        + simpl. by rewrite filter_cons_True, filter_nil.
        + rewrite Hl, list_getitem_before, last_snoc. cbn [bind].
          destruct (Z.eqb_spec (Z.of_nat (length (pre ++ [p]))) 0) as [He|_];
            [rewrite length_app in He; simpl in He; lia|].
          destruct (Z.eqb_spec t p) as [->|Hne]; cbn [negb].
          * rewrite decide_True by done. by rewrite filter_nil, app_nil_r.
          * rewrite decide_False by congruence.
            by rewrite filter_cons_True, filter_nil. }
    rewrite Hstep.
    replace (Z.of_nat (length pre) + 1)%Z
      with (Z.of_nat (length (pre ++ [t])))
      by (rewrite length_app; simpl; lia).
    rewrite IH by (by rewrite <- app_assoc).
    rewrite last_snoc. cbn [changes]. unfold drop_blanks.
    by rewrite filter_app, app_assoc.
Qed.

Lemma ctc_loop_two_phase (l : list Z) :
  ctc_loop l = Ok (drop_blanks (collapse l)).
Proof.
  unfold ctc_loop, enumerate. rewrite collapse_changes.
  exact (ctc_loop_from l [] l [] eq_refl).
Qed.

(** *** Decoding, CE branch, after encoding *)

Lemma find_from_find_opt (i : Z) (s sub : list N) :
  find_from i s sub
  = match find_opt s sub with
    | Some k => (i + Z.of_nat k)%Z
    | None => (-1)%Z
    end.
Proof.
  revert i. induction s as [|c s IH]; intros i; cbn [find_from find_opt].
  - destruct (startswith [] sub); [lia | done].
  - destruct (startswith (c :: s) sub); [lia|].
    rewrite IH. destruct (find_opt s sub); simpl; [lia | done].
Qed.

Lemma find_opt_le (s sub : list N) (k : nat) :
  find_opt s sub = Some k → k ≤ length s.
Proof.
  revert k. induction s as [|c s IH]; intros k; cbn [find_opt].
  - destruct (startswith [] sub); [|done]. intros [= <-]. simpl. lia.
  - destruct (startswith (c :: s) sub); [intros [= <-]; simpl; lia|].
    destruct (find_opt s sub) as [k'|]; [|done].
    intros [= <-]. specialize (IH k' eq_refl). simpl. lia.
Qed.

Lemma cut_at_stop_find_opt (s : list N) :
  cut_at_stop s
  = match find_opt s (str "[STOP]") with
    | Some k => take k s
    | None => s
    end.
Proof.
  unfold cut_at_stop, find. rewrite find_from_find_opt.
  destruct (find_opt s (str "[STOP]")) as [k|]; [|done].
  rewrite Z.add_0_l.
  destruct (Z.eqb_spec (Z.of_nat k) (-1)); [lia|].
  apply slice_to_nonneg.
Qed.

Lemma str_stop : str "[STOP]" = [91; 83; 84; 79; 80; 93]%N.
Proof. by vm_compute. Qed.

Lemma startswith_nil (s : list N) : startswith s [] = true.
Proof. by destruct s. Qed.

(** *** The CTC branch against its description *)

(** Python's indexing, from either end, is the place in the alphabet. *)
Lemma list_getitem_char_of_index (alphabet : list (list N)) (i : Z) :
  list_getitem alphabet i
  = match char_of_index alphabet i with
    | Some c => Ok c
    | None => Raise IndexError
    end.
Proof.
  unfold list_getitem, char_of_index.
  destruct (Z.ltb_spec i 0) as [Hneg|Hpos].
  - destruct (Z.leb_spec 0 i); [lia|]. cbv zeta.
    destruct (Z.ltb_spec (i + Z.of_nat (length alphabet)) 0) as [Hout|Hin].
    + rewrite (lookup_ge_None_2 (reverse alphabet)); [done|].
      rewrite length_reverse. lia.
    + rewrite reverse_lookup by lia.
      replace (length alphabet - S (Z.to_nat (- i - 1)))
        with (Z.to_nat (i + Z.of_nat (length alphabet))) by lia.
      done.
  - destruct (Z.leb_spec 0 i); [|lia]. cbv zeta.
    by destruct (Z.ltb_spec i 0); [lia|].
Qed.

Lemma comprehension_mapM (alphabet : list (list N)) (l : list Z) :
  comprehension (list_getitem alphabet) l
  = match mapM (char_of_index alphabet) l with
    | Some symbols => Ok symbols
    | None => Raise IndexError
    end.
Proof.
  induction l as [|i l IH]; [done|].
  cbn [comprehension mapM]. rewrite list_getitem_char_of_index, IH.
  destruct (char_of_index alphabet i) as [c|]; [|done]. cbn.
  by destruct (mapM (char_of_index alphabet) l).
Qed.

Lemma startswith_prefix (s sub : list N) :
  startswith s sub = bool_decide (sub `prefix_of` s).
Proof.
  revert s. induction sub as [|b sub IH]; intros s.
  - rewrite startswith_nil. symmetry. apply bool_decide_eq_true_2.
    apply prefix_nil.
  - destruct s as [|a s]; cbn [startswith].
    + symmetry. apply bool_decide_eq_false_2. apply prefix_nil_not.
    + destruct (N.eqb_spec a b) as [->|Hne]; cbn [andb].
      * rewrite IH. apply bool_decide_ext. split.
        -- apply prefix_cons.
        -- apply prefix_cons_inv_2.
      * symmetry. apply bool_decide_eq_false_2.
        intros Hp%prefix_cons_inv_1. congruence.
Qed.

(** Searching the stop token and slicing up to it is cutting where it is
    first read. *)
Lemma cut_at_stop_before_stop (s : list N) : cut_at_stop s = before_stop s.
Proof.
  rewrite cut_at_stop_find_opt.
  induction s as [|c s IH]; [by vm_compute|].
  cbn [find_opt before_stop]. rewrite <- startswith_prefix.
  destruct (startswith (c :: s) (str "[STOP]")); [done|].
  rewrite <- IH. by destruct (find_opt s (str "[STOP]")).
Qed.

(** C3. With [recg_loss = 'CTC'], [decode] is the computation in two
    phases: runs of equal consecutive indices are collapsed to one
    occurrence and the blanks (index 0) dropped, the collapsed sequence
    having no two equal neighbours; each surviving index is mapped to the
    symbol at its place in the alphabet, the symbols are written one after
    the other, and the text is cut where the stop token is first read.
    The two fail together, with [IndexError], on an index that is no
    place of the alphabet. *)
Theorem decode_CTC_two_phase (self : LabelConverter) (text_idx : list Z) :
  recg_loss self = str "CTC" →
  decode self text_idx = decode_ctc_two_phase self text_idx
  ∧ no_adjacent_repeats (collapse text_idx).
Proof.
  intros Hloss. split; [|apply no_adjacent_repeats_collapse].
  unfold decode, decode_ctc_two_phase. rewrite Hloss.
  rewrite bool_decide_eq_false_2 by done.
  rewrite bool_decide_eq_true_2 by done.
  rewrite ctc_loop_two_phase. cbn [bind]. rewrite comprehension_mapM.
  destruct (mapM _ _) as [symbols|]; cbn [bind]; [|done].
  by rewrite cut_at_stop_before_stop.
Qed.

Lemma decode_CTC_two_phase_witness :
  recg_loss (__init__ 50 None (str "CTC")) = str "CTC"
  ∧ decode (__init__ 50 None (str "CTC")) [5; 5; 0; 5; 6; 6; 1; 7]%Z
    = Ok (str "$$%")
  ∧ decode (__init__ 50 None (str "CTC")) [5; 5; 97]%Z = Raise IndexError.
Proof.
  split; [reflexivity|]. split.
  - etrans.
    + apply (decode_CTC_two_phase (__init__ 50 None (str "CTC"))
               [5; 5; 0; 5; 6; 6; 1; 7]%Z).
      reflexivity.
    + vm_compute. reflexivity.
  - etrans.
    + apply (decode_CTC_two_phase (__init__ 50 None (str "CTC"))
               [5; 5; 97]%Z).
      reflexivity.
    + vm_compute. reflexivity.
Defined.

(** The stop token opens with a bracket that occurs nowhere else in it, so
    no occurrence straddles the end of the text before it. *)
Lemma startswith_stop_app (up rest : list N) :
  startswith (up ++ str "[STOP]" ++ rest) (str "[STOP]")
  = startswith up (str "[STOP]") || bool_decide (up = []).
Proof.
  rewrite str_stop.
  destruct up as [|c1 [|c2 [|c3 [|c4 [|c5 [|c6 up]]]]]];
    cbn [app startswith bool_decide decide_rel];
    repeat (match goal with
            | |- context [(?c =? ?k)%N] =>
                is_var c; destruct (c =? k)%N; cbn [andb orb]
            end);
    rewrite ?startswith_nil; done.
Qed.

Lemma find_opt_stop_app (up rest : list N) :
  find_opt (up ++ str "[STOP]" ++ rest) (str "[STOP]")
  = Some (default (length up) (find_opt up (str "[STOP]"))).
Proof.
  induction up as [|c up IH].
  - rewrite str_stop. cbn. by rewrite ?startswith_nil.
  - change ((c :: up) ++ str "[STOP]" ++ rest)
      with (c :: (up ++ str "[STOP]" ++ rest)).
    cbn [find_opt].
    change (c :: (up ++ str "[STOP]" ++ rest))
      with ((c :: up) ++ str "[STOP]" ++ rest).
    rewrite startswith_stop_app, bool_decide_eq_false_2, orb_false_r by done.
    destruct (startswith (c :: up) (str "[STOP]")); [done|].
    rewrite IH. simpl. by destruct (find_opt up (str "[STOP]")).
Qed.

(** What follows the first stop token does not matter. *)
Lemma cut_at_stop_app (up rest : list N) :
  cut_at_stop (up ++ str "[STOP]" ++ rest) = cut_at_stop up.
Proof.
  rewrite !cut_at_stop_find_opt, find_opt_stop_app.
  destruct (find_opt up (str "[STOP]")) as [k|] eqn:Hk; simpl.
  - apply take_app_le. by eapply find_opt_le.
  - apply take_app_length.
Qed.

Lemma join_chars (s : list N) : join (chars s) = s.
Proof.
  unfold join, chars. induction s as [|c s IH]; [done|].
  cbn [fmap list_fmap concat app]. by f_equal.
Qed.

Lemma decode_CE (self : LabelConverter) (text_idx : list Z)
    (cs : list (list N)) :
  recg_loss self = str "CE" →
  comprehension (list_getitem (idx2char self)) text_idx = Ok cs →
  decode self text_idx = Ok (cut_at_stop (join cs)).
Proof.
  intros Hloss Hcs. unfold decode. rewrite Hloss.
  rewrite bool_decide_eq_true_2 by done. by rewrite Hcs.
Qed.

Section RoundTrip.

Context (unicode_upper : N → list N) (n : nat).

Local Abbreviation cv := (__init__ (Z.of_nat n) None (str "CE")).

Lemma keys_found (loss : list N) (text : list N) (ignore_tag : bool) :
  Forall (λ c, [c] ∈ Lexicon_Table_95) text →
  ∃ raw,
    comprehension (dict_getitem (char2idx (__init__ (Z.of_nat n) None loss)))
      (keys unicode_upper text ignore_tag) = Ok raw.
Proof.
  intros Htext. apply comprehension_total.
  eapply Forall_impl; [|intros k; apply dict_getitem_char2idx_Ok].
  apply keys_in_idx2char.
  destruct ignore_tag; [by left | right].
  eapply Forall_impl; [by apply upper_in_lexicon|].
  intros c. apply lexicon_in_idx2char.
Qed.

(** Decoding the indices found for some keys gives the keys back. *)
Lemma comprehension_back (ks : list (list N)) (raw : list Z) :
  comprehension (dict_getitem (char2idx cv)) ks = Ok raw →
  Forall2 (λ i k, list_getitem (idx2char cv) i = Ok k) raw ks.
Proof.
  rewrite comprehension_Ok. intros Hraw. apply Forall2_flip.
  eapply Forall2_impl; [exact Hraw|].
  intros k i. apply list_getitem_char2idx.
Qed.

Lemma decode_encode_general (text : list N) :
  Forall (λ c, [c] ∈ Lexicon_Table_95) text →
  ∃ padded raw,
    encode unicode_upper cv text false = Ok (padded, raw)
    ∧ decode cv padded
      = Ok (cut_at_stop (take n (upper unicode_upper text))).
Proof.
  intros Htext.
  destruct (keys_found (str "CE") text false Htext) as [raw Hraw].
  eexists _, raw. split; [by apply encode_Ok_shape|].
  pose proof (comprehension_Ok_length _ _ _ Hraw) as Hlen.
  pose proof (comprehension_back _ _ Hraw) as Hback.
  unfold keys in Hlen, Hback. unfold chars in Hlen.
  rewrite length_app, length_fmap in Hlen. simpl in Hlen.
  destruct (decide (n < length raw)) as [Hlt|Hge].
  - rewrite (decode_CE _ _
               (take n (chars (upper unicode_upper text) ++ [str "[STOP]"])));
      [|done|by apply comprehension_Ok, Forall2_take].
    rewrite take_app_le by (unfold chars; rewrite length_fmap; lia).
    unfold chars. by rewrite <- fmap_take, (join_chars (take n _)).
  - rewrite (decode_CE _ _
               ((chars (upper unicode_upper text) ++ [str "[STOP]"])
                ++ replicate (n - length raw) (str "[PAD]")));
      [|done|].
    2:{ apply comprehension_Ok, Forall2_app; [done|].
        apply Forall2_replicate. by vm_compute. }
    unfold join. rewrite <- app_assoc, !concat_app.
    fold (join (chars (upper unicode_upper text))). rewrite join_chars.
    cbn [concat]. rewrite app_nil_r, cut_at_stop_app.
    by rewrite take_ge by lia.
Qed.

End RoundTrip.

(** C1, as the code has it. For a transcript of the 95 characters, decoding
    in CE mode the padded sequence of [encode(text, False)] gives the first
    [seq_len] characters of the uppercased transcript, cut where the text
    of the stop token first occurs in them, if it does. It is the whole
    uppercased transcript when the transcript has at most [seq_len]
    characters and its uppercase form does not contain that text. *)
Theorem decode_encode_CE (unicode_upper : N → list N) (seq_len : nat)
    (text : list N) :
  Forall (λ c, [c] ∈ Lexicon_Table_95) text →
  ∃ padded raw,
    encode unicode_upper (__init__ (Z.of_nat seq_len) None (str "CE")) text
      false = Ok (padded, raw)
    ∧ decode (__init__ (Z.of_nat seq_len) None (str "CE")) padded
      = Ok (cut_at_stop (take seq_len (upper unicode_upper text)))
    ∧ (length text ≤ seq_len →
       find (upper unicode_upper text) (str "[STOP]") = (-1)%Z →
       decode (__init__ (Z.of_nat seq_len) None (str "CE")) padded
       = Ok (upper unicode_upper text)).
Proof.
  intros Htext.
  destruct (decode_encode_general unicode_upper seq_len text Htext)
    as (padded & raw & Henc & Hdec).
  exists padded, raw. split; [done|]. split; [done|].
  intros Hlen Hfind. rewrite Hdec. f_equal.
  rewrite take_ge by (rewrite upper_lexicon, length_fmap by done; lia).
  unfold cut_at_stop. by rewrite Hfind.
Qed.

Lemma decode_encode_CE_witness :
  Forall (λ c, [c] ∈ Lexicon_Table_95) (str "Total: 42")
  ∧ ∃ padded raw,
      encode (λ c, [c]) (__init__ (Z.of_nat 50) None (str "CE"))
        (str "Total: 42") false = Ok (padded, raw)
      ∧ decode (__init__ (Z.of_nat 50) None (str "CE")) padded
        = Ok (upper (λ c, [c]) (str "Total: 42")).
Proof.
  assert (Htext : Forall (λ c, [c] ∈ Lexicon_Table_95) (str "Total: 42")).
  { apply (bool_decide_unpack _). by vm_compute. }
  split; [exact Htext|].
  destruct (decode_encode_CE (λ c, [c]) 50 (str "Total: 42") Htext)
    as (padded & raw & Henc & _ & Hdec).
  exists padded, raw. split; [exact Henc|].
  apply Hdec; [vm_compute; lia | by vm_compute].
Defined.

(** C1, as worded, with the default [seq_len] of 50 and a transcript of 51
    letters: decoding the encoding does not give the uppercased transcript
    back, the 51st letter having been cut off. *)
Lemma decode_encode_CE_long_transcript :
  Forall (λ c, [c] ∈ Lexicon_Table_95) (replicate 51 97%N)
  ∧ (let* r := encode (λ c, [c]) (__init__ 50 None (str "CE"))
                 (replicate 51 97%N) false in
     decode (__init__ 50 None (str "CE")) r.1)
    = Ok (replicate 50 65%N)
  ∧ (let* r := encode (λ c, [c]) (__init__ 50 None (str "CE"))
                 (replicate 51 97%N) false in
     decode (__init__ 50 None (str "CE")) r.1)
    ≠ Ok (upper (λ c, [c]) (replicate 51 97%N)).
Proof.
  split; [apply (bool_decide_unpack _); by vm_compute|].
  split; [by vm_compute|].
  intros Heq.
  apply (f_equal (λ r, match r with Ok l => length l | Raise _ => 0%nat end))
    in Heq.
  vm_compute in Heq. discriminate.
Qed.

(** A transcript that spells the stop token is cut there, whatever its
    length. *)
Lemma decode_encode_CE_stop_text :
  (let* r := encode (λ c, [c]) (__init__ 50 None (str "CE"))
               (str "bus [stop] 7") false in
   decode (__init__ 50 None (str "CE")) r.1)
  = Ok (str "BUS ").
Proof. by vm_compute. Qed.

End ConverterFacts.

(** ** dataset.py: further properties of the label converter *)

Module ConverterExtras.
Import Dataset Notions PyFacts ConverterFacts.

(** *** Indexing *)

Lemma list_getitem_Raise {A} (l : list A) (i : Z) (e : exn) :
  list_getitem l i = Raise e → e = IndexError.
Proof.
  unfold list_getitem. destruct (_ <? 0)%Z; [by intros [= <-]|].
  destruct (l !! _); [done | by intros [= <-]].
Qed.

(** [l[i]] is defined exactly for [-len(l) <= i < len(l)]. *)
Lemma list_getitem_Ok_iff {A} (l : list A) (i : Z) :
  (∃ x, list_getitem l i = Ok x) ↔ valid_index (length l) i.
Proof.
  unfold list_getitem, valid_index.
  destruct (Z.ltb_spec i 0) as [Hi|Hi]; cbn zeta.
  - destruct (Z.ltb_spec (i + Z.of_nat (length l)) 0) as [Hj|Hj].
    + split; [by intros [x [=]] | lia].
    + destruct (lookup_lt_is_Some_2 l (Z.to_nat (i + Z.of_nat (length l))))
        as [x Hx]; [lia|].
      rewrite Hx. split; [lia | eauto].
  - destruct (Z.ltb_spec i 0) as [|_]; [lia|].
    destruct (l !! Z.to_nat i) as [x|] eqn:Hx.
    + apply lookup_lt_Some in Hx. split; [lia | eauto].
    + apply lookup_ge_None in Hx. split; [by intros [x [=]] | lia].
Qed.

Lemma comprehension_list_getitem_Ok {A} (l : list A) (idx : list Z) :
  (∃ xs, comprehension (list_getitem l) idx = Ok xs)
  ↔ Forall (valid_index (length l)) idx.
Proof.
  split.
  - intros [xs Hxs%comprehension_Ok].
    induction Hxs as [|i x idx xs Hi _ IH]; constructor; [|done].
    apply list_getitem_Ok_iff. eauto.
  - intros Hidx. apply comprehension_total.
    eapply Forall_impl; [exact Hidx|].
    intros i. apply list_getitem_Ok_iff.
Qed.

(** *** The index table *)

Section Table.

Implicit Types (l : list (list N)) (m : gmap (list N) Z) (k : list N).

Local Abbreviation table m j l :=
  (foldl (λ d (ic : Z * list N), <[ic.2 := ic.1]> d) m (enumerate_from j l)).

Lemma enumerate_from_app {A} (j : Z) (l1 l2 : list A) :
  enumerate_from j (l1 ++ l2)
  = enumerate_from j l1 ++ enumerate_from (j + Z.of_nat (length l1)) l2.
Proof.
  revert j. induction l1 as [|x l1 IH]; intros j; simpl.
  - by rewrite Z.add_0_r.
  - rewrite IH. do 3 f_equal. lia.
Qed.

Lemma table_not_elem_of l m j k : k ∉ l → table m j l !! k = m !! k.
Proof.
  revert m j. induction l as [|x l IH]; intros m j Hk; simpl; [done|].
  apply not_elem_of_cons in Hk as [Hx Hl].
  rewrite IH by done. by rewrite lookup_insert_ne.
Qed.

(** A key is mapped to its last position in the list. *)
Lemma table_last l1 l2 m j k :
  k ∉ l2 → table m j (l1 ++ k :: l2) !! k = Some (j + Z.of_nat (length l1))%Z.
Proof.
  intros Hk. rewrite enumerate_from_app, foldl_app. simpl.
  rewrite table_not_elem_of by done. apply lookup_insert_eq.
Qed.

End Table.

(** X1. The two tables of a converter agree, whatever the lexicon: the
    index found for a symbol is its last position in [idx2char], looking
    that index up in [idx2char] gives the symbol back, and the lookup
    fails with [KeyError] exactly for what is not in [idx2char]. *)
Theorem char2idx_idx2char_agree (seq_len : Z) (lexicon : option (list (list N)))
    (recg_loss : list N) (k : list N) :
  (∀ l1 l2, idx2char (__init__ seq_len lexicon recg_loss) = l1 ++ k :: l2 →
            k ∉ l2 →
            dict_getitem (char2idx (__init__ seq_len lexicon recg_loss)) k
            = Ok (Z.of_nat (length l1)))
  ∧ (∀ i, dict_getitem (char2idx (__init__ seq_len lexicon recg_loss)) k = Ok i →
          list_getitem (idx2char (__init__ seq_len lexicon recg_loss)) i = Ok k)
  ∧ (dict_getitem (char2idx (__init__ seq_len lexicon recg_loss)) k
     = Raise KeyError
     ↔ k ∉ idx2char (__init__ seq_len lexicon recg_loss)).
Proof.
  split; [|split].
  - intros l1 l2 Hl Hk. unfold dict_getitem.
    unfold __init__, enumerate in *. cbn [char2idx idx2char] in *.
    rewrite Hl, table_last by done. by rewrite Z.add_0_l.
  - apply list_getitem_char2idx.
  - rewrite dict_getitem_char2idx_Raise. naive_solver.
Qed.

Lemma char2idx_idx2char_agree_witness :
  dict_getitem (char2idx (__init__ 50 (Some [str "a"; str "b"; str "a"])
                            (str "CE"))) (str "a")
  = Ok (Z.of_nat (length [str "[PAD]"; str "[STOP]"; str "a"; str "b"])).
Proof.
  apply (proj1 (char2idx_idx2char_agree 50
                  (Some [str "a"; str "b"; str "a"]) (str "CE") (str "a"))
           [str "[PAD]"; str "[STOP]"; str "a"; str "b"] []).
  - reflexivity.
  - apply not_elem_of_nil.
Defined.

(** *** The indices [encode] produces *)

(** The index of a character lies after the two tokens. *)
Lemma char_index_range (sl : Z) (loss : list N) (c : N) (i : Z) :
  dict_getitem (char2idx (__init__ sl None loss)) [c] = Ok i →
  (2 ≤ i ≤ 96)%Z.
Proof.
  intros Hi. pose proof (list_getitem_char2idx _ _ _ _ _ Hi) as Hback.
  assert (Hex : ∃ x, list_getitem (idx2char (__init__ sl None loss)) i = Ok x)
    by eauto.
  apply list_getitem_Ok_iff in Hex. unfold valid_index in Hex.
  change (length (idx2char (__init__ sl None loss))) with 97%nat in Hex.
  unfold dict_getitem in Hi.
  destruct (char2idx (__init__ sl None loss) !! [c]) as [i'|] eqn:Hc; [|done].
  injection Hi as ->.
  unfold __init__, enumerate in Hc. cbn [char2idx] in Hc.
  apply table_Some in Hc as [[Hi0 _]|Hc]; [|by rewrite lookup_empty in Hc].
  destruct (decide (i = 0%Z)) as [->|]; [by vm_compute in Hback|].
  destruct (decide (i = 1%Z)) as [->|]; [by vm_compute in Hback|].
  lia.
Qed.

Section Indices.

Context (unicode_upper : N → list N) (n : nat) (loss : list N).

Local Abbreviation cv := (__init__ (Z.of_nat n) None loss).

(** The raw sequence: the indices of the characters, then the stop index. *)
Lemma raw_shape (text : list N) (ignore_tag : bool) (raw : list Z) :
  comprehension (dict_getitem (char2idx cv)) (keys unicode_upper text ignore_tag)
  = Ok raw →
  ∃ idx, raw = idx ++ [1%Z]
         ∧ Forall2 (λ c i, dict_getitem (char2idx cv) [c] = Ok i)
             (upper unicode_upper (if ignore_tag then [] else text)) idx
         ∧ Forall (λ i, 2 ≤ i ≤ 96)%Z idx.
Proof.
  rewrite comprehension_Ok. unfold keys.
  intros (idx & s & Hidx & Hs & ->)%Forall2_app_inv_l.
  apply Forall2_cons_inv_l in Hs as (i & r & Hi & ->%Forall2_nil_inv_l & ->).
  rewrite stop_index in Hi. injection Hi as <-.
  unfold chars in Hidx. rewrite Forall2_fmap_l in Hidx.
  exists idx. split; [done|]. split; [done|].
  eapply Forall2_Forall_r; [exact Hidx|].
  apply Forall_forall. intros c _ i. apply char_index_range.
Qed.

End Indices.

(** X2. For a transcript of the 95 characters, the raw sequence of [encode]
    is the indices of the characters, each between 2 and 96, followed by the
    stop index 1; every element of the padded sequence is a valid index,
    between 0 and 96; and the padded sequence contains the stop index
    exactly when the transcript is shorter than [seq_len], in which case it
    stands right after the characters. *)
Theorem encode_stop_index (unicode_upper : N → list N) (seq_len : nat)
    (recg_loss : list N) (text : list N) :
  Forall (λ c, [c] ∈ Lexicon_Table_95) text →
  ∃ padded idx,
    encode unicode_upper (__init__ (Z.of_nat seq_len) None recg_loss) text
      false = Ok (padded, idx ++ [1%Z])
    ∧ length idx = length text
    ∧ Forall (λ i, 2 ≤ i ≤ 96)%Z idx
    ∧ Forall (λ i, 0 ≤ i ≤ 96)%Z padded
    ∧ (1%Z ∈ padded ↔ length text < seq_len)
    ∧ (length text < seq_len → padded !! length text = Some 1%Z).
Proof.
  intros Htext.
  destruct (keys_found unicode_upper seq_len recg_loss text false Htext)
    as [raw Hraw].
  destruct (raw_shape unicode_upper seq_len recg_loss text false raw Hraw)
    as (idx & -> & Hidx & Hrange).
  apply Forall2_length in Hidx.
  rewrite upper_lexicon, length_fmap in Hidx by done.
  exists (if decide (seq_len < length (idx ++ [1%Z]))
          then take seq_len (idx ++ [1%Z])
          else (idx ++ [1%Z])
               ++ replicate (seq_len - length (idx ++ [1%Z])) 0%Z), idx.
  split; [by apply encode_Ok_shape|]. split; [done|]. split; [done|].
  assert (Hone : 1%Z ∉ idx).
  { intros Hin. rewrite Forall_forall in Hrange.
    specialize (Hrange _ Hin). lia. }
  rewrite length_app. simpl.
  destruct (decide (seq_len < length idx + 1)) as [Hlt|Hge].
  - rewrite take_app_le by lia. split; [|split].
    + apply Forall_take. eapply Forall_impl; [exact Hrange|].
      intros i Hi. cbv beta in Hi |- *. lia.
    + split; [|lia]. intros Hin. destruct Hone.
      apply elem_of_take in Hin as (j & Hj & _).
      apply list_elem_of_lookup. eauto.
    + lia.
  - split; [|split].
    + rewrite !Forall_app. split; [split|].
      * eapply Forall_impl; [exact Hrange|]. intros i Hi. cbv beta in Hi |- *. lia.
      * by repeat constructor.
      * by apply Forall_replicate.
    + split; [lia|]. intros _. rewrite !elem_of_app.
      left. right. by left.
    + intros _. rewrite <- app_assoc, Hidx. cbn [app].
      by rewrite list_lookup_middle.
Qed.

Lemma encode_stop_index_witness :
  Forall (λ c, [c] ∈ Lexicon_Table_95) (str "Date")
  ∧ ∃ padded idx,
      encode (λ c, [c]) (__init__ (Z.of_nat 4) None (str "CE")) (str "Date")
        false = Ok (padded, idx ++ [1%Z])
      ∧ ¬ (1%Z ∈ padded).
Proof.
  assert (Htext : Forall (λ c, [c] ∈ Lexicon_Table_95) (str "Date")).
  { apply (bool_decide_unpack _). by vm_compute. }
  split; [exact Htext|].
  destruct (encode_stop_index (λ c, [c]) 4 (str "CE") (str "Date") Htext)
    as (padded & idx & Henc & _ & _ & _ & Hstop & _).
  exists padded, idx. split; [exact Henc|].
  intros Hin. apply Hstop in Hin. vm_compute in Hin. lia.
Defined.

(** *** What [decode] can raise *)

(** X3. [decode] raises nothing but [IndexError] and [UnboundLocalError].
    In CE mode it returns exactly when every index is valid for [idx2char],
    negative indices counting from the end; in CTC mode, when the indices
    the loop keeps are; with any other [recg_loss] it ends in
    [UnboundLocalError] whatever the input. *)
Theorem decode_exceptions (self : LabelConverter) (text_idx : list Z) :
  (∀ e, decode self text_idx = Raise e →
        e = IndexError ∨ e = UnboundLocalError "text")
  ∧ (recg_loss self = str "CE" →
     ((∃ s, decode self text_idx = Ok s)
      ↔ Forall (valid_index (length (idx2char self))) text_idx))
  ∧ (recg_loss self = str "CTC" →
     ((∃ s, decode self text_idx = Ok s)
      ↔ Forall (valid_index (length (idx2char self)))
          (drop_blanks (collapse text_idx))))
  ∧ (recg_loss self ≠ str "CE" → recg_loss self ≠ str "CTC" →
     decode self text_idx = Raise (UnboundLocalError "text")).
Proof.
  unfold decode. split; [|split; [|split]].
  - intros e. rewrite ctc_loop_two_phase. cbn [bind].
    repeat case_bool_decide.
    + destruct (comprehension _ _) as [cs|e'] eqn:Hcs; [done|].
      intros [= ->].
      apply comprehension_Raise in Hcs as (i & _ & ->%list_getitem_Raise).
      by left.
    + destruct (comprehension _ _) as [cs|e'] eqn:Hcs; [done|].
      intros [= ->].
      apply comprehension_Raise in Hcs as (i & _ & ->%list_getitem_Raise).
      by left.
    + intros [= <-]. by right.
  - intros ->. rewrite bool_decide_eq_true_2 by done.
    rewrite <- comprehension_list_getitem_Ok.
    destruct (comprehension _ _) as [cs|e']; cbn [bind].
    + split; eauto.
    + split; by intros [? [=]].
  - intros ->. rewrite bool_decide_eq_false_2 by done.
    rewrite bool_decide_eq_true_2 by done.
    rewrite ctc_loop_two_phase. cbn [bind].
    rewrite <- comprehension_list_getitem_Ok.
    destruct (comprehension _ _) as [cs|e']; cbn [bind].
    + split; eauto.
    + split; by intros [? [=]].
  - intros Hce Hctc. by rewrite !bool_decide_eq_false_2.
Qed.

Lemma decode_exceptions_witness :
  (∃ s, decode (__init__ 50 None (str "CE")) [34; -1; 96]%Z = Ok s)
  ∧ decode (__init__ 50 None (str "ce")) [34; -1; 96]%Z
    = Raise (UnboundLocalError "text").
Proof.
  split.
  - destruct (decode_exceptions (__init__ 50 None (str "CE")) [34; -1; 96]%Z)
      as (_ & Hce & _ & _).
    apply Hce; [reflexivity|].
    unfold valid_index. repeat constructor; vm_compute; congruence.
  - destruct (decode_exceptions (__init__ 50 None (str "ce")) [34; -1; 96]%Z)
      as (_ & _ & _ & Hother).
    apply Hother; vm_compute; congruence.
Defined.

(** *** The CTC loop *)

Lemma changes_sublist (prev : option Z) (l : list Z) :
  changes prev l `sublist_of` l.
Proof.
  revert prev. induction l as [|t l IH]; intros prev; cbn [changes]; [done|].
  destruct (decide (prev = Some t)); cbn [app].
  - apply sublist_cons, IH.
  - apply sublist_skip, IH.
Qed.

Lemma elem_of_changes (prev : option Z) (l : list Z) (t : Z) :
  t ∈ l → prev ≠ Some t → t ∈ changes prev l.
Proof.
  revert prev. induction l as [|x l IH]; intros prev Hin Hprev; cbn [changes].
  - by apply elem_of_nil in Hin.
  - destruct (decide (t = x)) as [->|Hne].
    + rewrite decide_False by done. by left.
    + apply elem_of_cons in Hin as [?|Hin]; [done|].
      apply elem_of_app. right. apply IH; [done | congruence].
Qed.

Lemma changes_no_repeats (prev : option Z) (l : list Z) :
  prev ≠ head l ∨ l = [] → no_adjacent_repeats l → changes prev l = l.
Proof.
  revert prev. induction l as [|x l IH]; intros prev Hprev Hl; [done|].
  cbn [changes]. rewrite decide_False by naive_solver.
  cbn [app]. f_equal. destruct l as [|y l]; [done|].
  destruct Hl as [Hxy Hl]. apply IH; [|done].
  left. simpl. congruence.
Qed.

(** X4. The loop of the CTC branch never fails, its look-back always
    being in range. What it keeps is a subsequence of the input without
    the blank; every other index of the input is among it; and an input
    without blanks and without equal neighbours is kept as it is. *)
Theorem ctc_loop_keeps (text_idx : list Z) :
  ∃ kept,
    ctc_loop text_idx = Ok kept
    ∧ kept `sublist_of` text_idx
    ∧ (0%Z ∉ kept)
    ∧ (∀ t, t ∈ text_idx → t ≠ 0%Z → t ∈ kept)
    ∧ (0%Z ∉ text_idx → no_adjacent_repeats text_idx → kept = text_idx).
Proof.
  exists (drop_blanks (collapse text_idx)).
  split; [apply ctc_loop_two_phase|].
  rewrite collapse_changes. unfold drop_blanks.
  split; [|split; [|split]].
  - etrans; [apply sublist_filter | apply changes_sublist].
  - by intros [? _]%list_elem_of_filter.
  - intros t Hin Ht. apply list_elem_of_filter. split; [done|].
    by apply elem_of_changes.
  - intros Hzero Hrep. rewrite changes_no_repeats; [|by destruct text_idx; auto|done].
    induction text_idx as [|t l IH]; [done|].
    apply not_elem_of_cons in Hzero as [Ht Hl].
    rewrite filter_cons_True by done. f_equal. apply IH; [done|].
    destruct l; [done | by destruct Hrep].
Qed.

Lemma ctc_loop_keeps_witness :
  (0%Z ∉ [7; 8; 7; 9]%Z) ∧ no_adjacent_repeats [7; 8; 7; 9]%Z
  ∧ ctc_loop [7; 8; 7; 9]%Z = Ok [7; 8; 7; 9]%Z.
Proof.
  assert (Hzero : 0%Z ∉ [7; 8; 7; 9]%Z).
  { apply (bool_decide_unpack _). by vm_compute. }
  assert (Hrep : no_adjacent_repeats [7; 8; 7; 9]%Z).
  { simpl. repeat split; lia. }
  split; [exact Hzero|]. split; [exact Hrep|].
  destruct (ctc_loop_keeps [7; 8; 7; 9]%Z) as (kept & -> & _ & _ & _ & Heq).
  f_equal. by apply Heq.
Defined.

(** *** Ignored transcripts *)

Lemma drop_blanks_changes_pad (prev : option Z) (m : nat) :
  drop_blanks (changes prev (replicate m 0%Z)) = [].
Proof.
  revert prev. induction m as [|m IH]; intros prev; [done|].
  cbn [replicate changes]. unfold drop_blanks in *.
  rewrite filter_app, IH, app_nil_r.
  destruct (decide (prev = Some 0%Z)); [done|].
  by rewrite filter_cons_False, filter_nil by naive_solver.
Qed.

Lemma changes_app (prev : option Z) (l1 l2 : list Z) :
  changes prev (l1 ++ l2)
  = changes prev l1 ++ changes (from_option Some prev (last l1)) l2.
Proof.
  revert prev. induction l1 as [|x l1 IH]; intros prev; [done|].
  cbn [app changes]. rewrite IH, app_assoc. do 2 f_equal.
  destruct l1 as [|y l1]; [done|]. rewrite last_cons_cons.
  destruct (last (y :: l1)) eqn:Hlast; [done|].
  by apply last_None in Hlast.
Qed.

Lemma join_pads (m : nat) :
  ∃ rest, join ([str "[STOP]"] ++ replicate m (str "[PAD]"))
          = [] ++ str "[STOP]" ++ rest.
Proof. exists (concat (replicate m (str "[PAD]"))). done. Qed.

(** X5. With [ignore_tag] set, whatever the transcript (characters outside
    the lexicon included) and in both modes, [encode] returns the stop index
    alone as raw sequence and a padded sequence of [seq_len] elements that
    [decode] turns into the empty string. *)
Theorem decode_encode_ignored (unicode_upper : N → list N) (seq_len : nat)
    (recg_loss : list N) (text : list N) :
  recg_loss = str "CE" ∨ recg_loss = str "CTC" →
  ∃ padded,
    encode unicode_upper (__init__ (Z.of_nat seq_len) None recg_loss) text
      true = Ok (padded, [1%Z])
    ∧ length padded = seq_len
    ∧ decode (__init__ (Z.of_nat seq_len) None recg_loss) padded = Ok [].
Proof.
  intros Hloss.
  assert (Hraw : comprehension
                   (dict_getitem (char2idx (__init__ (Z.of_nat seq_len) None
                                              recg_loss)))
                   (keys unicode_upper text true) = Ok [1%Z]).
  { unfold keys. cbn [comprehension upper mbind list_bind chars fmap list_fmap
                        app].
    by rewrite stop_index. }
  eexists. split; [by apply encode_Ok_shape|].
  destruct seq_len as [|m].
  - split; [done|]. destruct Hloss as [-> | ->]; by vm_compute.
  - rewrite decide_False by (simpl; lia).
    split; [rewrite length_app, length_replicate; simpl; lia|].
    replace (S m - length [1%Z]) with m by (simpl; lia).
    destruct (join_pads m) as [rest Hjoin].
    destruct Hloss as [-> | ->].
    + rewrite (decode_CE _ _ ([str "[STOP]"] ++ replicate m (str "[PAD]")));
        [|done|].
      * by rewrite Hjoin, cut_at_stop_app.
      * apply comprehension_Ok, Forall2_app; [by repeat constructor|].
        apply Forall2_replicate. by vm_compute.
    + unfold decode. rewrite bool_decide_eq_false_2 by done.
      rewrite bool_decide_eq_true_2 by done.
      rewrite ctc_loop_two_phase, collapse_changes. cbn [bind].
      cbn [app changes]. rewrite decide_False by done.
      unfold drop_blanks. rewrite filter_app.
      fold (drop_blanks (changes (Some 1%Z) (replicate m 0%Z))).
      rewrite drop_blanks_changes_pad.
      by vm_compute.
Qed.

Lemma decode_encode_ignored_witness :
  ∃ padded,
    encode (λ c, [c]) (__init__ (Z.of_nat 6) None (str "CTC"))
      (str "caf" ++ [233%N]) true = Ok (padded, [1%Z])
    ∧ decode (__init__ (Z.of_nat 6) None (str "CTC")) padded = Ok [].
Proof.
  destruct (decode_encode_ignored (λ c, [c]) 6 (str "CTC")
              (str "caf" ++ [233%N]) (or_intror eq_refl))
    as (padded & Henc & _ & Hdec).
  exists padded. split; assumption.
Defined.

(** *** Encoding, then decoding in CTC mode *)

Lemma drop_blanks_id (l : list Z) :
  Forall (λ i, 2 ≤ i ≤ 96)%Z l → drop_blanks l = l.
Proof.
  unfold drop_blanks. induction 1 as [|i l Hi _ IH]; [done|].
  rewrite filter_cons_True by lia. by f_equal.
Qed.

Lemma collapse_Forall (P : Z → Prop) (l : list Z) :
  Forall P l → Forall P (collapse l).
Proof.
  rewrite collapse_changes, !Forall_forall. intros Hl i Hi. apply Hl.
  eapply elem_of_sublist; [exact Hi | apply changes_sublist].
Qed.

Section Squeeze.

Context (sl : Z) (loss : list N).

Local Abbreviation cv := (__init__ sl None loss).

(** Distinct characters have distinct indices. *)
Lemma char_index_inj (c c' : N) (i : Z) :
  dict_getitem (char2idx cv) [c] = Ok i →
  dict_getitem (char2idx cv) [c'] = Ok i →
  c = c'.
Proof.
  intros Hc%list_getitem_char2idx Hc'%list_getitem_char2idx.
  rewrite Hc in Hc'. by injection Hc'.
Qed.

(** Collapsing the indices of a text is squeezing the text. *)
Lemma squeeze_collapse (cs : list N) (idx : list Z) :
  Forall2 (λ c i, dict_getitem (char2idx cv) [c] = Ok i) cs idx →
  Forall2 (λ c i, dict_getitem (char2idx cv) [c] = Ok i)
    (squeeze cs) (collapse idx).
Proof.
  induction 1 as [|c i cs idx Hci Hrest IH]; [constructor|].
  destruct Hrest as [|c2 i2 cs idx Hc2 Hrest].
  - by repeat constructor.
  - change (squeeze (c :: c2 :: cs))
      with (if (c =? c2)%N then squeeze (c2 :: cs)
            else c :: squeeze (c2 :: cs)).
    change (collapse (i :: i2 :: idx))
      with (if (i =? i2)%Z then collapse (i2 :: idx)
            else i :: collapse (i2 :: idx)).
    destruct (N.eqb_spec c c2) as [->|Hne], (Z.eqb_spec i i2) as [->|Hne'].
    + exact IH.
    + rewrite Hci in Hc2. by injection Hc2.
    + destruct Hne. by eapply char_index_inj.
    + by constructor.
Qed.

Lemma comprehension_chars (cs : list N) (idx : list Z) :
  Forall2 (λ c i, dict_getitem (char2idx cv) [c] = Ok i) cs idx →
  Forall2 (λ i k, list_getitem (idx2char cv) i = Ok k) idx (chars cs).
Proof.
  intros Hcs. unfold chars. apply Forall2_fmap_r, Forall2_flip.
  eapply Forall2_impl; [exact Hcs|].
  intros c i. apply list_getitem_char2idx.
Qed.

End Squeeze.

(** X6. For a transcript of the 95 characters, decoding in CTC mode the
    padded sequence of [encode(text, False)] gives the first [seq_len]
    characters of the uppercased transcript with every run of a repeated
    character reduced to one character, cut where that text first spells
    the stop token, if it does: doubled letters do not survive the round
    trip in this mode. *)
Theorem decode_encode_CTC (unicode_upper : N → list N) (seq_len : nat)
    (text : list N) :
  Forall (λ c, [c] ∈ Lexicon_Table_95) text →
  ∃ padded raw,
    encode unicode_upper (__init__ (Z.of_nat seq_len) None (str "CTC")) text
      false = Ok (padded, raw)
    ∧ decode (__init__ (Z.of_nat seq_len) None (str "CTC")) padded
      = Ok (cut_at_stop (squeeze (take seq_len (upper unicode_upper text)))).
Proof.
  intros Htext.
  destruct (keys_found unicode_upper seq_len (str "CTC") text false Htext)
    as [raw Hraw].
  destruct (raw_shape unicode_upper seq_len (str "CTC") text false raw Hraw)
    as (idx & -> & Hidx & Hrange).
  cbn match in Hidx.
  eexists _, _. split; [by apply encode_Ok_shape|].
  pose proof (Forall2_length _ _ _ Hidx) as Hlen.
  unfold decode. rewrite bool_decide_eq_false_2 by done.
  rewrite bool_decide_eq_true_2 by done.
  rewrite ctc_loop_two_phase. cbn [bind].
  rewrite length_app. simpl length.
  destruct (decide (seq_len < length idx + 1)) as [Hlt|Hge].
  - rewrite take_app_le by lia.
    rewrite drop_blanks_id by (by apply collapse_Forall, Forall_take).
    pose proof (squeeze_collapse _ _ _ _
                  (Forall2_take _ _ _ seq_len Hidx)) as Hsq.
    apply comprehension_chars, comprehension_Ok in Hsq.
    rewrite Hsq. cbn [bind]. by rewrite join_chars.
  - rewrite take_ge by lia.
    rewrite collapse_changes, !changes_app.
    unfold drop_blanks. rewrite !filter_app.
    fold (drop_blanks (changes None idx)).
    fold (drop_blanks
            (changes (from_option Some (from_option Some None (last idx))
                        (last [1%Z]))
               (replicate (seq_len - (length idx + 1)) 0%Z))).
    rewrite drop_blanks_changes_pad, app_nil_r.
    rewrite <- collapse_changes.
    rewrite drop_blanks_id by (by apply collapse_Forall).
    assert (Hstop : filter (λ t, t ≠ 0%Z)
                      (changes (from_option Some None (last idx)) [1%Z])
                    = [1%Z]).
    { cbn [changes]. rewrite decide_False; [done|].
      destruct (last idx) as [i|] eqn:Hlast; [|done].
      simpl. intros [= ->].
      apply last_Some_elem_of in Hlast.
      rewrite Forall_forall in Hrange. specialize (Hrange _ Hlast). lia. }
    rewrite Hstop.
    pose proof (squeeze_collapse _ _ _ _ Hidx) as Hsq.
    apply comprehension_chars in Hsq.
    assert (Hcs : comprehension
                    (list_getitem
                       (idx2char (__init__ (Z.of_nat seq_len) None
                                    (str "CTC"))))
                    (collapse idx ++ [1%Z])
                  = Ok (chars (squeeze (upper unicode_upper text))
                        ++ [str "[STOP]"])).
    { apply comprehension_Ok, Forall2_app; [done|].
      by repeat constructor. }
    rewrite Hcs. cbn [bind]. unfold join. rewrite concat_app.
    fold (join (chars (squeeze (upper unicode_upper text)))).
    rewrite join_chars. cbn [concat].
    by rewrite cut_at_stop_app.
Qed.

Lemma decode_encode_CTC_witness :
  Forall (λ c, [c] ∈ Lexicon_Table_95) (str "Billing address")
  ∧ ∃ padded raw,
      encode (λ c, [c]) (__init__ (Z.of_nat 50) None (str "CTC"))
        (str "Billing address") false = Ok (padded, raw)
      ∧ decode (__init__ (Z.of_nat 50) None (str "CTC")) padded
        = Ok (str "BILING ADRES").
Proof.
  assert (Htext : Forall (λ c, [c] ∈ Lexicon_Table_95) (str "Billing address")).
  { apply (bool_decide_unpack _). by vm_compute. }
  split; [exact Htext|].
  destruct (decode_encode_CTC (λ c, [c]) 50 (str "Billing address") Htext)
    as (padded & raw & Henc & Hdec).
  exists padded, raw. split; [exact Henc|].
  rewrite Hdec. by vm_compute.
Defined.

End ConverterExtras.

(** ** dataset.py: further properties of the box ordering *)

Module SortExtras.
Import Dataset Notions SortFacts.

(** No key is both strictly before and not before another. *)
Lemma tuple_lt_not_key_le (a b : Q * Q) :
  tuple_lt a b = true → key_le b a → False.
Proof.
  unfold tuple_lt, key_le.
  destruct (Qeq_bool a.1 b.1) eqn:He; rewrite Qltb_lt; intros Hlt.
  - apply Qeq_bool_iff in He. intros [Hba|[_ Hba]].
    + rewrite He in Hba. by apply Qlt_irrefl in Hba.
    + by apply Qlt_not_le in Hlt.
  - intros [Hba|[Hba _]].
    + apply (Qlt_irrefl a.1). by eapply Qlt_trans.
    + rewrite Hba in Hlt. by apply Qlt_irrefl in Hlt.
Qed.

Lemma key_eqb_key_le (a b c : Q * Q) :
  key_eqb c a = true → key_le b c → key_le b a.
Proof.
  unfold key_eqb, key_le.
  intros [H1%Qeq_bool_iff H2%Qeq_bool_iff]%andb_true_iff.
  by rewrite H1, H2.
Qed.

Lemma filter_none {A} (P : A → Prop) `{!∀ x, Decision (P x)} (l : list A) :
  Forall (λ y, ¬ P y) l → filter P l = [].
Proof.
  induction 1 as [|y l Hy _ IH]; [done|]. by rewrite filter_cons_False.
Qed.

Section Stable.

Context {A : Type} (key : A → Q * Q).

(** The elements whose key compares equal to [k]. *)
Local Abbreviation class k := (filter (λ y, key_eqb (key y) k = true)).

Lemma insert_sorted_class (k : Q * Q) (x : A) (l : list A) :
  StronglySorted (by_key key) l →
  class k (insert_sorted key x l) = class k l ++ class k [x].
Proof.
  induction 1 as [|y l Hl IH Hy]; [done|]. cbn [insert_sorted].
  destruct (tuple_lt (key x) (key y)) eqn:Hlt.
  - destruct (decide (key_eqb (key x) k = true)) as [Hx|Hx].
    + rewrite (filter_cons_True _ x (y :: l)) by done.
      rewrite (filter_none _ (y :: l)); [by rewrite filter_cons_True|].
      constructor.
      * intros Hyk. eapply tuple_lt_not_key_le; [exact Hlt|].
        unfold key_eqb in Hx, Hyk.
        apply andb_true_iff in Hx as [H1%Qeq_bool_iff H2%Qeq_bool_iff].
        apply andb_true_iff in Hyk as [H3%Qeq_bool_iff H4%Qeq_bool_iff].
        right. rewrite H1, H2, H3, H4. split; [done | apply Qle_refl].
      * eapply Forall_impl; [exact Hy|]. intros z Hz Hzk.
        eapply tuple_lt_not_key_le; [exact Hlt|].
        unfold key_eqb in Hx, Hzk.
        apply andb_true_iff in Hx as [H1%Qeq_bool_iff H2%Qeq_bool_iff].
        apply andb_true_iff in Hzk as [H3%Qeq_bool_iff H4%Qeq_bool_iff].
        unfold by_key, key_le in Hz. unfold key_le.
        by rewrite H1, H2, <- H3, <- H4.
    + rewrite (filter_cons_False _ x (y :: l)) by done.
      rewrite (filter_cons_False _ x []) by done.
      by rewrite filter_nil, app_nil_r.
  - rewrite !(filter_cons _ y), IH.
    by destruct (decide (key_eqb (key y) k = true)).
Qed.

Lemma sorted_from_class (k : Q * Q) (l acc : list A) :
  StronglySorted (by_key key) acc →
  class k (foldl (λ acc x, insert_sorted key x acc) acc l)
  = class k acc ++ class k l.
Proof.
  revert acc. induction l as [|x l IH]; intros acc Hacc; cbn [foldl].
  - by rewrite filter_nil, app_nil_r.
  - rewrite IH by (by apply insert_sorted_StronglySorted).
    rewrite insert_sorted_class by done.
    rewrite <- app_assoc. f_equal.
    rewrite (filter_cons _ x l), (filter_cons _ x []), filter_nil.
    by destruct (decide (key_eqb (key x) k = true)).
Qed.

(** An element not before any of [acc] goes to the end. *)
Lemma insert_sorted_last (x : A) (acc : list A) :
  Forall (λ y, by_key key y x) acc → insert_sorted key x acc = acc ++ [x].
Proof.
  intros Hacc. apply insert_sorted_after_equal.
  eapply Forall_impl; [exact Hacc|]. intros y Hy.
  apply not_true_is_false. intros Hlt.
  by eapply tuple_lt_not_key_le.
Qed.

Lemma sorted_from_sorted (l acc : list A) :
  StronglySorted (by_key key) (acc ++ l) →
  foldl (λ acc x, insert_sorted key x acc) acc l = acc ++ l.
Proof.
  revert acc. induction l as [|x l IH]; intros acc Hs; cbn [foldl].
  - by rewrite app_nil_r.
  - rewrite insert_sorted_last.
    + rewrite IH; rewrite <- app_assoc; done.
    + apply Forall_forall. intros y Hy.
      eapply StronglySorted_app_1_elem_of; [exact Hs | done | by left].
Qed.

End Stable.

(** X7. [_sort_box_with_list] is stable: the entries whose centers compare
    equal, in both coordinates, stand in the result in the order in which
    they were given. *)
Theorem sort_box_with_list_stable (minAreaRect_center : list Q → Q * Q)
    (anno : list entry) (left_right_first : bool) (k : Q * Q) :
  filter (λ e, key_eqb (compare_key minAreaRect_center left_right_first e) k
               = true)
    (_sort_box_with_list minAreaRect_center anno left_right_first)
  = filter (λ e, key_eqb (compare_key minAreaRect_center left_right_first e) k
                 = true) anno.
Proof.
  unfold _sort_box_with_list, sorted.
  rewrite sorted_from_class by constructor. by rewrite filter_nil.
Qed.

(** X8. A list that is already in reading order is returned as it is, so
    that sorting twice is sorting once. *)
Theorem sort_box_with_list_sorted_input
    (minAreaRect_center : list Q → Q * Q) (anno : list entry)
    (left_right_first : bool) :
  (StronglySorted
     (if left_right_first then left_to_right minAreaRect_center
      else top_to_bottom minAreaRect_center) anno →
   _sort_box_with_list minAreaRect_center anno left_right_first = anno)
  ∧ _sort_box_with_list minAreaRect_center
      (_sort_box_with_list minAreaRect_center anno left_right_first)
      left_right_first
    = _sort_box_with_list minAreaRect_center anno left_right_first.
Proof.
  assert (Hfix : ∀ l, StronglySorted
                        (by_key (compare_key minAreaRect_center
                                   left_right_first)) l →
                      _sort_box_with_list minAreaRect_center l
                        left_right_first = l).
  { intros l Hl. unfold _sort_box_with_list, sorted.
    by rewrite sorted_from_sorted. }
  split.
  - intros Hs. apply Hfix. by destruct left_right_first.
  - apply Hfix. apply sorted_StronglySorted.
Qed.

Lemma sort_box_with_list_sorted_input_witness :
  _sort_box_with_list
    (λ p, (default 0%Q (p !! 0%nat), default 0%Q (p !! 1%nat)))
    [([2; 1]%Q, str "b", 0%Z, false); ([1; 5]%Q, str "a", 0%Z, false)] false
  = [([2; 1]%Q, str "b", 0%Z, false); ([1; 5]%Q, str "a", 0%Z, false)].
Proof.
  apply (sort_box_with_list_sorted_input
           (λ p, (default 0%Q (p !! 0%nat), default 0%Q (p !! 1%nat)))
           [([2; 1]%Q, str "b", 0%Z, false); ([1; 5]%Q, str "a", 0%Z, false)]
           false).
  repeat constructor.
Defined.

End SortExtras.

(** ** dataset.py: further properties of the annotation parsing *)

Module ParseExtras.
Import Dataset Notions PyFacts ParseFacts ConverterFacts.

(** *** Boxes *)

Lemma bbox2poly_corners (x0 y0 x1 y1 : Q) (rest : list Q) :
  _bbox2poly (x0 :: y0 :: x1 :: y1 :: rest)
  = Ok [x0; y0; x1; y0; x1; y1; x0; y1].
Proof. reflexivity. Qed.

Lemma bbox2poly_short (bbox : list Q) :
  length bbox < 4 → _bbox2poly bbox = Raise IndexError.
Proof.
  destruct bbox as [|x0 [|y0 [|x1 [|y1 rest]]]]; simpl; try done; lia.
Qed.

Lemma bbox2poly_Ok_iff (bbox : list Q) :
  (∃ poly, _bbox2poly bbox = Ok poly) ↔ 4 ≤ length bbox.
Proof.
  destruct (decide (length bbox < 4)) as [Hlt|Hge].
  - rewrite bbox2poly_short by done. split; [by intros [? [=]] | lia].
  - split; [lia|]. intros _.
    destruct bbox as [|x0 [|y0 [|x1 [|y1 rest]]]]; simpl in Hge; try lia.
    rewrite bbox2poly_corners. eauto.
Qed.

Lemma bbox2poly_length (bbox poly : list Q) :
  _bbox2poly bbox = Ok poly → length poly = 8.
Proof.
  intros Hp. assert (Hlen : 4 ≤ length bbox) by (apply bbox2poly_Ok_iff; eauto).
  destruct bbox as [|x0 [|y0 [|x1 [|y1 rest]]]]; simpl in Hlen; try lia.
  rewrite bbox2poly_corners in Hp. by injection Hp as <-.
Qed.


(** X9. [_bbox2poly] reads the first four numbers of a box, whatever
    follows them, as two corners and returns the eight coordinates of the
    rectangle, corner by corner from the first; a box of fewer than four
    numbers ends in [IndexError]. *)
Theorem bbox2poly_spec (bbox : list Q) :
  (length bbox < 4 → _bbox2poly bbox = Raise IndexError)
  ∧ (∀ x0 y0 x1 y1 rest, bbox = x0 :: y0 :: x1 :: y1 :: rest →
       _bbox2poly bbox = Ok [x0; y0; x1; y0; x1; y1; x0; y1]).
Proof.
  split; [apply bbox2poly_short|].
  intros x0 y0 x1 y1 rest ->. apply bbox2poly_corners.
Qed.

Lemma bbox2poly_spec_witness :
  _bbox2poly [84; 109; 136; 119; 7]%Q
  = Ok [84; 109; 136; 109; 136; 119; 84; 119]%Q
  ∧ _bbox2poly [84; 109; 136]%Q = Raise IndexError.
Proof.
  split.
  - apply (proj2 (bbox2poly_spec [84; 109; 136; 119; 7]%Q)
             84%Q 109%Q 136%Q 119%Q [7%Q]).
    reflexivity.
  - apply (proj1 (bbox2poly_spec [84; 109; 136]%Q)). simpl. lia.
Defined.

(** *** The loops as maps *)

Section Entries.

Context (float : Q → result Q).

Lemma parse_words_entries (ws : list word_record) (r r' : res) :
  foldl (parse_word float) (Ok r) ws = Ok r' →
  line r' = line r
  ∧ ∃ es, word r' = word r ++ es ∧ Forall2 (word_entry_of float) ws es.
Proof.
  revert r. induction ws as [|w ws IH]; intros r; cbn [foldl].
  - intros [= <-]. split; [done|]. exists []. by rewrite app_nil_r.
  - destruct (parse_word float (Ok r) w) as [r1|e] eqn:Hw;
      [|by rewrite (foldl_result_Raise _ (parse_word_Raise float))].
    intros (Hl & es & Hes & Hws)%IH. revert Hw.
    unfold parse_word. cbn [bind].
    destruct (comprehension float (word_box w)) as [nums|] eqn:Hn; [|done].
    cbn [bind]. apply comprehension_Ok in Hn.
    destruct (_bbox2poly nums) as [poly|] eqn:Hp; [|done].
    cbn [bind]. intros [= <-]. simpl in *. split; [done|].
    eexists (_ :: es). rewrite Hes, <- app_assoc. split; [done|].
    constructor; [|done]. by exists nums, poly.
Qed.

Lemma with_transcript_cons (ln : line_record) (l : list line_record) :
  with_transcript (ln :: l)
  = (if decide (text ln = []) then [] else [ln]) ++ with_transcript l.
Proof.
  unfold with_transcript. rewrite filter_cons.
  destruct (decide (text ln ≠ [])), (decide (text ln = [])); done.
Qed.

Lemma parse_line_entries (ln : line_record) (r r' : res) :
  parse_line float (Ok r) ln = Ok r' →
  ∃ ls ws,
    line r' = line r ++ ls ∧ word r' = word r ++ ws
    ∧ Forall2 (line_entry_of float)
        (if decide (text ln = []) then [] else [ln]) ls
    ∧ Forall2 (word_entry_of float)
        ((if decide (text ln = []) then [] else [ln]) ≫= words) ws.
Proof.
  unfold parse_line. cbn [bind].
  destruct (decide (text ln = [])) as [Hln|Hln].
  - rewrite Hln. simpl. intros [= <-].
    exists [], []. rewrite !app_nil_r. by repeat split; constructor.
  - destruct (text ln) as [|c t] eqn:Ht; [done|]. simpl length. cbn [Nat.eqb].
    destruct (comprehension float (box ln)) as [nums|] eqn:Hn; [|done].
    cbn [bind]. apply comprehension_Ok in Hn.
    destruct (_bbox2poly nums) as [poly|] eqn:Hp; [|done].
    cbn [bind]. unfold dict_getitem.
    destruct (TEXT_CLASSES !! label ln) as [cls|] eqn:Hcls; [|done].
    cbn [bind]. intros (Hl & es & Hes & Hws)%parse_words_entries.
    simpl in Hl, Hes. eexists [_], es. split; [done|]. split; [done|].
    split.
    + constructor; [|constructor]. exists nums, poly, cls. by rewrite Ht.
    + simpl. by rewrite app_nil_r.
Qed.

Lemma parse_lines_entries (l : list line_record) (r r' : res) :
  foldl (parse_line float) (Ok r) l = Ok r' →
  ∃ ls ws,
    line r' = line r ++ ls ∧ word r' = word r ++ ws
    ∧ Forall2 (line_entry_of float) (with_transcript l) ls
    ∧ Forall2 (word_entry_of float) (with_transcript l ≫= words) ws.
Proof.
  revert r. induction l as [|ln l IH]; intros r; cbn [foldl].
  - intros [= <-]. exists [], []. rewrite !app_nil_r.
    by repeat split; constructor.
  - destruct (parse_line float (Ok r) ln) as [r1|e] eqn:Hln;
      [|by rewrite (foldl_result_Raise _ (parse_line_Raise float))].
    intros (ls & ws & Hl & Hw & Hls & Hws)%IH.
    apply parse_line_entries in Hln as (ls1 & ws1 & Hl1 & Hw1 & Hls1 & Hws1).
    exists (ls1 ++ ls), (ws1 ++ ws).
    rewrite Hl, Hw, Hl1, Hw1, <- !app_assoc, with_transcript_cons, bind_app.
    repeat split; by apply Forall2_app.
Qed.

Lemma parse_form_map (data : annotation) (r : res) :
  parse_form float data = Ok r →
  Forall2 (line_entry_of float) (with_transcript (form data)) (line r)
  ∧ Forall2 (word_entry_of float) (with_transcript (form data) ≫= words)
      (word r).
Proof.
  unfold parse_form.
  intros (ls & ws & Hl & Hw & Hls & Hws)%parse_lines_entries.
  simpl in Hl, Hw. by rewrite Hl, Hw.
Qed.

End Entries.

(** X10. When the loop over [form] gets to its end, the line-level
    collection holds one entry for each record with a transcript, in the
    order of the file, made of the rectangle of its box, its transcript
    reduced to the characters of the lexicon, the index of its label and
    the flag [False]; the word-level collection holds the entries of the
    words of those records, in the same order, with class -1. *)
Theorem parse_form_entries (float : Q → result Q) (data : annotation)
    (r : res) :
  parse_form float data = Ok r →
  Forall2 (line_entry_of float) (with_transcript (form data)) (line r)
  ∧ Forall2 (word_entry_of float) (with_transcript (form data) ≫= words)
      (word r).
Proof. apply parse_form_map. Qed.

Lemma parse_form_entries_witness :
  ∃ r, parse_form (λ x, Ok x) sample_page = Ok r
       ∧ Forall2 (line_entry_of (λ x, Ok x)) (with_transcript (form sample_page))
           (line r).
Proof.
  eexists. split; [by vm_compute|].
  apply (parse_form_entries (λ x, Ok x) sample_page). by vm_compute.
Defined.

(** *** What the entries look like *)

Lemma TEXT_CLASSES_range (label : list N) (cls : Z) :
  TEXT_CLASSES !! label = Some cls → (0 ≤ cls ≤ 3)%Z.
Proof.
  unfold TEXT_CLASSES.
  rewrite !lookup_insert_Some, lookup_empty. naive_solver lia.
Qed.

Lemma filter_in_lexicon (t : list N) :
  Forall (λ c, [c] ∈ Lexicon_Table_95) (filter (λ c, in_lexicon c) t).
Proof.
  apply Forall_forall. intros c [Hc _]%list_elem_of_filter.
  by apply bool_decide_unpack in Hc.
Qed.

Lemma line_entry_shape (float : Q → result Q) (ln : line_record)
    (e : entry) :
  line_entry_of float ln e →
  length e.1.1.1 = 8
  ∧ Forall (λ c, [c] ∈ Lexicon_Table_95) e.1.1.2
  ∧ (0 ≤ e.1.2 ≤ 3)%Z ∧ e.2 = false.
Proof.
  intros (nums & poly & cls & _ & Hp & Hcls & ->). simpl.
  split; [by eapply bbox2poly_length|].
  split; [apply filter_in_lexicon|].
  split; [by eapply TEXT_CLASSES_range | done].
Qed.

Lemma word_entry_shape (float : Q → result Q) (w : word_record)
    (e : entry) :
  word_entry_of float w e →
  length e.1.1.1 = 8
  ∧ Forall (λ c, [c] ∈ Lexicon_Table_95) e.1.1.2
  ∧ e.1.2 = (-1)%Z ∧ e.2 = false.
Proof.
  intros (nums & poly & _ & Hp & ->). simpl.
  split; [by eapply bbox2poly_length|].
  split; [apply filter_in_lexicon | done].
Qed.

Lemma parse_Some_form (float : Q → result Q) (data : annotation) (r : res) :
  _parse_ann_info_funsd float data = Ok (Some r) →
  parse_form float data = Ok r.
Proof.
  unfold _parse_ann_info_funsd.
  destruct (parse_form float data) as [r0|]; [|done]. cbn [bind].
  destruct (_ || _); [done|]. by intros [= <-].
Qed.

Lemma parse_shapes (float : Q → result Q) (data : annotation) (r : res) :
  _parse_ann_info_funsd float data = Ok (Some r) →
  Forall (λ e : entry,
            length e.1.1.1 = 8
            ∧ Forall (λ c, [c] ∈ Lexicon_Table_95) e.1.1.2
            ∧ (0 ≤ e.1.2 ≤ 3)%Z) (line r)
  ∧ Forall (λ e : entry,
              length e.1.1.1 = 8
              ∧ Forall (λ c, [c] ∈ Lexicon_Table_95) e.1.1.2
              ∧ e.1.2 = (-1)%Z) (word r).
Proof.
  intros [Hls Hws]%parse_Some_form%parse_form_map. split.
  - eapply Forall2_Forall_r; [exact Hls|].
    apply Forall_forall. intros ln _ e He%line_entry_shape. tauto.
  - eapply Forall2_Forall_r; [exact Hws|].
    apply Forall_forall. intros w _ e He%word_entry_shape. tauto.
Qed.

(** X11. In what [_parse_ann_info_funsd] returns, every polygon has eight
    coordinates, every transcript is made of characters of the lexicon
    only, every word-level entry has class -1 whatever the label of its
    line, and every line-level entry has a class between 0 and 3. *)
Theorem parse_entry_shapes (float : Q → result Q) (data : annotation) (r : res) :
  _parse_ann_info_funsd float data = Ok (Some r) →
  Forall (λ e : entry,
            length e.1.1.1 = 8
            ∧ Forall (λ c, [c] ∈ Lexicon_Table_95) e.1.1.2
            ∧ (0 ≤ e.1.2 ≤ 3)%Z) (line r)
  ∧ Forall (λ e : entry,
              length e.1.1.1 = 8
              ∧ Forall (λ c, [c] ∈ Lexicon_Table_95) e.1.1.2
              ∧ e.1.2 = (-1)%Z) (word r).
Proof. apply parse_shapes. Qed.

Lemma parse_entry_shapes_witness :
  ∃ r, _parse_ann_info_funsd (λ x, Ok x) sample_page = Ok (Some r)
       ∧ Forall (λ e : entry, e.1.2 = (-1)%Z) (word r).
Proof.
  eexists. split; [by vm_compute|].
  eapply Forall_impl.
  - apply (parse_entry_shapes (λ x, Ok x) sample_page). by vm_compute.
  - intros e He. apply He.
Defined.

(** X12. Every transcript that [_parse_ann_info_funsd] returns can be
    encoded: with the default lexicon, [encode] applied to the transcript
    and the flag of any returned entry raises no [KeyError] and gives a
    padded sequence of [seq_len] elements. *)
Theorem parsed_entries_encode (unicode_upper : N → list N) (float : Q → result Q)
    (data : annotation) (r : res) (seq_len : nat) (recg_loss : list N) :
  _parse_ann_info_funsd float data = Ok (Some r) →
  Forall (λ e : entry,
            ∃ padded raw,
              encode unicode_upper
                (__init__ (Z.of_nat seq_len) None recg_loss) e.1.1.2 e.2
              = Ok (padded, raw)
              ∧ length padded = seq_len)
    (line r ++ word r).
Proof.
  intros Hparse.
  destruct (parse_shapes float data r Hparse) as [Hls Hws].
  apply Forall_app. split.
  all: eapply Forall_impl; [eassumption|].
  all: intros e (_ & Htext & _).
  all: destruct (keys_found unicode_upper seq_len recg_loss e.1.1.2 e.2 Htext)
         as [raw Hraw].
  all: eexists _, raw; split; [by apply encode_Ok_shape|].
  all: destruct (decide (seq_len < length raw)).
  all: rewrite ?length_take, ?length_app, ?length_replicate; lia.
Qed.

Lemma parsed_entries_encode_witness :
  ∃ r, _parse_ann_info_funsd (λ x, Ok x) sample_page = Ok (Some r)
       ∧ Forall (λ e : entry,
                   ∃ padded raw,
                     encode (λ c, [c]) (__init__ (Z.of_nat 50) None (str "CE"))
                       e.1.1.2 e.2 = Ok (padded, raw)
                     ∧ length padded = 50)
           (line r ++ word r).
Proof.
  eexists. split; [by vm_compute|].
  apply (parsed_entries_encode (λ c, [c]) (λ x, Ok x) sample_page).
  by vm_compute.
Defined.

(** *** When the loop fails *)



Section Failures.

Context (float : Q → result Q).








End Failures.



End ParseExtras.


(** ** dataset.py: properties of the [Dataset] class *)

Module DatasetClassFacts.
Import Dataset PyStr DatasetClass Notions PyFacts ParseFacts SortFacts.
Import ConverterFacts ConverterExtras ParseExtras.

(** *** Strings and paths *)

Lemma str_slash : str "/" = [47%N].
Proof. by vm_compute. Qed.

Lemma str_json : str ".json" = [46; 106; 115; 111; 110]%N.
Proof. by vm_compute. Qed.

Lemma find_none_find_opt (s sub : list N) :
  find s sub = (-1)%Z ↔ find_opt s sub = None.
Proof.
  unfold find. rewrite find_from_find_opt.
  destruct (find_opt s sub); split; try done; lia.
Qed.

Lemma find_opt_cons_None (c : N) (s sub : list N) :
  find_opt (c :: s) sub = None ↔
  startswith (c :: s) sub = false ∧ find_opt s sub = None.
Proof.
  cbn [find_opt]. destruct (startswith (c :: s) sub).
  - split; [done | by intros [[=] _]].
  - destruct (find_opt s sub); simpl; split; try done. by intros [_ [=]].
Qed.

Lemma rfind_from_none (i : Z) (s : list N) (last : Z) :
  47%N ∉ s → rfind_from i s [47%N] last = last.
Proof.
  revert i. induction s as [|c s IH]; intros i Hs; [done|].
  apply not_elem_of_cons in Hs as [Hc Hs].
  cbn [rfind_from startswith].
  destruct (N.eqb_spec c 47); [congruence|]. cbn [andb]. by apply IH.
Qed.

Lemma rfind_from_last (i : Z) (a s : list N) (last : Z) :
  47%N ∉ s →
  rfind_from i (a ++ 47%N :: s) [47%N] last = (i + Z.of_nat (length a))%Z.
Proof.
  intros Hs. revert i last. induction a as [|c a IH]; intros i last.
  - cbn [app rfind_from startswith]. rewrite N.eqb_refl, startswith_nil.
    cbn [andb]. rewrite rfind_from_none by done. simpl. lia.
  - cbn [app rfind_from]. rewrite IH. simpl length. lia.
Qed.

(** What follows the last slash. *)
Lemma basename_after_slash (dir rest : list N) :
  47%N ∉ rest → basename (dir ++ str "/" ++ rest) = rest.
Proof.
  intros Hrest. unfold basename, rfind, slice_from, slice_bound.
  rewrite str_slash. cbn [app]. rewrite rfind_from_last by done.
  destruct (Z.ltb_spec (0 + Z.of_nat (length dir) + 1) 0); [lia|].
  replace (Z.to_nat (0 + Z.of_nat (length dir) + 1)) with (length dir + 1)
    by lia.
  rewrite (cons_middle 47%N dir rest), app_assoc.
  apply drop_app_length'. rewrite length_app. simpl. lia.
Qed.

Lemma basename_no_slash (p : list N) : 47%N ∉ p → basename p = p.
Proof.
  intros Hp. unfold basename, rfind, slice_from, slice_bound.
  rewrite str_slash, rfind_from_none by done. by destruct p.
Qed.

(** The extension opens with a dot that occurs nowhere else in it. *)
Lemma startswith_json_app (up rest : list N) :
  startswith (up ++ str ".json" ++ rest) (str ".json")
  = startswith up (str ".json") || bool_decide (up = []).
Proof.
  rewrite str_json.
  destruct up as [|c1 [|c2 [|c3 [|c4 [|c5 up]]]]];
    cbn [app startswith bool_decide decide_rel];
    repeat (match goal with
            | |- context [(?c =? ?k)%N] =>
                is_var c; destruct (c =? k)%N; cbn [andb orb]
            end);
    rewrite ?startswith_nil; done.
Qed.

Lemma replace_from_json (stem new : list N) :
  find_opt stem (str ".json") = None →
  replace_from 0 (stem ++ str ".json") (str ".json") new = stem ++ new.
Proof.
  induction stem as [|c stem IH].
  - intros _. rewrite str_json. cbn. by rewrite ?startswith_nil, app_nil_r.
  - intros [Hc Hstem]%find_opt_cons_None.
    change ((c :: stem) ++ str ".json")
      with (c :: (stem ++ str ".json")).
    cbn [replace_from].
    change (c :: (stem ++ str ".json"))
      with ((c :: stem) ++ str ".json").
    rewrite <- (app_nil_r ((c :: stem) ++ str ".json")), <- app_assoc.
    rewrite startswith_json_app, Hc, bool_decide_eq_false_2 by done.
    cbn [orb]. rewrite IH by done. done.
Qed.

Lemma replace_from_none (s old new : list N) :
  find_opt s old = None → replace_from 0 s old new = s.
Proof.
  induction s as [|c s IH]; [done|].
  intros [Hc Hs]%find_opt_cons_None.
  cbn [replace_from]. rewrite Hc. f_equal. by apply IH.
Qed.

Lemma replace_json (s new : list N) :
  replace s (str ".json") new = replace_from 0 s (str ".json") new.
Proof. reflexivity. Qed.

Section ReadData.

Context (image : Type) (path_exists : list N → bool)
  (imread : list N → result (option image)).

(** What [_read_data] returns once the name of the image is known. *)
Lemma read_data_Some (data_path image_dir name : list N) (ex : example image) :
  replace (basename data_path) (str ".json") (str ".png") = name →
  _read_data image path_exists imread (data_path, image_dir) = Some ex
  ↔ path_exists (path_join image_dir name) = true
    ∧ imread (path_join image_dir name) = Ok (Some (ex_image ex))
    ∧ boxes_and_texts_file ex = data_path.
Proof.
  intros Hname. unfold _read_data. rewrite Hname.
  destruct (path_exists (path_join image_dir name)); cbn [negb];
    [|split; [done | by intros [[=] _]]].
  destruct (imread (path_join image_dir name)) as [[img|]|e].
  - destruct ex as [img' path']. simpl. split.
    + by intros [= -> ->].
    + by intros (_ & [= ->] & ->).
  - split; [done | by intros (_ & [=] & _)].
  - split; [done | by intros (_ & [=] & _)].
Qed.

End ReadData.

(** X14. For an annotation file [dir/stem.json], where [stem] has no slash
    and does not contain [.json], [_read_data] returns an example exactly
    when the file [stem.png] of the image directory exists and [imread]
    decodes it, and the example carries that image and the path of the
    annotation file.  An annotation file in whose name [.json] does not
    occur is paired with the file of the same name in the image
    directory. *)
Theorem read_data_image_file (image : Type) (path_exists : list N → bool)
    (imread : list N → result (option image))
    (dir stem image_dir : list N) (ex : example image) :
  47%N ∉ stem →
  find stem (str ".json") = (-1)%Z →
  (_read_data image path_exists imread
     (dir ++ str "/" ++ stem ++ str ".json", image_dir) = Some ex
   ↔ path_exists (path_join image_dir (stem ++ str ".png")) = true
     ∧ imread (path_join image_dir (stem ++ str ".png"))
       = Ok (Some (ex_image ex))
     ∧ boxes_and_texts_file ex = dir ++ str "/" ++ stem ++ str ".json")
  ∧ (_read_data image path_exists imread (dir ++ str "/" ++ stem, image_dir)
     = Some ex
     ↔ path_exists (path_join image_dir stem) = true
       ∧ imread (path_join image_dir stem) = Ok (Some (ex_image ex))
       ∧ boxes_and_texts_file ex = dir ++ str "/" ++ stem).
Proof.
  intros Hslash Hjson%find_none_find_opt. split.
  - apply read_data_Some.
    rewrite basename_after_slash.
    + rewrite replace_json. by apply replace_from_json.
    + rewrite str_json. rewrite not_elem_of_app. split; [done|].
      by apply (bool_decide_unpack _).
  - apply read_data_Some.
    rewrite basename_after_slash by done.
    rewrite replace_json. by apply replace_from_none.
Qed.

Lemma read_data_image_file_witness :
  _read_data unit
    (λ p, bool_decide (p = str "img/0001.png"))
    (λ _, Ok (Some tt))
    (str "train/anno" ++ str "/" ++ str "0001" ++ str ".json", str "img")
  = Some {| ex_image := tt;
            boxes_and_texts_file :=
              str "train/anno" ++ str "/" ++ str "0001" ++ str ".json" |}.
Proof.
  apply (read_data_image_file unit
           (λ p, bool_decide (p = str "img/0001.png")) (λ _, Ok (Some tt))
           (str "train/anno") (str "0001") (str "img")).
  - apply (bool_decide_unpack _). by vm_compute.
  - by vm_compute.
  - split; [by vm_compute|]. split; reflexivity.
Defined.

(** *** [__init__] *)

(** X15. [Dataset.__init__] fails its assertion when [image_path] is not a
    directory.  When [image_path] is one and [data_path] is not, it does
    not raise the [ValueError] it is about to build: the name
    [subdata_label_path] given to it is bound nowhere, and the call ends in
    [NameError].  An object it returns has a label converter for the
    default lexicon, with [seq_len] 50 and [recg_loss] 'CE' unless the
    configuration says otherwise. *)
Theorem dataset_init_paths (T transform_t base_t : Type)
    (isdir : list N → bool) (glob : list N → list (list N))
    (build_transform : T → result transform_t)
    (BaseDataset_init :
       list (list (list (list N))) → list (list N) → Z → bool → result base_t)
    (cfg : config T) (feed_names : list (list N)) (train_mode : bool) :
  (isdir (image_path cfg) = false →
   DatasetClass.__init__ T transform_t base_t isdir glob build_transform
     BaseDataset_init cfg feed_names train_mode
   = Raise AssertionError)
  ∧ (isdir (image_path cfg) = true → isdir (data_path cfg) = false →
     DatasetClass.__init__ T transform_t base_t isdir glob build_transform
       BaseDataset_init cfg feed_names train_mode
     = Raise (NameError "subdata_label_path"))
  ∧ (∀ obj,
       DatasetClass.__init__ T transform_t base_t isdir glob build_transform
         BaseDataset_init cfg feed_names train_mode
       = Ok obj →
       isdir (image_path cfg) = true ∧ isdir (data_path cfg) = true
       ∧ label_converter T transform_t base_t obj
         = Dataset.__init__ (default 50%Z (max_seq_len cfg)) None
             (default (str "CE") (cfg_recg_loss cfg))).
Proof.
  unfold DatasetClass.__init__. split; [|split].
  - by intros ->.
  - intros -> ->. cbn [negb bind].
    replace (resolve "ValueError") with (Ok (A:=string) "ValueError")
      by (by vm_compute).
    cbn [bind].
    by replace (resolve "subdata_label_path")
      with (Raise (A:=string) (NameError "subdata_label_path"))
      by (by vm_compute).
  - intros obj. destruct (isdir (image_path cfg)); [|done]. cbn [negb].
    destruct (isdir (data_path cfg)).
    + cbn [bind]. destruct (build_transform _); [|done]. cbn [bind].
      destruct (BaseDataset_init _ _ _ _); [|done]. cbn [bind].
      by intros [= <-].
    + replace (resolve "ValueError") with (Ok (A:=string) "ValueError")
        by (by vm_compute).
      cbn [bind].
      by replace (resolve "subdata_label_path")
        with (Raise (A:=string) (NameError "subdata_label_path"))
        by (by vm_compute).
Qed.

Lemma dataset_init_paths_witness :
  DatasetClass.__init__ unit unit unit
    (λ p, bool_decide (p = str "funsd/image")) (λ _, [])
    (λ _, Ok tt) (λ _ _ _ _, Ok tt)
    {| batch_size := 4; data_path := str "funsd/anno.zip";
       image_path := str "funsd/image"; transform := tt;
       max_seq_len := None; cfg_recg_loss := None |}
    [str "image"] true
  = Raise (NameError "subdata_label_path").
Proof.
  apply (dataset_init_paths unit unit unit
           (λ p, bool_decide (p = str "funsd/image")) (λ _, [])
           (λ _, Ok tt) (λ _ _ _ _, Ok tt)
           {| batch_size := 4; data_path := str "funsd/anno.zip";
              image_path := str "funsd/image"; transform := tt;
              max_seq_len := None; cfg_recg_loss := None |}
           [str "image"] true); by vm_compute.
Defined.

(** *** [_convert_examples]: the last loop *)

Section Merge.

Context {V : Type}.

Implicit Types (d items : list (list N * V)) (k : list N).

Lemma dict_get_set d k (v : V) k' :
  dict_get (dict_set d k v) k'
  = if bool_decide (k = k') then Some v else dict_get d k'.
Proof.
  induction d as [|[k0 v0] d IH]; cbn [dict_set dict_get].
  - done.
  - destruct (decide (k0 = k)) as [->|Hne].
    + rewrite bool_decide_eq_true_2 by done. cbn [dict_get].
      by destruct (decide (k = k')) as [->|];
        rewrite ?bool_decide_eq_true_2, ?bool_decide_eq_false_2 by done.
    + rewrite (bool_decide_eq_false_2 (k0 = k)) by done. cbn [dict_get].
      rewrite IH.
      destruct (decide (k0 = k')) as [->|].
      * rewrite bool_decide_eq_true_2 by done.
        by rewrite bool_decide_eq_false_2 by congruence.
      * by rewrite (bool_decide_eq_false_2 (k0 = k')) by done.
Qed.

Lemma merge_get_other items d k' :
  (∀ kv, kv ∈ items →
         kv.1 ∈ [str "image"; str "ratio"] ∨ kv.1 ++ str "_line" ≠ k') →
  dict_get (foldl (merge_step V) d items) k' = dict_get d k'.
Proof.
  revert d. induction items as [|kv items IH]; intros d Hitems; [done|].
  cbn [foldl]. rewrite IH by (intros; apply Hitems; by right).
  unfold merge_step. case_bool_decide as Hex; [done|].
  rewrite dict_get_set.
  destruct (Hitems kv) as [?|Hne]; [by left | done|].
  by rewrite bool_decide_eq_false_2.
Qed.

Lemma merge_get_copied items d k (v : V) :
  NoDup items.*1 → (k, v) ∈ items → k ∉ [str "image"; str "ratio"] →
  dict_get (foldl (merge_step V) d items) (k ++ str "_line") = Some v.
Proof.
  intros Hnd Hin Hk.
  apply list_elem_of_split in Hin as (l1 & l2 & ->).
  rewrite fmap_app, fmap_cons in Hnd.
  apply NoDup_app in Hnd as (_ & _ & [Hk2 _]%NoDup_cons).
  rewrite foldl_app. cbn [foldl].
  rewrite merge_get_other.
  - unfold merge_step at 1. cbn [fst snd].
    rewrite bool_decide_eq_false_2 by done.
    by rewrite dict_get_set, bool_decide_eq_true_2.
  - intros [k2 v2] Hin2. right. cbn [fst]. intros Heq%app_inv_tail.
    subst k2. apply Hk2. apply list_elem_of_fmap. by exists (k, v2).
Qed.

End Merge.

(** X16. In what [_convert_examples] returns, every entry of the
    line-level output of the transform other than [image] and [ratio] is
    found under its key followed by [_line]; those two are not copied; and
    a key that is not such a copy keeps the value it had in the first
    output. *)
Theorem merge_line_outputs {V : Type} (data line_out : list (list N * V)) :
  (NoDup line_out.*1 →
   ∀ k v, (k, v) ∈ line_out → k ≠ str "image" → k ≠ str "ratio" →
          dict_get (foldl (merge_step V) data line_out) (k ++ str "_line")
          = Some v)
  ∧ dict_get (foldl (merge_step V) data line_out) (str "image_line")
    = dict_get data (str "image_line")
  ∧ dict_get (foldl (merge_step V) data line_out) (str "ratio_line")
    = dict_get data (str "ratio_line")
  ∧ (∀ k', (∀ k, k' ≠ k ++ str "_line") →
           dict_get (foldl (merge_step V) data line_out) k'
           = dict_get data k').
Proof.
  split; [|split; [|split]].
  - intros Hnd k v Hin Himage Hratio. apply merge_get_copied; [done..|].
    rewrite !not_elem_of_cons. by repeat split; [..|apply not_elem_of_nil].
  - apply merge_get_other. intros [k v] _. cbn [fst].
    destruct (decide (k = str "image")) as [->|Hne]; [left; by left|].
    right. change (str "image_line") with (str "image" ++ str "_line").
    by intros ?%app_inv_tail.
  - apply merge_get_other. intros [k v] _. cbn [fst].
    destruct (decide (k = str "ratio")) as [->|Hne]; [left; right; by left|].
    right. change (str "ratio_line") with (str "ratio" ++ str "_line").
    by intros ?%app_inv_tail.
  - intros k' Hk'. apply merge_get_other. intros [k v] _. right.
    cbn [fst]. intros Heq. by apply (Hk' k).
Qed.

Lemma merge_line_outputs_witness :
  dict_get
    (foldl (merge_step nat) [(str "image", 1); (str "boxes", 2)]
       [(str "image", 3); (str "boxes", 4); (str "ratio", 5)])
    (str "boxes" ++ str "_line")
  = Some 4.
Proof.
  apply (proj1 (merge_line_outputs (V:=nat)
                  [(str "image", 1); (str "boxes", 2)]
                  [(str "image", 3); (str "boxes", 4); (str "ratio", 5)])).
  - apply (bool_decide_unpack _). by vm_compute.
  - apply (bool_decide_unpack _). by vm_compute.
  - by vm_compute.
  - by vm_compute.
Defined.

(** *** [_convert_examples]: the labels *)

Section Labels.

Context (unicode_upper : N → list N) (n : nat) (loss : list N).

Local Abbreviation cv := (Dataset.__init__ (Z.of_nat n) None loss).

Lemma encode_lexicon (text : list N) (ignore_tag : bool) :
  Forall (λ c, [c] ∈ Lexicon_Table_95) text →
  ∃ padded raw,
    encode unicode_upper cv text ignore_tag = Ok (padded, raw)
    ∧ length padded = n ∧ last raw = Some 1%Z.
Proof.
  intros Htext.
  destruct (keys_found unicode_upper n loss text ignore_tag Htext)
    as [raw Hraw].
  destruct (raw_shape unicode_upper n loss text ignore_tag raw Hraw)
    as (idx & -> & _ & _).
  eexists _, _. split; [by apply encode_Ok_shape|].
  split; [|apply last_snoc].
  destruct (decide (n < length (idx ++ [1%Z]))).
  - rewrite length_take. lia.
  - rewrite length_app, length_replicate. lia.
Qed.

Lemma word_loop (l : list entry) (acc : label) :
  Forall (λ e : entry, Forall (λ c, [c] ∈ Lexicon_Table_95) e.1.1.2) l →
  ∃ rows,
    foldl (word_step unicode_upper cv) (Ok acc) l
    = Ok {| polys := polys acc ++ ((λ e : entry, e.1.1.1) <$> l);
            texts := texts acc ++ rows;
            classes := classes acc ++ ((λ e : entry, e.1.2) <$> l);
            ignore_tags := ignore_tags acc ++ ((λ e : entry, e.2) <$> l) |}
    ∧ length rows = length l
    ∧ Forall (λ row, length row = n) rows.
Proof.
  intros Hl. revert acc.
  induction Hl as [|[[[poly text] cls] tag] l He _ IH]; intros acc.
  - exists []. cbn [foldl fmap list_fmap]. rewrite !app_nil_r.
    by destruct acc.
  - cbn [foldl]. unfold word_step at 2. cbn [bind].
    destruct (encode_lexicon text tag He) as (padded & raw & -> & Hlen & _).
    cbn [bind fst].
    destruct (IH {| polys := polys acc ++ [poly];
                    classes := classes acc ++ [cls];
                    texts := texts acc ++ [padded];
                    ignore_tags := ignore_tags acc ++ [tag] |})
      as (rows & -> & Hrows & Hall).
    exists (padded :: rows). cbn [polys texts classes ignore_tags].
    rewrite <- !app_assoc. split; [done|].
    split; [simpl; lia | by constructor].
Qed.

Lemma line_loop (l : list entry) (acc : label) :
  Forall (λ e : entry, Forall (λ c, [c] ∈ Lexicon_Table_95) e.1.1.2) l →
  ∃ rows,
    foldl (line_step unicode_upper cv) (Ok acc) l
    = Ok {| polys := polys acc ++ ((λ e : entry, e.1.1.1) <$> l);
            texts := texts acc ++ rows;
            classes := classes acc ++ ((λ e : entry, e.1.2) <$> l);
            ignore_tags := ignore_tags acc ++ ((λ e : entry, e.2) <$> l) |}
    ∧ length rows = length l
    ∧ Forall (λ row, last row = Some 1%Z) rows.
Proof.
  intros Hl. revert acc.
  induction Hl as [|[[[poly text] cls] tag] l He _ IH]; intros acc.
  - exists []. cbn [foldl fmap list_fmap]. rewrite !app_nil_r.
    by destruct acc.
  - cbn [foldl]. unfold line_step at 2. cbn [bind].
    destruct (encode_lexicon text tag He) as (padded & raw & -> & _ & Hlast).
    cbn [bind snd].
    destruct (IH {| polys := polys acc ++ [poly];
                    texts := texts acc ++ [raw];
                    ignore_tags := ignore_tags acc ++ [tag];
                    classes := classes acc ++ [cls] |})
      as (rows & -> & Hrows & Hall).
    exists (raw :: rows). cbn [polys texts classes ignore_tags].
    rewrite <- !app_assoc. split; [done|].
    split; [simpl; lia | by constructor].
Qed.

End Labels.

(** X17. Once the annotation file is loaded and parsed to a result, no
    call of [encode] in [_convert_examples] fails, and the transform is
    reached (the arrays being kept as lists, their construction is not
    part of the statement).  The word-level group handed to the transform
    has one polygon and one row of text per word entry, every row having
    [seq_len] elements and every class being -1; the line-level group has
    one raw sequence per line entry, each ending with the stop index; and
    every polygon has eight coordinates. *)
Theorem convert_examples_labels (image V : Type)
    (unicode_upper : N → list N) (float : Q → result Q)
    (minAreaRect_center : list Q → Q * Q)
    (load : list N → result annotation)
    (self_transform :
       transform_input image → result (list (list (list N * V))))
    (seq_len : nat) (recg_loss : list N)
    (examples : list (example image)) (ex : example image)
    (data : annotation) (anno : res) :
  list_getitem examples 0 = Ok ex →
  load (boxes_and_texts_file ex) = Ok data →
  _parse_ann_info_funsd float data = Ok (Some anno) →
  ∃ label_word label_line,
    _convert_examples image V unicode_upper float minAreaRect_center load
      self_transform (Dataset.__init__ (Z.of_nat seq_len) None recg_loss)
      examples
    = (let* out :=
         self_transform {| ti_image := ex_image ex;
                           multi_label := [label_word; label_line] |} in
       let* d := list_getitem out 0 in
       let* line_out := list_getitem out 1 in
       Ok (Some (foldl (merge_step V) d line_out)))
    ∧ length (polys label_word) = length (word anno)
    ∧ length (texts label_word) = length (word anno)
    ∧ Forall (λ row, length row = seq_len) (texts label_word)
    ∧ Forall (λ c, c = (-1)%Z) (classes label_word)
    ∧ length (texts label_line) = length (line anno)
    ∧ Forall (λ row, last row = Some 1%Z) (texts label_line)
    ∧ Forall (λ p, length p = 8) (polys label_word ++ polys label_line).
Proof.
  intros Hex Hload Hparse.
  destruct (parse_shapes float data anno Hparse) as [Hline Hword].
  pose proof (sorted_Permutation (compare_key minAreaRect_center false)
                (word anno)) as Hpw.
  pose proof (sorted_Permutation (compare_key minAreaRect_center false)
                (line anno)) as Hpl.
  fold (_sort_box_with_list minAreaRect_center (word anno) false) in Hpw.
  fold (_sort_box_with_list minAreaRect_center (line anno) false) in Hpl.
  rewrite <- Hpw in Hword. rewrite <- Hpl in Hline.
  destruct (word_loop unicode_upper seq_len recg_loss
              (_sort_box_with_list minAreaRect_center (word anno) false)
              empty_label) as (wrows & Hwl & Hwn & Hwrows).
  { eapply Forall_impl; [exact Hword|]. by intros e (_ & He & _). }
  destruct (line_loop unicode_upper seq_len recg_loss
              (_sort_box_with_list minAreaRect_center (line anno) false)
              empty_label) as (lrows & Hll & Hln & Hlrows).
  { eapply Forall_impl; [exact Hline|]. by intros e (_ & He & _). }
  eexists _, _. split.
  - unfold _convert_examples. rewrite Hex. cbn [bind].
    rewrite Hload. cbn [bind]. rewrite Hparse. cbn [bind].
    rewrite Hwl. cbn [bind]. rewrite Hll. cbn [bind]. reflexivity.
  - cbn [polys texts classes empty_label app].
    rewrite !length_fmap, Hwn, Hln.
    split; [by rewrite Hpw|]. split; [by rewrite Hpw|]. split; [done|].
    split; [|split; [by rewrite Hpl|split; [done|]]].
    + apply Forall_fmap. eapply Forall_impl; [exact Hword|].
      by intros e (_ & _ & He).
    + apply Forall_app. split; apply Forall_fmap.
      * eapply Forall_impl; [exact Hword|]. by intros e (He & _).
      * eapply Forall_impl; [exact Hline|]. by intros e (He & _).
Qed.

Lemma convert_examples_labels_witness :
  ∃ label_word label_line,
    _convert_examples unit nat (λ c, [c]) (λ x, Ok x)
      (λ p, (default 0%Q (p !! 0%nat), default 0%Q (p !! 1%nat)))
      (λ _, Ok sample_page) (λ _, Ok [[]; []])
      (Dataset.__init__ (Z.of_nat 50) None (str "CE"))
      [{| ex_image := tt; boxes_and_texts_file := str "a.json" |}]
    = (let* out :=
         (λ _ : transform_input unit, Ok [[]; []])
           {| ti_image := tt; multi_label := [label_word; label_line] |} in
       let* d := list_getitem out 0 in
       let* line_out := list_getitem out 1 in
       Ok (Some (foldl (merge_step nat) d line_out)))
    ∧ Forall (λ row, length row = 50) (texts label_word).
Proof.
  destruct (convert_examples_labels unit nat (λ c, [c]) (λ x, Ok x)
              (λ p, (default 0%Q (p !! 0%nat), default 0%Q (p !! 1%nat)))
              (λ _, Ok sample_page) (λ _, Ok [[]; []]) 50 (str "CE")
              [{| ex_image := tt; boxes_and_texts_file := str "a.json" |}]
              {| ex_image := tt; boxes_and_texts_file := str "a.json" |}
              sample_page
              {| word := [([1; 2; 3; 2; 3; 4; 1; 4]%Q, str "Total", (-1)%Z,
                           false);
                          ([1; 2; 3; 2; 3; 4; 1; 4]%Q, str "Total", (-1)%Z,
                           false)];
                 line := [([1; 2; 9; 2; 9; 4; 1; 4]%Q, str "Total Total",
                           2%Z, false)] |})
    as (lw & ll & Heq & _ & _ & Hrows & _).
  - reflexivity.
  - reflexivity.
  - by vm_compute.
  - exists lw, ll. split; assumption.
Defined.

End DatasetClassFacts.

(** ** utils.py: layer-wise decay, the optimizer factory, the polynomial
    schedule *)

Module OptimFacts.
Import PyStr Optim Notions PyFacts ConverterFacts ConverterExtras.
Import DatasetClassFacts.

(** *** Finding and splitting *)

Lemma str_blocks_dot : str "blocks." = [98; 108; 111; 99; 107; 115; 46]%N.
Proof. by vm_compute. Qed.

Lemma str_dot : str "." = [46%N].
Proof. by vm_compute. Qed.

(** The pattern opens with a [b] that occurs nowhere else in it. *)
Lemma startswith_blocks_app (up rest : list N) :
  startswith (up ++ str "blocks." ++ rest) (str "blocks.")
  = startswith up (str "blocks.") || bool_decide (up = []).
Proof.
  rewrite str_blocks_dot.
  destruct up as [|c1 [|c2 [|c3 [|c4 [|c5 [|c6 [|c7 up]]]]]]];
    cbn [app startswith bool_decide decide_rel];
    repeat (match goal with
            | |- context [(?c =? ?k)%N] =>
                is_var c; destruct (c =? k)%N; cbn [andb orb]
            end);
    rewrite ?startswith_nil; done.
Qed.

Lemma find_opt_blocks_app (pre rest : list N) :
  find_opt pre (str "blocks.") = None →
  find_opt (pre ++ str "blocks." ++ rest) (str "blocks.")
  = Some (length pre).
Proof.
  induction pre as [|c pre IH].
  - intros _. rewrite str_blocks_dot. cbn. by rewrite ?startswith_nil.
  - intros [Hc Hpre]%find_opt_cons_None.
    change ((c :: pre) ++ str "blocks." ++ rest)
      with (c :: (pre ++ str "blocks." ++ rest)).
    cbn [find_opt].
    change (c :: (pre ++ str "blocks." ++ rest))
      with ((c :: pre) ++ str "blocks." ++ rest).
    rewrite startswith_blocks_app, Hc, bool_decide_eq_false_2 by done.
    cbn [orb]. by rewrite IH.
Qed.

(** An occurrence somewhere is found. *)
Lemma find_opt_is_Some (a b sub : list N) :
  startswith b sub = true → is_Some (find_opt (a ++ b) sub).
Proof.
  intros Hb. induction a as [|c a IH].
  - destruct b; cbn [app find_opt]; rewrite Hb; eauto.
  - cbn [app find_opt]. destruct (startswith (c :: a ++ b) sub); [eauto|].
    destruct IH as [k ->]. simpl. eauto.
Qed.

Lemma contains_is_Some (s sub : list N) :
  contains s sub = true ↔ is_Some (find_opt s sub).
Proof.
  unfold contains, find. rewrite find_from_find_opt.
  destruct (find_opt s sub) as [k|].
  - destruct (Z.eqb_spec (0 + Z.of_nat k) (-1)); [lia|]. split; eauto.
  - split; [done | by intros [? [=]]].
Qed.

(** Splitting at dots: a piece without a dot, up to the next dot. *)
Lemma split_from_dot (a r cur : list N) :
  46%N ∉ a →
  split_from 0 (a ++ 46%N :: r) [46%N] cur
  = (cur ++ a) :: split_from 0 r [46%N] [].
Proof.
  revert cur. induction a as [|c a IH]; intros cur Ha.
  - cbn [app split_from startswith]. rewrite N.eqb_refl, startswith_nil.
    cbn [andb]. by rewrite app_nil_r.
  - apply not_elem_of_cons in Ha as [Hc Ha].
    cbn [app split_from startswith].
    destruct (N.eqb_spec c 46); [congruence|]. cbn [andb].
    rewrite IH by done. by rewrite <- app_assoc.
Qed.

Lemma split_from_no_dot (a cur : list N) :
  46%N ∉ a → split_from 0 a [46%N] cur = [cur ++ a].
Proof.
  revert cur. induction a as [|c a IH]; intros cur Ha.
  - by rewrite app_nil_r.
  - apply not_elem_of_cons in Ha as [Hc Ha].
    cbn [split_from startswith].
    destruct (N.eqb_spec c 46); [congruence|]. cbn [andb].
    rewrite IH by done. by rewrite <- app_assoc.
Qed.

Section LayerDecay.

Context (F : Type) (fmul : F → F → F) (fpow : F → Z → result F) (one : F)
  (int : list N → result Z).

Local Abbreviation decay := (layerwise_lr_decay F fmul fpow one int).

(** X18. For a parameter whose static name reads [blocks.] then a piece
    without a dot then a dot, with no [blocks.] before, the layer is what
    [int] makes of that piece, and the learning rate is multiplied by
    [decay_rate ** (n_layers - layer)], whether or not the name also
    contains [embed]. *)
Theorem layerwise_lr_decay_layer (decay_rate : F)
    (name_dict : gmap (list N) (list N)) (n_layers : Z)
    (name : list N) (lr : F) (pre piece rest : list N) :
  name_dict !! name = Some (pre ++ str "blocks." ++ piece ++ str "." ++ rest) →
  find pre (str "blocks.") = (-1)%Z →
  46%N ∉ piece →
  decay decay_rate name_dict n_layers (name, lr)
  = (let* layer := int piece in
     let* ratio := fpow decay_rate (n_layers - layer) in
     Ok (fmul lr ratio)).
Proof.
  intros Hname Hpre%find_none_find_opt Hpiece.
  unfold layerwise_lr_decay, dict_getitem. cbn [fst snd].
  rewrite Hname. cbn [bind].
  assert (Hin : contains (pre ++ str "blocks." ++ piece ++ str "." ++ rest)
                  (str "blocks") = true).
  { apply contains_is_Some, find_opt_is_Some.
    rewrite str_blocks_dot. cbn. by rewrite ?startswith_nil. }
  rewrite Hin.
  unfold find. rewrite find_from_find_opt, find_opt_blocks_app by done.
  unfold slice_from. rewrite Z.add_0_l, slice_bound_nonneg, drop_app_length.
  assert (Hsplit : split (str "blocks." ++ piece ++ str "." ++ rest) (str ".")
                   = Ok (str "blocks" :: piece
                         :: split_from 0 rest [46%N] [])).
  { unfold split. rewrite str_dot.
    change (str "blocks." ++ piece ++ [46%N] ++ rest)
      with (str "blocks" ++ 46%N :: (piece ++ 46%N :: rest)).
    rewrite split_from_dot by (by apply (bool_decide_unpack _)).
    by rewrite split_from_dot. }
  rewrite Hsplit. cbn [bind].
  change (list_getitem (str "blocks" :: piece :: split_from 0 rest [46%N] []) 1)
    with (Ok (A:=list N) piece).
  cbn [bind]. destruct (int piece) as [layer|]; [|done]. cbn [bind].
  by destruct (fpow decay_rate (n_layers - layer)).
Qed.

(** X19. A static name that contains [blocks] but nowhere [blocks.], and
    does not end with a dot, makes [layerwise_lr_decay] fail with
    [IndexError]: the search gives -1, only the last character is split,
    and there is no second piece. *)
Theorem layerwise_lr_decay_no_dot (decay_rate : F)
    (name_dict : gmap (list N) (list N)) (n_layers : Z)
    (name : list N) (lr : F) (static_name : list N) :
  name_dict !! name = Some static_name →
  contains static_name (str "blocks") = true →
  find static_name (str "blocks.") = (-1)%Z →
  last static_name ≠ Some 46%N →
  decay decay_rate name_dict n_layers (name, lr) = Raise IndexError.
Proof.
  intros Hname Hin Hfind Hlast.
  unfold layerwise_lr_decay, dict_getitem. cbn [fst snd].
  rewrite Hname. cbn [bind]. rewrite Hin, Hfind.
  destruct static_name as [|c s _] using rev_ind; [done|].
  rewrite last_snoc in Hlast.
  assert (Hb : slice_bound (length (s ++ [c])) (-1) = length s).
  { unfold slice_bound. rewrite length_app. simpl. lia. }
  unfold slice_from. rewrite Hb, drop_app_length.
  unfold split. rewrite str_dot.
  rewrite split_from_no_dot; [done|].
  rewrite not_elem_of_cons. split; [congruence | apply not_elem_of_nil].
Qed.

End LayerDecay.

Lemma layerwise_lr_decay_layer_witness :
  layerwise_lr_decay Q Qmult (λ x n, Ok (Qpower x n)) 1%Q
    (λ s, if bool_decide (s = str "11") then Ok 11%Z
          else Raise (ValueError "invalid literal"))
    0.65%Q {[ str "linear_7.w_0" := str "blocks.11.attn.qkv.weight" ]} 12
    (str "linear_7.w_0", 0.001%Q)
  = Ok (Qmult 0.001 (Qpower 0.65 (12 - 11))).
Proof.
  etrans.
  - apply (layerwise_lr_decay_layer Q Qmult (λ x n, Ok (Qpower x n)) 1%Q
             (λ s, if bool_decide (s = str "11") then Ok 11%Z
                   else Raise (ValueError "invalid literal"))
             0.65%Q
             {[ str "linear_7.w_0" := str "blocks.11.attn.qkv.weight" ]}
             12 (str "linear_7.w_0") 0.001%Q [] (str "11")
             (str "attn.qkv.weight")).
    + vm_compute. reflexivity.
    + vm_compute. reflexivity.
    + apply (bool_decide_unpack _). vm_compute. reflexivity.
  - vm_compute. reflexivity.
Defined.

Lemma layerwise_lr_decay_no_dot_witness :
  layerwise_lr_decay Q Qmult (λ x n, Ok (Qpower x n)) 1%Q
    (λ s, Raise (ValueError "invalid literal"))
    0.65%Q {[ str "linear_7.w_0" := str "blocks_11_weight" ]} 12
    (str "linear_7.w_0", 0.001%Q)
  = Raise IndexError.
Proof.
  apply (layerwise_lr_decay_no_dot Q Qmult (λ x n, Ok (Qpower x n)) 1%Q
           (λ s, Raise (ValueError "invalid literal"))
           0.65%Q {[ str "linear_7.w_0" := str "blocks_11_weight" ]} 12
           (str "linear_7.w_0") 0.001%Q (str "blocks_11_weight")).
  - by vm_compute.
  - by vm_compute.
  - by vm_compute.
  - vm_compute. congruence.
Defined.

(** *** The optimizer factory *)

Lemma fold_Raise (skip_list : option (list (list N))) (e : exn)
    (nps : list (list N * parameter)) :
  foldl (decay_dict_step skip_list) (Raise e) nps = Raise e.
Proof. by induction nps as [|np nps IH]. Qed.

Lemma decay_fold_None_Raise (nps : list (list N * parameter))
    (d0 : gmap (list N) bool) :
  Exists (λ np, asks_skip_list np = true) nps →
  foldl (decay_dict_step None) (Ok d0) nps
  = Raise (TypeError "argument of type 'NoneType' is not iterable").
Proof.
  revert d0. induction nps as [|np nps IH]; intros d0 Hex.
  - by apply Exists_nil in Hex.
  - cbn [foldl]. unfold decay_dict_step at 2. cbn [bind].
    destruct (asks_skip_list np) eqn:Hnp.
    + unfold asks_skip_list in Hnp.
      apply andb_prop in Hnp as [[H1 H2]%andb_prop H3].
      rewrite H1. unfold decays.
      apply negb_true_iff in H2, H3. rewrite H2, H3. cbn [bind].
      apply fold_Raise.
    + apply Exists_cons in Hex as [Hex|Hex]; [congruence|].
      destruct (negb (contains np.1 (str "teacher"))); [|by apply IH].
      destruct (decays None np.1 np.2) as [b|e] eqn:Hd; cbn [bind].
      * by apply IH.
      * unfold decays in Hd.
        destruct (length (p_shape np.2) =? 1)%nat; [done|].
        destruct (endswith np.1 (str ".bias")); [done|].
        injection Hd as <-. apply fold_Raise.
Qed.

Lemma decay_fold_None_Ok (nps : list (list N * parameter))
    (d0 : gmap (list N) bool) :
  Forall (λ np, asks_skip_list np = false) nps →
  (∀ k b, d0 !! k = Some b → b = false) →
  ∃ d, foldl (decay_dict_step None) (Ok d0) nps = Ok d
       ∧ ∀ k b, d !! k = Some b → b = false.
Proof.
  revert d0. induction nps as [|np nps IH]; intros d0 Hall Hd0.
  - by exists d0.
  - apply Forall_cons in Hall as [Hnp Hall].
    cbn [foldl]. unfold decay_dict_step at 2. cbn [bind].
    unfold asks_skip_list in Hnp.
    destruct (negb (contains np.1 (str "teacher"))); [|by apply IH].
    cbn [andb] in Hnp. unfold decays.
    destruct (length (p_shape np.2) =? 1)%nat.
    + cbn [bind]. apply IH; [done|].
      intros k b [[_ <-]|[_ Hk]]%lookup_insert_Some; [done | eauto].
    + cbn [negb andb] in Hnp. apply negb_false_iff in Hnp. rewrite Hnp.
      cbn [bind]. apply IH; [done|].
      intros k b [[_ <-]|[_ Hk]]%lookup_insert_Some; [done | eauto].
Qed.

(** The table built when [skip_list] is a container. *)
Lemma decay_table (l : list (list N)) (nps : list (list N * parameter))
    (d0 : gmap (list N) bool) :
  NoDup (framework_names nps) →
  ∃ d, foldl (decay_dict_step (Some l)) (Ok d0) nps = Ok d
       ∧ (∀ name p, (name, p) ∈ nps →
            d !! p_name p
            = if contains name (str "teacher") then d0 !! p_name p
              else Some (negb ((length (p_shape p) =? 1)%nat
                               || endswith name (str ".bias")
                               || bool_decide (name ∈ l))))
       ∧ (∀ k, k ∉ framework_names nps → d !! k = d0 !! k).
Proof.
  revert d0. induction nps as [|[n0 p0] nps IH]; intros d0 Hnd.
  - exists d0. split; [done|]. split; [|done].
    intros name p Hin. by apply elem_of_nil in Hin.
  - unfold framework_names in Hnd. rewrite fmap_cons in Hnd.
    apply NoDup_cons in Hnd as [Hn0 Hnd]. cbn [fst snd] in Hn0.
    cbn [foldl]. unfold decay_dict_step at 2. cbn [bind fst snd].
    set (flag := negb ((length (p_shape p0) =? 1)%nat
                       || endswith n0 (str ".bias")
                       || bool_decide (n0 ∈ l))).
    assert (Hdec : decays (Some l) n0 p0 = Ok flag).
    { unfold decays, flag.
      destruct (length (p_shape p0) =? 1)%nat; [done|].
      by destruct (endswith n0 (str ".bias")). }
    rewrite Hdec.
    set (d1 := if contains n0 (str "teacher") then d0
               else <[p_name p0 := flag]> d0).
    assert (Hstep : (if negb (contains n0 (str "teacher"))
                     then let* b := Ok flag in Ok (<[p_name p0 := b]> d0)
                     else Ok d0) = Ok d1).
    { unfold d1. by destruct (contains n0 (str "teacher")). }
    rewrite Hstep.
    destruct (IH d1 Hnd) as (d & Hd & Hin & Hout).
    exists d. split; [done|]. split.
    + intros name p [[= -> ->]|Hp]%elem_of_cons.
      * rewrite Hout by done. unfold d1.
        destruct (contains n0 (str "teacher")); [done|].
        by rewrite lookup_insert_eq.
      * rewrite (Hin _ _ Hp).
        destruct (contains name (str "teacher")); [|done].
        assert (p_name p ≠ p_name p0).
        { intros Heq. apply Hn0. rewrite <- Heq.
          apply list_elem_of_fmap. by exists (name, p). }
        unfold d1. destruct (contains n0 (str "teacher")); [done|].
        by rewrite lookup_insert_ne.
    + intros k Hk. unfold framework_names in Hk. rewrite fmap_cons in Hk.
      apply not_elem_of_cons in Hk as [Hk0 Hk]. cbn [snd] in Hk0.
      rewrite Hout by done. unfold d1.
      destruct (contains n0 (str "teacher")); [done|].
      by rewrite lookup_insert_ne.
Qed.

(** [name_dict]: from the framework name to the static name. *)
Lemma name_dict_lookup (nps : list (list N * parameter))
    (d0 : gmap (list N) (list N)) :
  NoDup (framework_names nps) →
  (∀ name p, (name, p) ∈ nps →
     foldl (λ d (np : list N * parameter), <[p_name np.2 := np.1]> d) d0 nps
       !! p_name p = Some name)
  ∧ (∀ k, k ∉ framework_names nps →
       foldl (λ d (np : list N * parameter), <[p_name np.2 := np.1]> d) d0 nps
         !! k = d0 !! k).
Proof.
  revert d0. induction nps as [|[n0 p0] nps IH]; intros d0 Hnd.
  - split; [|done]. intros name p Hin. by apply elem_of_nil in Hin.
  - unfold framework_names in Hnd. rewrite fmap_cons in Hnd.
    apply NoDup_cons in Hnd as [Hn0 Hnd]. cbn [fst snd] in Hn0.
    cbn [foldl fst snd].
    destruct (IH (<[p_name p0 := n0]> d0) Hnd) as [Hin Hout]. split.
    + intros name p [[= -> ->]|Hp]%elem_of_cons; [|by apply Hin].
      rewrite Hout by done. by rewrite lookup_insert_eq.
    + intros k Hk. unfold framework_names in Hk. rewrite fmap_cons in Hk.
      apply not_elem_of_cons in Hk as [Hk0 Hk]. cbn [snd] in Hk0.
      rewrite Hout by done. by rewrite lookup_insert_ne.
Qed.

Lemma create_optimizer_name_dict_eq (nps : list (list N * parameter))
    (nwd : option (result (list (list N)))) (filter_bias_and_bn : bool)
    (num_layers : option Z) (skip_list : option (list (list N)))
    (decay_dict : option (gmap (list N) bool)) (args : opt_args) :
  create_optimizer nps nwd filter_bias_and_bn num_layers skip_list decay_dict
  = Ok args →
  name_dict args
  = foldl (λ d (np : list N * parameter), <[p_name np.2 := np.1]> d) ∅ nps
  ∧ n_layers args = num_layers.
Proof.
  unfold create_optimizer.
  match goal with
  | |- (let* r := ?m in _) = _ → _ => destruct m as [[[dd ps] wd]|e]
  end; [|done].
  cbn [bind]. by intros [= <-].
Qed.

(** X20. With filtering on and [skip_list] left at [None], the factory
    works only for a model none of whose parameters needs the test
    [name in skip_list]: one parameter that is not a teacher's, not
    one-dimensional and not a bias makes it fail with [TypeError], also
    when the model has [no_weight_decay]; otherwise it hands over a weight
    decay of 0 and a table in which no parameter decays. *)
Theorem create_optimizer_default_skip_list
    (nps : list (list N * parameter))
    (nwd : option (result (list (list N)))) (num_layers : option Z)
    (decay_dict : option (gmap (list N) bool)) :
  (∀ e, nwd ≠ Some (Raise e)) →
  (Exists (λ np, asks_skip_list np = true) nps →
     create_optimizer nps nwd true num_layers None decay_dict
     = Raise (TypeError "argument of type 'NoneType' is not iterable"))
  ∧ (Forall (λ np, asks_skip_list np = false) nps →
     ∃ args d,
       create_optimizer nps nwd true num_layers None decay_dict = Ok args
       ∧ Qeq (weight_decay args) 0
       ∧ apply_decay_param_fun args = Some d
       ∧ ∀ k b, d !! k = Some b → b = false).
Proof.
  intros Hnwd.
  assert (Hskip : ∃ sk, default (Ok []) nwd = Ok sk).
  { destruct nwd as [[sk|e]|]; [by exists sk | by destruct (Hnwd e) | by exists []]. }
  destruct Hskip as [sk Hsk].
  split.
  - intros Hex. unfold create_optimizer.
    change (truthy 0.05 && true) with true. cbv iota.
    rewrite Hsk. cbn [bind].
    by rewrite (decay_fold_None_Raise nps ∅ Hex).
  - intros Hall. unfold create_optimizer.
    change (truthy 0.05 && true) with true. cbv iota.
    rewrite Hsk. cbn [bind].
    destruct (decay_fold_None_Ok nps ∅ Hall) as (d & Hd & Hfalse).
    { intros k b Hk. by rewrite lookup_empty in Hk. }
    rewrite Hd. cbn [bind].
    eexists _, d. split; [reflexivity|].
  cbn [weight_decay apply_decay_param_fun parameters]. by split.
Qed.

(** X21. With filtering on and a list for [skip_list], the factory hands
    over a weight decay of 0 and its own decay table, whatever
    [decay_dict] was passed; when the framework names are distinct, the
    table marks a parameter whose static name has no [teacher] for decay
    exactly when it is not one-dimensional, its static name does not end
    with [.bias] and is not in [skip_list]. *)
Theorem create_optimizer_decay_table
    (nps : list (list N * parameter))
    (nwd : option (result (list (list N)))) (num_layers : option Z)
    (l : list (list N)) (decay_dict : option (gmap (list N) bool)) :
  NoDup (framework_names nps) →
  ∃ args d,
    create_optimizer nps nwd true num_layers (Some l) decay_dict = Ok args
    ∧ Qeq (weight_decay args) 0
    ∧ apply_decay_param_fun args = Some d
    ∧ ∀ name p, (name, p) ∈ nps →
        contains name (str "teacher") = false →
        d !! p_name p
        = Some (negb ((length (p_shape p) =? 1)%nat
                      || endswith name (str ".bias")
                      || bool_decide (name ∈ l))).
Proof.
  intros Hnd. unfold create_optimizer.
  change (truthy 0.05 && true) with true. cbv iota. cbn [bind].
  destruct (decay_table l nps ∅ Hnd) as (d & Hd & Hin & _).
  rewrite Hd. cbn [bind].
  eexists _, d. split; [reflexivity|].
  cbn [weight_decay apply_decay_param_fun parameters]. split; [done|]. split; [done|].
  intros name p Hp Ht. rewrite (Hin _ _ Hp). by rewrite Ht.
Qed.

(** X22. The two teacher filters read different names: the table skips
    a parameter by its static name, the parameter list by its framework
    name.  A parameter whose static name contains [teacher] while its
    framework name does not is handed to the optimizer and has no entry in
    the table the optimizer will look it up in. *)
Theorem create_optimizer_teacher_mismatch
    (nps : list (list N * parameter))
    (nwd : option (result (list (list N)))) (num_layers : option Z)
    (l : list (list N)) (decay_dict : option (gmap (list N) bool))
    (name : list N) (p : parameter) :
  NoDup (framework_names nps) →
  (name, p) ∈ nps →
  contains name (str "teacher") = true →
  contains (p_name p) (str "teacher") = false →
  ∃ args d,
    create_optimizer nps nwd true num_layers (Some l) decay_dict = Ok args
    ∧ apply_decay_param_fun args = Some d
    ∧ p ∈ parameters args
    ∧ d !! p_name p = None.
Proof.
  intros Hnd Hp Hname Hpname. unfold create_optimizer.
  change (truthy 0.05 && true) with true. cbv iota. cbn [bind].
  destruct (decay_table l nps ∅ Hnd) as (d & Hd & Hin & _).
  rewrite Hd. cbn [bind].
  eexists _, d. split; [reflexivity|].
  cbn [weight_decay apply_decay_param_fun parameters]. split; [done|]. split.
  - apply list_elem_of_filter. split; [done|].
    apply list_elem_of_fmap. by exists (name, p).
  - rewrite (Hin _ _ Hp), Hname. apply lookup_empty.
Qed.

Section Composition.

Context (F : Type) (fmul : F → F → F) (fpow : F → Z → result F) (one : F)
  (int : list N → result Z).

(** X23. The [name_dict] the factory builds is the one
    [layerwise_lr_decay] needs: for a parameter of the model, framework
    names being distinct, the lookup finds its static name, so the result
    is that of a table holding this one pair; for a name that is no
    parameter's the function fails with [KeyError]. *)
Theorem create_optimizer_layerwise_lr_decay
    (nps : list (list N * parameter))
    (nwd : option (result (list (list N)))) (filter_bias_and_bn : bool)
    (num_layers : option Z) (skip_list : option (list (list N)))
    (decay_dict : option (gmap (list N) bool)) (args : opt_args)
    (decay_rate : F) (n : Z) (lr : F) :
  create_optimizer nps nwd filter_bias_and_bn num_layers skip_list decay_dict
  = Ok args →
  NoDup (framework_names nps) →
  (∀ name p, (name, p) ∈ nps →
     layerwise_lr_decay F fmul fpow one int decay_rate (name_dict args) n
       (p_name p, lr)
     = layerwise_lr_decay F fmul fpow one int decay_rate
         {[ p_name p := name ]} n (p_name p, lr))
  ∧ (∀ k, k ∉ framework_names nps →
     layerwise_lr_decay F fmul fpow one int decay_rate (name_dict args) n
       (k, lr)
     = Raise KeyError).
Proof.
  intros [Hnd _]%create_optimizer_name_dict_eq Hnodup.
  destruct (name_dict_lookup nps ∅ Hnodup) as [Hin Hout].
  split.
  - intros name p Hp. unfold layerwise_lr_decay, dict_getitem. cbn [fst snd].
    by rewrite Hnd, (Hin _ _ Hp), lookup_singleton_eq.
  - intros k Hk. unfold layerwise_lr_decay, dict_getitem. cbn [fst snd].
    by rewrite Hnd, (Hout _ Hk), lookup_empty.
Qed.

End Composition.

(** *** The polynomial schedule *)

Section Polynomial.

Context (F : Type) (linspace : F → F → Z → list F) (sched : Type)
  (PolynomialDecay : F → Z → F → result sched)
  (get_lr : sched → F) (step : sched → sched).

Lemma length_collect (n : nat) (s : sched) :
  length (collect F sched get_lr step n s) = n.
Proof. revert s. induction n as [|n IH]; intros s; simpl; by rewrite ?IH. Qed.

(** X24. [np.linspace] returning as many values as asked,
    [polynomial_scheduler] returns a schedule only when
    [0 <= warmup_iters <= total_iters]; the schedule then has
    [total_iters] values, those past the warm-up being the successive
    rates of the decay; outside that range, and so with the default
    [warmup_iters=-1], the call ends in the assertion once the decay
    object has been built. *)
Theorem polynomial_scheduler_assertion
    (base_value final_value : F) (total_iters : Z) (start_warmup_value : F)
    (warmup_iters : Z) (sc : sched) :
  (∀ a b n, (0 < n)%Z → length (linspace a b n) = Z.to_nat n) →
  PolynomialDecay base_value (total_iters - warmup_iters) final_value = Ok sc →
  ((0 ≤ warmup_iters ≤ total_iters)%Z →
     ∃ s, polynomial_scheduler F linspace sched PolynomialDecay get_lr step
            base_value final_value total_iters start_warmup_value warmup_iters
          = Ok s
          ∧ Z.of_nat (length s) = total_iters
          ∧ drop (Z.to_nat warmup_iters) s
            = collect F sched get_lr step
                (Z.to_nat (total_iters - warmup_iters)) sc)
  ∧ (¬ (0 ≤ warmup_iters ≤ total_iters)%Z →
     polynomial_scheduler F linspace sched PolynomialDecay get_lr step
       base_value final_value total_iters start_warmup_value warmup_iters
     = Raise AssertionError).
Proof.
  intros Hlen Hsc.
  set (warm := if (warmup_iters >? 0)%Z
               then linspace start_warmup_value base_value warmup_iters
               else []).
  assert (Hwarm : length warm = Z.to_nat warmup_iters).
  { unfold warm. destruct (Z.gtb_spec warmup_iters 0).
    - by apply Hlen.
    - simpl. lia. }
  assert (Htotal : length (warm ++ collect F sched get_lr step
                             (Z.to_nat (total_iters - warmup_iters)) sc)
                   = (Z.to_nat warmup_iters
                      + Z.to_nat (total_iters - warmup_iters))%nat).
  { by rewrite length_app, length_collect, Hwarm. }
  unfold polynomial_scheduler. rewrite Hsc. cbn [bind]. fold warm.
  split.
  - intros Hrange. eexists. rewrite Htotal.
    destruct (Z.eqb_spec
                (Z.of_nat (Z.to_nat warmup_iters
                           + Z.to_nat (total_iters - warmup_iters)))
                total_iters); [|lia].
    split; [reflexivity|]. split; [rewrite Htotal; lia|].
    rewrite <- Hwarm. apply drop_app_length.
  - intros Hrange. rewrite Htotal.
    destruct (Z.eqb_spec
                (Z.of_nat (Z.to_nat warmup_iters
                           + Z.to_nat (total_iters - warmup_iters)))
                total_iters); [lia | done].
Qed.

End Polynomial.

Lemma create_optimizer_default_skip_list_witness :
  create_optimizer
    [ (str "blocks.0.attn.qkv.weight",
       {| p_name := str "linear_0.w_0"; p_shape := [768; 2304]%Z |}) ]
    (Some (Ok [str "pos_embed"; str "cls_token"])) true (Some 12%Z) None None
  = Raise (TypeError "argument of type 'NoneType' is not iterable").
Proof.
  apply (proj1 (create_optimizer_default_skip_list
                  [ (str "blocks.0.attn.qkv.weight",
                     {| p_name := str "linear_0.w_0";
                        p_shape := [768; 2304]%Z |}) ]
                  (Some (Ok [str "pos_embed"; str "cls_token"]))
                  (Some 12%Z) None ltac:(intros e; discriminate))).
  apply Exists_cons_hd. vm_compute. reflexivity.
Defined.

Lemma create_optimizer_decay_table_witness :
  ∃ args d,
    create_optimizer
      [ (str "blocks.0.attn.qkv.weight",
         {| p_name := str "linear_0.w_0"; p_shape := [768; 2304]%Z |});
        (str "blocks.0.attn.qkv.bias",
         {| p_name := str "linear_0.b_0"; p_shape := [2304]%Z |}) ]
      None true (Some 12%Z) (Some [str "pos_embed"]) None = Ok args
    ∧ apply_decay_param_fun args = Some d
    ∧ d !! str "linear_0.w_0" = Some true
    ∧ d !! str "linear_0.b_0" = Some false.
Proof.
  destruct (create_optimizer_decay_table
              [ (str "blocks.0.attn.qkv.weight",
                 {| p_name := str "linear_0.w_0";
                    p_shape := [768; 2304]%Z |});
                (str "blocks.0.attn.qkv.bias",
                 {| p_name := str "linear_0.b_0"; p_shape := [2304]%Z |}) ]
              None (Some 12%Z) [str "pos_embed"] None)
    as (args & d & Hargs & _ & Hd & Hlook).
  - apply (bool_decide_unpack _). vm_compute. reflexivity.
  - exists args, d. split; [exact Hargs|]. split; [exact Hd|]. split.
    + apply (Hlook (str "blocks.0.attn.qkv.weight")
               {| p_name := str "linear_0.w_0"; p_shape := [768; 2304]%Z |}).
      * apply list_elem_of_here.
      * vm_compute. reflexivity.
    + apply (Hlook (str "blocks.0.attn.qkv.bias")
               {| p_name := str "linear_0.b_0"; p_shape := [2304]%Z |}).
      * apply list_elem_of_further, list_elem_of_here.
      * vm_compute. reflexivity.
Defined.

Lemma create_optimizer_teacher_mismatch_witness :
  ∃ args d,
    create_optimizer
      [ (str "teacher.blocks.0.attn.qkv.weight",
         {| p_name := str "linear_9.w_0"; p_shape := [768; 2304]%Z |}) ]
      None true (Some 12%Z) (Some []) None = Ok args
    ∧ apply_decay_param_fun args = Some d
    ∧ {| p_name := str "linear_9.w_0"; p_shape := [768; 2304]%Z |}
      ∈ parameters args
    ∧ d !! str "linear_9.w_0" = None.
Proof.
  apply (create_optimizer_teacher_mismatch
           [ (str "teacher.blocks.0.attn.qkv.weight",
              {| p_name := str "linear_9.w_0"; p_shape := [768; 2304]%Z |}) ]
           None (Some 12%Z) [] None
           (str "teacher.blocks.0.attn.qkv.weight")
           {| p_name := str "linear_9.w_0"; p_shape := [768; 2304]%Z |}).
  - apply (bool_decide_unpack _). vm_compute. reflexivity.
  - apply list_elem_of_here.
  - vm_compute. reflexivity.
  - vm_compute. reflexivity.
Defined.

Lemma create_optimizer_layerwise_lr_decay_witness :
  ∃ args,
    create_optimizer
      [ (str "blocks.11.attn.qkv.weight",
         {| p_name := str "linear_7.w_0"; p_shape := [768; 2304]%Z |}) ]
      None false (Some 12%Z) None None = Ok args
    ∧ layerwise_lr_decay Q Qmult (λ x n, Ok (Qpower x n)) 1%Q
        (λ s, Raise (ValueError "invalid literal")) 0.65%Q (name_dict args)
        12 (str "conv_0.w_0", 0.001%Q)
      = Raise KeyError.
Proof.
  eexists. split; [reflexivity|].
  apply (proj2 (create_optimizer_layerwise_lr_decay Q Qmult
                  (λ x n, Ok (Qpower x n)) 1%Q
                  (λ s, Raise (ValueError "invalid literal"))
                  [ (str "blocks.11.attn.qkv.weight",
                     {| p_name := str "linear_7.w_0";
                        p_shape := [768; 2304]%Z |}) ]
                  None false (Some 12%Z) None None _ 0.65%Q 12 0.001%Q
                  eq_refl
                  ltac:(apply (bool_decide_unpack _); vm_compute;
                        reflexivity))).
  apply (bool_decide_unpack _). vm_compute. reflexivity.
Defined.

Lemma polynomial_scheduler_assertion_witness :
  polynomial_scheduler Q (λ a b n, replicate (Z.to_nat n) a) Z
    (λ _ _ _, Ok 0%Z) (λ k, inject_Z k) Z.succ
    0.0002%Q 0%Q 10 0%Q (-1)
  = Raise AssertionError.
Proof.
  apply (proj2 (polynomial_scheduler_assertion Q
                  (λ a b n, replicate (Z.to_nat n) a) Z
                  (λ _ _ _, Ok 0%Z) (λ k, inject_Z k) Z.succ
                  0.0002%Q 0%Q 10 0%Q (-1) 0%Z
                  ltac:(intros a b n _; apply length_replicate)
                  eq_refl)).
  lia.
Defined.

End OptimFacts.

(** ** utils.py: the optimizer step with the learning-rate function *)

Module AdamWDLExtras.
Import Utils AdamWDLFacts.

Section Step.

Context (block param grad lr state op : Type)
  (get_learning_rate : param → state → lr)
  (set_learning_rate : param → lr → state → state)
  (_append_decoupled_weight_decay :
     block → param * grad → state → result state)
  (class_append_optimize_op :
     class → option (block → param * grad → state → result (op * state))).

Local Abbreviation step :=
  (_append_optimize_op block param grad lr state op get_learning_rate
     set_learning_rate _append_decoupled_weight_decay
     class_append_optimize_op).

Lemma super_AdamW_step (m : block → param * grad → state → result (op * state))
    (b : block) (pg : param * grad) (s : state) :
  class_append_optimize_op paddle_AdamW = Some m →
  super_append_optimize_op block param grad state op
    class_append_optimize_op (Class_ AdamWDL) b pg s
  = m b pg s.
Proof.
  intros Hm. unfold super_append_optimize_op.
  change (after AdamWDL mro)
    with [paddle_AdamW; paddle_Adam; paddle_Optimizer; object].
  cbn [omap list_omap]. by rewrite Hm.
Qed.

(** X25. With a learning-rate function set, the step that
    [super(AdamW, self)] reaches is the one of paddle's [AdamW], where it
    defines one, and not the one of [Adam]: the module has rebound [AdamW]
    to [AdamWDL] itself.  It runs on the state left by the weight decay
    and the learning-rate function, and an exception of any of the three
    ends the call. *)
Theorem append_optimize_op_dispatch (self : AdamWDL_obj param lr state)
    (f : param → state → result state)
    (m : block → param * grad → state → result (op * state))
    (b : block) (pg : param * grad) (s : state) :
  set_param_lr_fun param lr state self = Some f →
  class_append_optimize_op paddle_AdamW = Some m →
  step self b pg s
  = (let* s1 := _append_decoupled_weight_decay b pg s in
     let* s2 := f pg.1 s1 in
     let* r := m b pg s2 in
     Ok (r.1, set_learning_rate pg.1 (get_learning_rate pg.1 s1) r.2)).
Proof.
  intros Hf Hm. unfold _append_optimize_op. rewrite Hf.
  destruct (_append_decoupled_weight_decay b pg s) as [s1|e]; [|done].
  cbn [bind]. destruct (f pg.1 s1) as [s2|e]; [|done]. cbn [bind].
  rewrite resolve_super. cbn [bind]. rewrite resolve_AdamW. cbn [bind].
  by rewrite (super_AdamW_step m b pg s2 Hm).
Qed.

(** X26. A step that returns leaves the learning rate of the parameter
    as the weight decay left it, whatever the learning-rate function and
    the base step did to it, provided a rate that was written is the rate
    read back. *)
Theorem append_optimize_op_restores_lr (self : AdamWDL_obj param lr state)
    (f : param → state → result state)
    (m : block → param * grad → state → result (op * state))
    (b : block) (pg : param * grad) (s s' : state) (o : op) :
  (∀ p v t, get_learning_rate p (set_learning_rate p v t) = v) →
  set_param_lr_fun param lr state self = Some f →
  class_append_optimize_op paddle_AdamW = Some m →
  step self b pg s = Ok (o, s') →
  ∃ s1, _append_decoupled_weight_decay b pg s = Ok s1
        ∧ get_learning_rate pg.1 s' = get_learning_rate pg.1 s1.
Proof.
  intros Hlaw Hf Hm. unfold _append_optimize_op. rewrite Hf.
  destruct (_append_decoupled_weight_decay b pg s) as [s1|e]; [|done].
  cbn [bind]. destruct (f pg.1 s1) as [s2|e]; [|done]. cbn [bind].
  rewrite resolve_super. cbn [bind]. rewrite resolve_AdamW. cbn [bind].
  rewrite (super_AdamW_step m b pg s2 Hm).
  destruct (m b pg s2) as [[o' s3]|e]; [|done]. cbn [bind fst snd].
  intros [= <- <-]. exists s1. by rewrite Hlaw.
Qed.

End Step.

Lemma append_optimize_op_dispatch_witness :
  let self : AdamWDL_obj unit Z Z :=
    {| layerwise_decay := 1%Z; n_layers := 12%Z;
       set_param_lr_fun := Some (λ _ s, Ok (s * 2)%Z) |} in
  _append_optimize_op unit unit unit Z Z bool (λ _ s, s) (λ _ v _, v)
    (λ _ _ s, Ok (s + 1)%Z)
    (λ c, match c with
          | paddle_AdamW => Some (λ _ _ s, Ok (true, (s + 100)%Z))
          | paddle_Adam => Some (λ _ _ s, Ok (false, s))
          | _ => None
          end)
    self tt (tt, tt) 5%Z
  = Ok (true, 6%Z).
Proof.
  intros self. etrans.
  - apply (append_optimize_op_dispatch unit unit unit Z Z bool (λ _ s, s)
             (λ _ v _, v) (λ _ _ s, Ok (s + 1)%Z)
             (λ c, match c with
                   | paddle_AdamW => Some (λ _ _ s, Ok (true, (s + 100)%Z))
                   | paddle_Adam => Some (λ _ _ s, Ok (false, s))
                   | _ => None
                   end)
             self (λ _ s, Ok (s * 2)%Z) (λ _ _ s, Ok (true, (s + 100)%Z))
             tt (tt, tt) 5%Z); reflexivity.
  - reflexivity.
Defined.

Lemma append_optimize_op_restores_lr_witness :
  ∃ s1, (λ (_ : unit) (_ : unit * unit) (s : Z), Ok (s + 1)%Z) tt (tt, tt) 5%Z
        = Ok s1
        ∧ (λ (_ : unit) (s : Z), s) tt 6%Z = (λ (_ : unit) (s : Z), s) tt s1.
Proof.
  apply (append_optimize_op_restores_lr unit unit unit Z Z bool (λ _ s, s)
           (λ _ v _, v) (λ _ _ s, Ok (s + 1)%Z)
           (λ c, match c with
                 | paddle_AdamW => Some (λ _ _ s, Ok (true, (s + 100)%Z))
                 | _ => None
                 end)
           {| layerwise_decay := 1%Z; n_layers := 12%Z;
              set_param_lr_fun := Some (λ _ s, Ok (s * 2)%Z) |}
           (λ _ s, Ok (s * 2)%Z) (λ _ _ s, Ok (true, (s + 100)%Z))
           tt (tt, tt) 5%Z 6%Z true).
  - reflexivity.
  - reflexivity.
  - reflexivity.
  - reflexivity.
Defined.

End AdamWDLExtras.
